(** * codex-sessions: session aggregation and the selection model

    A shallow embedding of [internal/sessions] (session type, loader,
    deletion) and of the selection model of [internal/ui], with the
    properties of the specification proved over it.

    Conventions.
    - A Go [string] is a byte string: Rocq's [string], one [ascii] per byte;
      [len] is [String.length] and [s[:n]] is [stake n s].
    - A [time.Time] is its instant, in nanoseconds from the zero time
      (January 1, year 1, 00:00:00 UTC), together with its zone offset; the
      comparisons [After], [Before], [Equal] and [IsZero] look at the instant
      only, as in Go.
    - Functions of the Go standard library and of third-party packages that
      inspect text ([encoding/json], [time.Parse], the fuzzy matcher) are
      parameters of the sections that use them. *)

From Stdlib Require Import ZArith NArith Ascii String List Bool Lia.
From Stdlib Require Import Sorting.Sorted Sorting.Permutation.
From Stdlib Require Import Numbers.DecimalString.
From stdpp Require Import gmap strings list fin_maps sorting.

Local Open Scope Z_scope.

#[local] Arguments String.append !s1 s2 : simpl nomatch.

(* ===================================================================== *)
(** * Byte strings                                                        *)
(* ===================================================================== *)

Module Str.

(** [s[:n]]: the first [n] bytes of [s] (all of [s] when it is shorter; the
    callers below only slice within bounds). *)
Fixpoint stake (n : nat) (s : string) : string :=
  match n, s with
  | S k, String c r => String c (stake k r)
  | _, _ => EmptyString
  end.

(** [s[n:]]. *)
Fixpoint sdrop (n : nat) (s : string) : string :=
  match n, s with
  | S k, String c r => sdrop k r
  | _, _ => s
  end.

(** A string of [n] bytes [c]. *)
Fixpoint bytes (n : nat) (c : ascii) : string :=
  match n with
  | O => EmptyString
  | S k => String c (bytes k c)
  end.

Definition byte (c : ascii) : N := N_of_ascii c.

(** The six ASCII white space bytes: tab, newline, vertical tab, form feed,
    carriage return and space. *)
Definition asciiSpace (c : ascii) : bool :=
  ((9 <=? byte c) && (byte c <=? 13) || (byte c =? 32))%N.

(** Two-byte UTF-8 encodings of white space: U+0085 and U+00A0. *)
Definition space2 (a b : ascii) : bool :=
  ((byte a =? 0xC2) && ((byte b =? 0x85) || (byte b =? 0xA0)))%N.

(** Three-byte UTF-8 encodings of white space: U+1680, U+2000..U+200A,
    U+2028, U+2029, U+202F, U+205F and U+3000. *)
Definition space3 (a b c : ascii) : bool :=
  ((byte a =? 0xE1) && (byte b =? 0x9A) && (byte c =? 0x80)
   || (byte a =? 0xE2) && (byte b =? 0x80)
      && ((0x80 <=? byte c) && (byte c <=? 0x8A)
          || (byte c =? 0xA8) || (byte c =? 0xA9) || (byte c =? 0xAF))
   || (byte a =? 0xE2) && (byte b =? 0x81) && (byte c =? 0x9F)
   || (byte a =? 0xE3) && (byte b =? 0x80) && (byte c =? 0x80))%N.

(** The number of bytes of the white space rune ([unicode.IsSpace]) that [s]
    starts with, [0] when it starts with none. *)
Definition spaceWidth (s : string) : nat :=
  match s with
  | EmptyString => 0
  | String a r1 =>
      if asciiSpace a then 1 else
      match r1 with
      | EmptyString => 0
      | String b r2 =>
          if space2 a b then 2 else
          match r2 with
          | EmptyString => 0
          | String c _ => if space3 a b c then 3 else 0
          end
      end
  end%nat.

(** What ranging over a string sees, as far as white space goes: a white space
    rune with its encoding, or one byte of anything else. *)
Inductive rune : Type :=
  | RSpace (enc : string)
  | RByte (b : ascii).

Definition isRSpace (r : rune) : bool :=
  match r with RSpace _ => true | RByte _ => false end.

(** The runes of a string, in the sense above. *)
Fixpoint runes (s : string) : list rune :=
  match s with
  | EmptyString => []
  | String a r1 =>
      if asciiSpace a then RSpace (String a EmptyString) :: runes r1 else
      match r1 with
      | EmptyString => RByte a :: runes r1
      | String b r2 =>
          if space2 a b
          then RSpace (String a (String b EmptyString)) :: runes r2 else
          match r2 with
          | EmptyString => RByte a :: runes r1
          | String c r3 =>
              if space3 a b c
              then RSpace (String a (String b (String c EmptyString))) :: runes r3
              else RByte a :: runes r1
          end
      end
  end.

Definition encodeRune (r : rune) : string :=
  match r with
  | RSpace enc => enc
  | RByte b => String b EmptyString
  end.

Fixpoint encode (rs : list rune) : string :=
  match rs with
  | [] => EmptyString
  | r :: rest => encodeRune r +:+ encode rest
  end.

Fixpoint dropSpaces (rs : list rune) : list rune :=
  match rs with
  | r :: rest => if isRSpace r then dropSpaces rest else rs
  | [] => []
  end.

(** [strings.TrimSpace]: [s] without its leading and trailing white space. *)
Definition TrimSpace (s : string) : string :=
  encode (rev (dropSpaces (rev (dropSpaces (runes s))))).

(** The fields of a rune list: the maximal runs of bytes that are not white
    space; [cur] is the field being read. *)
Fixpoint fieldsAux (rs : list rune) (cur : string) : list string :=
  match rs with
  | [] => if String.eqb cur EmptyString then [] else [cur]
  | RByte b :: rest => fieldsAux rest (cur +:+ String b EmptyString)
  | RSpace _ :: rest =>
      if String.eqb cur EmptyString then fieldsAux rest EmptyString
      else cur :: fieldsAux rest EmptyString
  end.

(** [strings.Fields]. *)
Definition Fields (s : string) : list string := fieldsAux (runes s) EmptyString.

(** [strings.Join]. *)
Definition Join (elems : list string) (sep : string) : string :=
  String.concat sep elems.

(** [strings.HasPrefix]. *)
Definition HasPrefix (s p : string) : bool := String.prefix p s.

(** A rune list is valid when it reads back as itself: every [RSpace] holds
    exactly one white space encoding, and no [RByte] starts one. *)
Fixpoint valid (rs : list rune) : Prop :=
  match rs with
  | [] => True
  | RSpace w :: rest =>
      (w <> EmptyString /\ spaceWidth w = String.length w) /\ valid rest
  | RByte b :: rest => spaceWidth (String b (encode rest)) = O /\ valid rest
  end.

(** The runes of a trimmed string. *)
Definition trimRunes (rs : list rune) : list rune :=
  rev (dropSpaces (rev (dropSpaces rs))).

(** Does the list end in a white space rune? *)
Fixpoint endsInSpace (rs : list rune) : bool :=
  match rs with
  | [] => false
  | r :: rest => match rest with [] => isRSpace r | _ :: _ => endsInSpace rest end
  end.

(** ** Trimming and collapsing, as the specification words it *)

(** Every maximal run of white space runes becomes one space byte (written
    when the run ends). *)
Fixpoint collapse (rs : list rune) : string :=
  match rs with
  | [] => EmptyString
  | RByte b :: rest => String b (collapse rest)
  | RSpace _ :: rest =>
      match rest with
      | RSpace _ :: _ => collapse rest
      | _ => String " "%char (collapse rest)
      end
  end.

(** ** Strings without white space *)

Definition noSpace (s : string) : bool := forallb (fun r => negb (isRSpace r)) (runes s).

End Str.

(* ===================================================================== *)
(** * Instants ([time.Time])                                              *)
(* ===================================================================== *)

Module Time.

(** A [time.Time]: the instant in nanoseconds from the zero time, and the
    offset of its zone in seconds (used by formatting only). *)
Record t : Type := mk { instant : Z; zone : Z }.

(** [time.Time{}]. *)
Definition zero : t := mk 0 0.

Definition IsZero (a : t) : bool := instant a =? 0.
Definition After (a b : t) : bool := instant b <? instant a.
Definition Before (a b : t) : bool := instant a <? instant b.
Definition Equal (a b : t) : bool := instant a =? instant b.

End Time.

(* ===================================================================== *)
(** * JSON values and decoding into Go structs                            *)
(* ===================================================================== *)

Module Json.

(** A JSON text as [encoding/json] reads it. A number keeps its value when its
    literal is an integer literal ([strconv.ParseInt] accepts it) and nothing
    otherwise; an object keeps its members in order, duplicates included. *)
#[local] Set Warnings "-register-all".
Inductive json : Type :=
  | JNull
  | JBool (b : bool)
  | JNum (int : option Z)
  | JStr (s : string)
  | JArr (elems : list json)
  | JObj (members : list (string * json)).

(** The upper case of an ASCII letter. *)
Definition upper (a : ascii) : ascii :=
  if ((97 <=? N_of_ascii a) && (N_of_ascii a <=? 122))%N
  then ascii_of_N (N_of_ascii a - 32) else a.

(** The decoder's case folding of member names: ASCII letters to upper case,
    and the two runes that fold to an ASCII letter, U+017F to S and U+212A
    to K. *)
Fixpoint foldName (s : string) : string :=
  match s with
  | EmptyString => EmptyString
  | String a r1 =>
      match r1 with
      | String b r2 =>
          if ((N_of_ascii a =? 0xC5) && (N_of_ascii b =? 0xBF))%N
          then String "S"%char (foldName r2) else
          match r2 with
          | String c r3 =>
              if ((N_of_ascii a =? 0xE2) && (N_of_ascii b =? 0x84)
                  && (N_of_ascii c =? 0xAA))%N
              then String "K"%char (foldName r3)
              else String (upper a) (foldName r1)
          | EmptyString => String (upper a) (foldName r1)
          end
      | EmptyString => String (upper a) (foldName r1)
      end
  end.

(** Does the member name [key] select the struct field tagged [name]? *)
Definition keyIs (name key : string) : bool :=
  String.eqb (foldName key) (foldName name).

(** Decoding a value into a variable that holds [old]: the new contents, or
    [None] for a value of the wrong kind (an [UnmarshalTypeError]). A JSON
    null leaves the variable as it is. *)
Definition intoString (v : json) (old : string) : option string :=
  match v with
  | JStr s => Some s
  | JNull => Some old
  | _ => None
  end.

(** Into a [json.RawMessage]: every value is kept as it is. *)
Definition intoRaw (v : json) (old : option json) : option (option json) :=
  Some (Some v).

(** Into a struct, member by member in the order of the text; [setField k v]
    decodes [v] into the field selected by [k] (and ignores unknown names). *)
Definition intoStruct {A : Type} (setField : string -> json -> A -> option A)
    (v : json) (old : A) : option A :=
  match v with
  | JNull => Some old
  | JObj ms =>
      fold_left (fun acc kv => match acc with
                               | Some x => setField (fst kv) (snd kv) x
                               | None => None
                               end) ms (Some old)
  | _ => None
  end.

(** Into a slice: element [i] is decoded into the old element [i] when there
    is one, into a zero value otherwise. *)
Fixpoint intoElems {A : Type} (elem : json -> A -> option A) (zero : A)
    (vs : list json) (old : list A) : option (list A) :=
  match vs with
  | [] => Some []
  | v :: vs' =>
      match elem v (hd zero old) with
      | None => None
      | Some x =>
          match intoElems elem zero vs' (tl old) with
          | None => None
          | Some xs => Some (x :: xs)
          end
      end
  end.

Definition intoSlice {A : Type} (elem : json -> A -> option A) (zero : A)
    (v : json) (old : list A) : option (list A) :=
  match v with
  | JNull => Some []
  | JArr vs => intoElems elem zero vs old
  | _ => None
  end.

(** Into a pointer to a struct: null gives the nil pointer, an object is
    decoded into the struct pointed to (a fresh one for a nil pointer). *)
Definition intoPtr {A : Type} (elem : json -> A -> option A) (zero : A)
    (v : json) (old : option A) : option (option A) :=
  match v with
  | JNull => Some None
  | _ => match elem v (default zero old) with
         | Some x => Some (Some x)
         | None => None
         end
  end.

Definition minInt : Z := - 2 ^ 63.
Definition maxInt : Z := 2 ^ 63 - 1.

(** Into an [int] (64 bits). *)
Definition intoInt (v : json) (old : Z) : option Z :=
  match v with
  | JNull => Some old
  | JNum (Some z) => if (minInt <=? z) && (z <=? maxInt) then Some z else None
  | _ => None
  end.

(** [json.Unmarshal(raw, &x)] for a raw message: an absent (nil) message is an
    error, otherwise the value is decoded into the zero [x]. *)
Definition Unmarshal {A : Type} (into : json -> A -> option A) (zero : A)
    (raw : option json) : option A :=
  match raw with
  | None => None
  | Some v => into v zero
  end.

End Json.

(* ===================================================================== *)
(** * Paths ([path/filepath], with the separator of Unix)                 *)
(* ===================================================================== *)

Module Path.

Definition isSep (c : ascii) : bool := Ascii.eqb c "/"%char.

(** The elements between separators; [cur] is the element being read. *)
Fixpoint splitSep (s : string) (cur : string) : list string :=
  match s with
  | EmptyString => [cur]
  | String c r =>
      if isSep c then cur :: splitSep r EmptyString
      else splitSep r (cur +:+ String c EmptyString)
  end.

(** A cleaned path: rooted or not, and its elements. The relative path with
    no element is ["."], the rooted one is ["/"]. *)
Record cpath : Type := mkc { rooted : bool; comps : list string }.

(** One element against the stack of elements kept so far (last one first):
    empty elements and ["."] go, [".."] removes the element before it, or
    stays when there is none to remove and the path is relative. *)
Definition cleanStep (isRooted : bool) (stack : list string) (elem : string)
    : list string :=
  if String.eqb elem EmptyString || String.eqb elem "." then stack
  else if String.eqb elem ".." then
    match stack with
    | top :: rest => if String.eqb top ".." then elem :: stack else rest
    | [] => if isRooted then [] else [elem]
    end
  else elem :: stack.

Definition startsWithSep (p : string) : bool :=
  match p with String c _ => isSep c | EmptyString => false end.

Definition clean (p : string) : cpath :=
  let r := startsWithSep p in
  mkc r (rev (fold_left (cleanStep r) (splitSep p EmptyString) [])).

Definition render (c : cpath) : string :=
  if rooted c then "/" +:+ String.concat "/" (comps c)
  else match comps c with
       | [] => "."
       | _ => String.concat "/" (comps c)
       end.

(** [filepath.Clean]. *)
Definition Clean (p : string) : string := render (clean p).

(** The bytes of [s] up to and including its last separator. *)
Fixpoint throughLastSep (s : string) : string :=
  match s with
  | EmptyString => EmptyString
  | String c r =>
      match throughLastSep r with
      | EmptyString => if isSep c then String c EmptyString else EmptyString
      | t => String c t
      end
  end.

(** [filepath.Dir]. *)
Definition Dir (p : string) : string := Clean (throughLastSep p).

(** [filepath.Dir] of a cleaned path: the path without its last element. *)
Definition cdir (c : cpath) : cpath := mkc (rooted c) (removelast (comps c)).

(** [filepath.Join] of two elements. *)
Definition Join2 (a b : string) : string :=
  if String.eqb a EmptyString then
    (if String.eqb b EmptyString then EmptyString else Clean b)
  else if String.eqb b EmptyString then Clean a
  else Clean (a +:+ "/" +:+ b).

Fixpoint stripCommon (b t : list string) : list string * list string :=
  match b, t with
  | x :: b', y :: t' => if String.eqb x y then stripCommon b' t' else (b, t)
  | _, _ => (b, t)
  end.

(** [filepath.Rel]: [targpath] relative to [basepath], [None] when there is no
    such path. The pruning loop asks for it with a target that has at least
    one element. *)
Definition Rel (basepath targpath : string) : option string :=
  let b := clean basepath in
  let t := clean targpath in
  if String.eqb (render t) (render b) then Some "."%string
  else if negb (Bool.eqb (rooted b) (rooted t)) then None
  else
    let '(b', t') := stripCommon (comps b) (comps t) in
    match b' with
    | [] => Some (String.concat "/" t')
    | x :: _ =>
        if String.eqb x ".." then None
        else Some (String.concat "/" (map (fun _ => ".."%string) b' ++ t'))
    end.

(** The extension scan of [filepath.Ext], from the last byte backwards. *)
Fixpoint extAux (rs : list ascii) (acc : string) : string :=
  match rs with
  | [] => EmptyString
  | c :: r =>
      if isSep c then EmptyString
      else if Ascii.eqb c "."%char then String c acc
      else extAux r (String c acc)
  end.

(** [filepath.Ext]. *)
Definition Ext (p : string) : string :=
  extAux (rev (list_ascii_of_string p)) EmptyString.

End Path.

(* ===================================================================== *)
(** * The file system, as far as removal goes ([os.Remove])              *)
(* ===================================================================== *)

Module Fs.
Import Path.

(** A file, or a directory with the right to change its entries. *)
Inductive node : Type :=
  | File
  | Directory (writable : bool).

(** The tree: the node at every existing cleaned path. *)
Abbreviation fsys := (gmap string node).

Inductive errno : Type := ENOENT | ENOTDIR | ENOTEMPTY | EACCES.

(** Does the directory [dir] hold an entry? *)
Definition hasEntries (fs : fsys) (dir : string) : bool :=
  existsb (fun kv => negb (String.eqb (fst kv) dir) && String.eqb (Dir (fst kv)) dir)
          (map_to_list fs).

(** Is [p] an entry of a directory that is closed to changes? *)
Definition readOnlyParent (fs : fsys) (p : string) : bool :=
  match fs !! Dir p with
  | Some (Directory false) => negb (String.eqb (Dir p) p)
  | _ => false
  end.

(** Is an element of [p] before its last one a regular file? *)
Definition belowFile (fs : fsys) (p : string) : bool :=
  let c := clean p in
  existsb (fun n => match fs !! render (mkc (rooted c) (firstn n (comps c))) with
                    | Some File => true
                    | _ => false
                    end)
          (seq 1 (length (comps c) - 1)).

(** [os.Remove]: removes the named file or empty directory; the errors are
    a path that leads through a regular file, a missing path, a parent
    directory that is closed to changes, and a directory that holds
    entries. *)
Definition Remove (name : string) (fs : fsys) : errno + fsys :=
  let p := Clean name in
  if belowFile fs p then inl ENOTDIR
  else
    match fs !! p with
    | None => inl ENOENT
    | Some n =>
        if readOnlyParent fs p then inl EACCES
        else match n with
             | File => inr (delete p fs)
             | Directory _ =>
                 if hasEntries fs p then inl ENOTEMPTY else inr (delete p fs)
             end
    end.

End Fs.

(* ===================================================================== *)
(** * Package sessions: the session record and the loader                 *)
(* ===================================================================== *)

Module Sessions.
Import Str Json.

(** [Session] holds aggregated information for a single session. *)
Record Session : Type := mkSession {
  ID : string;
  CreatedAt : Time.t;
  UpdatedAt : Time.t;
  WorkingDir : string;
  LastAction : string;
  FilePaths : list string
}.

(** [Snapshot]: a copy of the session with a slice of its own; values are
    immutable here, so the copy is the session. *)
Definition Snapshot (s : Session) : Session :=
  mkSession (ID s) (CreatedAt s) (UpdatedAt s) (WorkingDir s) (LastAction s)
            (FilePaths s).

(** The errors the package builds, by the place that builds them. *)
Inductive error : Type :=
  | ErrOpen (path : string)
  | ErrRead
  | ErrLineTooLong
  | ErrDecodeEntry
  | ErrDecodeMeta
  | ErrMissingID
  | ErrParse (path : string) (cause : error)
  | ErrWalk (path : string)
  | ErrStat
  | ErrNotDirectory (root : string)
  | ErrHome
  | ErrRemove (path : string) (cause : Fs.errno).

Definition snippetLimit : nat := 160.

(** [compactSnippet]. *)
Definition compactSnippet (text : string) : string :=
  let text := TrimSpace text in
  if String.eqb text EmptyString then EmptyString else
  let text := Join (Fields text) " " in
  if (String.length text <=? snippetLimit)%nat then text
  else if (snippetLimit <=? 3)%nat then stake snippetLimit text
  else stake (snippetLimit - 3) text +:+ "...".

(** The snippet as the specification words it: trim, collapse every run of
    white space to one space, cap at 160 bytes with a 3-byte marker. *)
Definition snippetSpec (text : string) : string :=
  let t := collapse (trimRunes (runes text)) in
  if (String.length t <=? 160)%nat then t else stake 157 t +:+ "...".

Record logEntry : Type := mkLogEntry {
  Timestamp : string;
  Type_ : string;
  Payload : option json
}.

Record sessionMetaPayload : Type := mkSessionMeta {
  metaID : string;
  metaTimestamp : string;
  metaCWD : string
}.

Record messageContent : Type := mkContent {
  contentType : string;
  contentText : string
}.

Record responseItemError : Type := mkItemError { errMessage : string }.

(** [responseItemPayload]; the fields that no code reads ([call_id],
    [metadata], [result], [status], [alt_text], [media], [parts], [kind],
    [data], [encrypted_content]) are decoded for their kind only. *)
Record responseItemPayload : Type := mkItem {
  itemType : string;
  itemRole : string;
  itemContent : list messageContent;
  itemName : string;
  itemArguments : string;
  itemOutput : string;
  itemSummary : list messageContent;
  itemError : option responseItemError;
  itemTitle : string
}.

(** [eventMsgPayload]; [kind], [status], [data] and [detail] are decoded for
    their kind only. *)
Record eventMsgPayload : Type := mkEvent {
  eventType : string;
  eventMessage : string;
  eventText : string
}.

Record shellCall : Type := mkShell { shellCommand : list string; shellWorkdir : string }.

Record callOutput : Type := mkOutput {
  outOutput : string;
  outExitCode : option Z;
  outError : string
}.

(** ** The decoders of the struct types *)

(** A field that is decoded and then never read: only the error counts. *)
Definition check {A B : Type} (r : option A) (keep : B) : option B :=
  match r with Some _ => Some keep | None => None end.

Definition setLogEntry (k : string) (v : json) (e : logEntry) : option logEntry :=
  if keyIs "timestamp" k then
    match intoString v (Timestamp e) with
    | Some x => Some (mkLogEntry x (Type_ e) (Payload e)) | None => None end
  else if keyIs "type" k then
    match intoString v (Type_ e) with
    | Some x => Some (mkLogEntry (Timestamp e) x (Payload e)) | None => None end
  else if keyIs "payload" k then
    match intoRaw v (Payload e) with
    | Some x => Some (mkLogEntry (Timestamp e) (Type_ e) x) | None => None end
  else Some e.

Definition zeroLogEntry : logEntry := mkLogEntry EmptyString EmptyString None.

Definition setSessionMeta (k : string) (v : json) (p : sessionMetaPayload)
    : option sessionMetaPayload :=
  if keyIs "id" k then
    match intoString v (metaID p) with
    | Some x => Some (mkSessionMeta x (metaTimestamp p) (metaCWD p)) | None => None end
  else if keyIs "timestamp" k then
    match intoString v (metaTimestamp p) with
    | Some x => Some (mkSessionMeta (metaID p) x (metaCWD p)) | None => None end
  else if keyIs "cwd" k then
    match intoString v (metaCWD p) with
    | Some x => Some (mkSessionMeta (metaID p) (metaTimestamp p) x) | None => None end
  else Some p.

Definition zeroSessionMeta : sessionMetaPayload :=
  mkSessionMeta EmptyString EmptyString EmptyString.

Definition setContent (k : string) (v : json) (c : messageContent)
    : option messageContent :=
  if keyIs "type" k then
    match intoString v (contentType c) with
    | Some x => Some (mkContent x (contentText c)) | None => None end
  else if keyIs "text" k then
    match intoString v (contentText c) with
    | Some x => Some (mkContent (contentType c) x) | None => None end
  else Some c.

Definition zeroContent : messageContent := mkContent EmptyString EmptyString.

Definition intoContents (v : json) (old : list messageContent)
    : option (list messageContent) :=
  intoSlice (intoStruct setContent) zeroContent v old.

Definition setItemError (k : string) (v : json) (e : responseItemError)
    : option responseItemError :=
  if keyIs "message" k then
    match intoString v (errMessage e) with
    | Some x => Some (mkItemError x) | None => None end
  else Some e.

Definition setItem (k : string) (v : json) (p : responseItemPayload)
    : option responseItemPayload :=
  let '(mkItem ty role content name args output summary err title) := p in
  if keyIs "type" k then
    match intoString v ty with
    | Some x => Some (mkItem x role content name args output summary err title)
    | None => None end
  else if keyIs "role" k then
    match intoString v role with
    | Some x => Some (mkItem ty x content name args output summary err title)
    | None => None end
  else if keyIs "content" k then
    match intoContents v content with
    | Some x => Some (mkItem ty role x name args output summary err title)
    | None => None end
  else if keyIs "name" k then
    match intoString v name with
    | Some x => Some (mkItem ty role content x args output summary err title)
    | None => None end
  else if keyIs "arguments" k then
    match intoString v args with
    | Some x => Some (mkItem ty role content name x output summary err title)
    | None => None end
  else if keyIs "output" k then
    match intoString v output with
    | Some x => Some (mkItem ty role content name args x summary err title)
    | None => None end
  else if keyIs "summary" k then
    match intoContents v summary with
    | Some x => Some (mkItem ty role content name args output x err title)
    | None => None end
  else if keyIs "error" k then
    match intoPtr (intoStruct setItemError) (mkItemError EmptyString) v err with
    | Some x => Some (mkItem ty role content name args output summary x title)
    | None => None end
  else if keyIs "title" k then
    match intoString v title with
    | Some x => Some (mkItem ty role content name args output summary err x)
    | None => None end
  else if keyIs "call_id" k || keyIs "status" k || keyIs "alt_text" k
          || keyIs "kind" k then
    check (intoString v EmptyString) p
  else if keyIs "media" k || keyIs "parts" k then
    check (intoSlice (fun x (_ : unit) => Some tt) tt v []) p
  else Some p.

Definition zeroItem : responseItemPayload :=
  mkItem EmptyString EmptyString [] EmptyString EmptyString EmptyString []
         None EmptyString.

Definition setEvent (k : string) (v : json) (p : eventMsgPayload)
    : option eventMsgPayload :=
  if keyIs "type" k then
    match intoString v (eventType p) with
    | Some x => Some (mkEvent x (eventMessage p) (eventText p)) | None => None end
  else if keyIs "message" k then
    match intoString v (eventMessage p) with
    | Some x => Some (mkEvent (eventType p) x (eventText p)) | None => None end
  else if keyIs "text" k then
    match intoString v (eventText p) with
    | Some x => Some (mkEvent (eventType p) (eventMessage p) x) | None => None end
  else if keyIs "kind" k || keyIs "status" k then
    check (intoString v EmptyString) p
  else Some p.

Definition zeroEvent : eventMsgPayload := mkEvent EmptyString EmptyString EmptyString.

Definition setShell (k : string) (v : json) (c : shellCall) : option shellCall :=
  if keyIs "command" k then
    match intoSlice intoString EmptyString v (shellCommand c) with
    | Some x => Some (mkShell x (shellWorkdir c)) | None => None end
  else if keyIs "workdir" k then
    match intoString v (shellWorkdir c) with
    | Some x => Some (mkShell (shellCommand c) x) | None => None end
  else Some c.

Definition setExitCode (k : string) (v : json) (c : option Z) : option (option Z) :=
  if keyIs "exit_code" k then intoPtr intoInt 0 v c else Some c.

Definition setOutput (k : string) (v : json) (o : callOutput) : option callOutput :=
  if keyIs "output" k then
    match intoString v (outOutput o) with
    | Some x => Some (mkOutput x (outExitCode o) (outError o)) | None => None end
  else if keyIs "metadata" k then
    match intoStruct setExitCode v (outExitCode o) with
    | Some x => Some (mkOutput (outOutput o) x (outError o)) | None => None end
  else if keyIs "error" k then
    match intoString v (outError o) with
    | Some x => Some (mkOutput (outOutput o) (outExitCode o) x) | None => None end
  else Some o.

(** ** The loader *)

Section Loader.

(** [encoding/json] on a JSON text held in a string field ([None]: not valid
    JSON), and [time.Parse] by layout. *)
Variable jsonText : string -> option json.
Variable timeParse : string -> string -> option Time.t.

Definition RFC3339 : string := "2006-01-02T15:04:05Z07:00".
Definition RFC3339Nano : string := "2006-01-02T15:04:05.999999999Z07:00".

(** [parseTimestamp]; [None] stands for the error result. *)
Definition parseTimestamp (value : string) : option Time.t :=
  if String.eqb value EmptyString then None
  else match timeParse RFC3339Nano value with
       | Some t => Some t
       | None => match timeParse RFC3339 value with
                 | Some t => Some t
                 | None => None
                 end
       end.

(** [%d] of [fmt.Sprintf]. *)
Definition decimal (z : Z) : string := NilZero.string_of_int (Z.to_int z).

(** [firstNonEmptyText]. *)
Fixpoint firstNonEmptyText (items : list messageContent) : string :=
  match items with
  | [] => EmptyString
  | item :: rest =>
      if negb (String.eqb (TrimSpace (contentText item)) EmptyString)
      then contentText item
      else firstNonEmptyText rest
  end.

(** [describeFunctionArguments]. *)
Definition describeFunctionArguments (name argsJSON : string) : string :=
  if String.eqb argsJSON EmptyString then EmptyString
  else if String.eqb name "shell" then
    match Unmarshal (intoStruct setShell) (mkShell [] EmptyString) (jsonText argsJSON) with
    | None => EmptyString
    | Some call =>
        match shellCommand call with
        | [] => EmptyString
        | _ => compactSnippet (Join (shellCommand call) " ")
        end
    end
  else EmptyString.

(** [describeFunctionOutput]. *)
Definition describeFunctionOutput (payload : responseItemPayload) : string :=
  let name := itemName payload in
  if String.eqb (itemOutput payload) EmptyString then
    match itemError payload with
    | Some e =>
        if negb (String.eqb (errMessage e) EmptyString)
        then "call " +:+ name +:+ " error: " +:+ compactSnippet (errMessage e)
        else "call " +:+ name +:+ " completed"
    | None => "call " +:+ name +:+ " completed"
    end
  else
    match Unmarshal (intoStruct setOutput) (mkOutput EmptyString None EmptyString)
                    (jsonText (itemOutput payload)) with
    | None => "call " +:+ name +:+ " output"
    | Some out =>
        if negb (String.eqb (outError out) EmptyString) then
          "call " +:+ name +:+ " error: " +:+ compactSnippet (outError out)
        else match outExitCode out with
             | Some code =>
                 let snippet := compactSnippet (outOutput out) in
                 if negb (String.eqb snippet EmptyString)
                 then "call " +:+ name +:+ " exit " +:+ decimal code +:+ ": " +:+ snippet
                 else "call " +:+ name +:+ " exit " +:+ decimal code
             | None =>
                 if String.eqb (outOutput out) EmptyString
                 then "call " +:+ name +:+ " completed"
                 else "call " +:+ name +:+ ": " +:+ compactSnippet (outOutput out)
             end
    end.

(** [describeResponseItem]. *)
Definition describeResponseItem (raw : option json) : string :=
  match Unmarshal (intoStruct setItem) zeroItem raw with
  | None => EmptyString
  | Some payload =>
      if String.eqb (itemType payload) "message" then
        let text := firstNonEmptyText (itemContent payload) in
        let text := if String.eqb text EmptyString
                    then firstNonEmptyText (itemSummary payload) else text in
        let text := if String.eqb text EmptyString
                       && negb (String.eqb (itemTitle payload) EmptyString)
                    then itemTitle payload else text in
        if String.eqb text EmptyString then EmptyString
        else
          let prefix := TrimSpace (itemRole payload) in
          if negb (String.eqb prefix EmptyString)
          then prefix +:+ ": " +:+ compactSnippet text
          else compactSnippet text
      else if String.eqb (itemType payload) "reasoning" then
        let text := firstNonEmptyText (itemSummary payload) in
        let text := if String.eqb text EmptyString
                    then firstNonEmptyText (itemContent payload) else text in
        if String.eqb text EmptyString then EmptyString
        else "reasoning: " +:+ compactSnippet text
      else if String.eqb (itemType payload) "function_call" then
        let desc := "call " +:+ itemName payload in
        let args := describeFunctionArguments (itemName payload) (itemArguments payload) in
        if negb (String.eqb args EmptyString) then desc +:+ " " +:+ args else desc
      else if String.eqb (itemType payload) "function_call_output" then
        describeFunctionOutput payload
      else if negb (String.eqb (itemTitle payload) EmptyString)
      then compactSnippet (itemTitle payload)
      else EmptyString
  end.

(** [describeEventMessage]. The cases for [tool_progress] and
    [command_output] without a message leave the switch and reach the code
    behind it, like every type that has no case. *)
Definition describeEventMessage (raw : option json) : string :=
  match Unmarshal (intoStruct setEvent) zeroEvent raw with
  | None => EmptyString
  | Some payload =>
      let ty := eventType payload in
      let fallback :=
        if negb (String.eqb (eventMessage payload) EmptyString)
        then ty +:+ ": " +:+ compactSnippet (eventMessage payload)
        else ty in
      if String.eqb ty "user_message" || String.eqb ty "assistant_message"
         || String.eqb ty "system_message" then
        let text := eventMessage payload in
        let text := if String.eqb text EmptyString then eventText payload else text in
        if String.eqb text EmptyString then EmptyString
        else ty +:+ ": " +:+ compactSnippet text
      else if String.eqb ty "tool_progress" then
        if negb (String.eqb (eventMessage payload) EmptyString)
        then "tool progress: " +:+ compactSnippet (eventMessage payload)
        else fallback
      else if String.eqb ty "token_count" then "token usage updated"
      else if String.eqb ty "command_output" then
        if negb (String.eqb (eventMessage payload) EmptyString)
        then "command output: " +:+ compactSnippet (eventMessage payload)
        else fallback
      else fallback
  end.

(** [describeEntry]. *)
Definition describeEntry (entry : logEntry) : string :=
  if String.eqb (Type_ entry) "response_item" then describeResponseItem (Payload entry)
  else if String.eqb (Type_ entry) "event_msg" then describeEventMessage (Payload entry)
  else EmptyString.

(** ** Parsing one file *)

(** What a call of [ReadBytes] returns besides the bytes. *)
Inductive readErr : Type := RNil | REOF | RBufferFull | ROther.

(** The bytes of a line once the trailing CR and LF bytes are trimmed: none
    left, or a text with what [encoding/json] reads from it ([None]: not valid
    JSON). *)
Inductive lineBytes : Type :=
  | Blank
  | Text (doc : option json).

(** A file: one that cannot be opened, or the results of the successive calls
    of [ReadBytes]. A real reader ends them with an end of file or an error;
    a list that stops short is read as ending with an empty line and the end
    of file. *)
Inductive file : Type :=
  | Unreadable
  | Reads (rs : list (lineBytes * readErr)).

(** The variables of the loop of [parseSessionFile]. *)
Record pstate : Type := mkPstate {
  session : Session;
  createdSet : bool;
  lastTS : Time.t
}.

Definition isEOF (e : readErr) : bool :=
  match e with REOF => true | _ => false end.

(** The body of the loop for a decoded entry. *)
Definition processEntry (st : pstate) (entry : logEntry) : error + pstate :=
  let ts := match parseTimestamp (Timestamp entry) with
            | Some t => t
            | None => Time.zero
            end in
  let afterSwitch : error + pstate :=
    if String.eqb (Type_ entry) "session_meta" then
      match Unmarshal (intoStruct setSessionMeta) zeroSessionMeta (Payload entry) with
      | None => inl ErrDecodeMeta
      | Some payload =>
          let s := session st in
          let s1 := mkSession (metaID payload) (CreatedAt s) (UpdatedAt s)
                              (metaCWD payload) (LastAction s) (FilePaths s) in
          match parseTimestamp (metaTimestamp payload) with
          | Some pTs =>
              inr (mkPstate (mkSession (ID s1) pTs (UpdatedAt s1) (WorkingDir s1)
                                       (LastAction s1) (FilePaths s1))
                            true (lastTS st))
          | None => inr (mkPstate s1 (createdSet st) (lastTS st))
          end
      end
    else inr st in
  match afterSwitch with
  | inl e => inl e
  | inr st1 =>
      if Time.After ts (lastTS st1) || Time.IsZero (lastTS st1) then
        let s := session st1 in
        let desc := describeEntry entry in
        let action :=
          if negb (String.eqb desc EmptyString) then desc
          else if String.eqb (Type_ entry) "session_meta"
                  && String.eqb (LastAction s) EmptyString
          then "session started"%string
          else LastAction s in
        inr (mkPstate (mkSession (ID s) (CreatedAt s) (UpdatedAt s) (WorkingDir s)
                                 action (FilePaths s))
                      (createdSet st1) ts)
      else inr st1
  end.

(** The loop of [parseSessionFile] over the reads. *)
Fixpoint scan (rs : list (lineBytes * readErr)) (st : pstate) : error + pstate :=
  match rs with
  | [] => inr st
  | (line, err) :: rest =>
      match err with
      | RBufferFull => inl ErrLineTooLong
      | ROther => inl ErrRead
      | _ =>
          match line with
          | Blank => if isEOF err then inr st else scan rest st
          | Text doc =>
              match Unmarshal (intoStruct setLogEntry) zeroLogEntry doc with
              | None => inl ErrDecodeEntry
              | Some entry =>
                  match processEntry st entry with
                  | inl e => inl e
                  | inr st' => if isEOF err then inr st' else scan rest st'
                  end
              end
          end
      end
  end.

Definition initState (path : string) : pstate :=
  mkPstate (mkSession EmptyString Time.zero Time.zero EmptyString EmptyString [path])
           false Time.zero.

(** [parseSessionFile]. *)
Definition parseSessionFile (path : string) (f : file) : error + Session :=
  match f with
  | Unreadable => inl (ErrOpen path)
  | Reads rs =>
      match scan rs (initState path) with
      | inl e => inl e
      | inr st =>
          let s := session st in
          if String.eqb (ID s) EmptyString then inl ErrMissingID
          else
            let updated := lastTS st in
            let created := if negb (createdSet st) || Time.IsZero (CreatedAt s)
                           then updated else CreatedAt s in
            inr (mkSession (ID s) created updated (WorkingDir s) (LastAction s)
                           (FilePaths s))
      end
  end.

(** ** The entries of a file, for the statements about the parser *)

(** The entries the loop decodes, in their order, up to the end of the
    file. *)
Fixpoint entriesRead (rs : list (lineBytes * readErr)) : list logEntry :=
  match rs with
  | [] => []
  | (line, err) :: rest =>
      match line with
      | Text doc =>
          match Unmarshal (intoStruct setLogEntry) zeroLogEntry doc with
          | Some entry => [entry]
          | None => []
          end
      | Blank => []
      end ++ (if isEOF err then [] else entriesRead rest)
  end.

(** The time the loop takes for an entry: the zero time when its timestamp
    does not parse. *)
Definition entryTime (e : logEntry) : Time.t :=
  match parseTimestamp (Timestamp e) with
  | Some t => t
  | None => Time.zero
  end.

(** The latest instant of a list of times; the instant of the zero time for
    the empty list. *)
Definition latest (ts : list Time.t) : Z :=
  fold_right (fun t acc => Z.max (Time.instant t) acc) 0 ts.

(** The entries with a description that is not empty. *)
Definition described (es : list logEntry) : list logEntry :=
  filter (fun e => negb (String.eqb (describeEntry e) EmptyString)) es.

(** [UpdatedAt] as the specification states it: the latest time among the
    entries with a description. *)
Definition updatedAt_of_described (rs : list (lineBytes * readErr)) : Z :=
  latest (map entryTime (described (entriesRead rs))).

(** The payload of a [session_meta] entry. *)
Definition metaOf (e : logEntry) : option sessionMetaPayload :=
  if String.eqb (Type_ e) "session_meta"
  then Unmarshal (intoStruct setSessionMeta) zeroSessionMeta (Payload e)
  else None.

(** The [session_meta] payloads of a file, in their order. *)
Definition metasRead (rs : list (lineBytes * readErr)) : list sessionMetaPayload :=
  omap metaOf (entriesRead rs).

(** The metadata timestamps of a file that parse, in their order. *)
Definition seedsRead (rs : list (lineBytes * readErr)) : list Time.t :=
  omap (fun p => parseTimestamp (metaTimestamp p)) (metasRead rs).

(** The runs of the loop that end without an error, as a relation between
    the reads, the state before and the state after. *)
Inductive runs_to : list (lineBytes * readErr) -> pstate -> pstate -> Prop :=
  | run_end st : runs_to [] st st
  | run_blank_eof rest st : runs_to ((Blank, REOF) :: rest) st st
  | run_blank rest st st' :
      runs_to rest st st' -> runs_to ((Blank, RNil) :: rest) st st'
  | run_text_eof doc entry rest st st1 :
      Unmarshal (intoStruct setLogEntry) zeroLogEntry doc = Some entry ->
      processEntry st entry = inr st1 ->
      runs_to ((Text doc, REOF) :: rest) st st1
  | run_text doc entry rest st st1 st' :
      Unmarshal (intoStruct setLogEntry) zeroLogEntry doc = Some entry ->
      processEntry st entry = inr st1 ->
      runs_to rest st1 st' ->
      runs_to ((Text doc, RNil) :: rest) st st'.

(** ** Aggregation *)

(** [contains]. *)
Fixpoint contains (list : list string) (value : string) : bool :=
  match list with
  | [] => false
  | v :: rest => if String.eqb v value then true else contains rest value
  end.

(** The loop that unions the paths of a fragment into the record. *)
Definition addPaths (existing paths : list string) : list string :=
  fold_left (fun acc fp => if contains acc fp then acc else acc ++ [fp]) paths existing.

(** The merge of a fragment [new] into the record [existing] of its
    identifier. *)
Definition merge (existing new : Session) : Session :=
  let created :=
    if Time.Before (CreatedAt new) (CreatedAt existing) || Time.IsZero (CreatedAt existing)
    then CreatedAt new else CreatedAt existing in
  let paths := addPaths (FilePaths existing) (FilePaths new) in
  if Time.After (UpdatedAt new) (UpdatedAt existing) then
    mkSession (ID existing) created (UpdatedAt new)
              (if negb (String.eqb (WorkingDir new) EmptyString)
               then WorkingDir new else WorkingDir existing)
              (LastAction new) paths
  else if String.eqb (WorkingDir existing) EmptyString
          && negb (String.eqb (WorkingDir new) EmptyString) then
    mkSession (ID existing) created (UpdatedAt existing) (WorkingDir new)
              (LastAction existing) paths
  else
    mkSession (ID existing) created (UpdatedAt existing) (WorkingDir existing)
              (LastAction existing) paths.

(** What the walk reports at a path. *)
Inductive visit : Type :=
  | WalkErr (path : string)
  | VisitDir (path : string)
  | VisitFile (path : string) (f : file).

(** The two variables the callback of the walk updates. *)
Record walkState : Type := mkWalk {
  byID : gmap string Session;
  combinedErr : list error
}.

(** The callback of [filepath.WalkDir]; it never stops the walk. *)
Definition visitStep (st : walkState) (v : visit) : walkState :=
  match v with
  | WalkErr path => mkWalk (byID st) (combinedErr st ++ [ErrWalk path])
  | VisitDir _ => st
  | VisitFile path f =>
      if negb (String.eqb (Path.Ext path) ".jsonl") then st
      else match parseSessionFile path f with
           | inl e => mkWalk (byID st) (combinedErr st ++ [ErrParse path e])
           | inr s =>
               match byID st !! ID s with
               | None => mkWalk (<[ID s := Snapshot s]> (byID st)) (combinedErr st)
               | Some existing =>
                   mkWalk (<[ID s := merge existing s]> (byID st)) (combinedErr st)
               end
           end
  end.

(** [sort.Strings]. *)
Definition sortStrings (l : list string) : list string := merge_sort String.le l.

(** The order [sort.Slice] is asked for: no session before one that was
    updated later. *)
Definition newestFirst (a b : Session) : Prop :=
  Time.instant (UpdatedAt b) <= Time.instant (UpdatedAt a).

#[export] Instance newestFirst_dec : RelDecision newestFirst.
Proof. intros a b. unfold newestFirst. apply _. Defined.

Definition sortPaths (s : Session) : Session :=
  mkSession (ID s) (CreatedAt s) (UpdatedAt s) (WorkingDir s) (LastAction s)
            (sortStrings (FilePaths s)).

(** The end of [Load]: the records of the map with their paths sorted, sorted
    by update time. Go leaves the order of sessions with equal update times
    open (map iteration, an unstable sort); the model fixes one. *)
Definition finish (m : gmap string Session) : list Session :=
  merge_sort newestFirst (map (fun kv => sortPaths (snd kv)) (map_to_list m)).

(** What [os.Stat] says about the root. *)
Inductive statResult : Type := StatNotExist | StatFails | StatIsFile | StatIsDir.

(** The machine around [Load]: the home directory, [os.Stat], and the visits
    of [filepath.WalkDir] in their order. *)
Record world : Type := mkWorld {
  home : option string;
  stat : string -> statResult;
  walk : string -> list visit
}.

Definition defaultRelativeSessionsDir : string := ".codex/sessions".

(** [ResolveDir]. *)
Definition ResolveDir (w : world) (dir : string) : error + string :=
  if negb (String.eqb dir EmptyString) then inr (Path.Clean dir)
  else match home w with
       | None => inl ErrHome
       | Some h => inr (Path.Join2 h defaultRelativeSessionsDir)
       end.

(** The two results of [Load]: a fatal error, or the sessions with the
    combined error of the files that failed (no error: the empty list). *)
Inductive loadResult : Type :=
  | Fatal (e : error)
  | Loaded (sessions : list Session) (combined : list error).

Definition walkAll (vs : list visit) : walkState :=
  fold_left visitStep vs (mkWalk ∅ []).

(** [Load]. *)
Definition Load (w : world) (sessionsDir : string) : loadResult :=
  match ResolveDir w sessionsDir with
  | inl e => Fatal e
  | inr root =>
      match stat w root with
      | StatNotExist => Loaded [] []
      | StatFails => Fatal ErrStat
      | StatIsFile => Fatal (ErrNotDirectory root)
      | StatIsDir =>
          let st := walkAll (walk w root) in
          Loaded (finish (byID st)) (combinedErr st)
      end
  end.

End Loader.

(** ** Deletion *)

(** The loop of [cleanupParentDirectories]; [dir] is the cleaned path with the
    elements [rcomps], last one first, and [filepath.Dir] removes the last.
    The loop ends when no element is left: [dir] is ["."] or ["/"]. *)
Fixpoint cleanupLoop (isRooted : bool) (rcomps : list string) (stop : string)
    (fs : Fs.fsys) : Fs.fsys :=
  match rcomps with
  | [] => fs
  | _ :: parent =>
      let dir := Path.render (Path.mkc isRooted (rev rcomps)) in
      let outside :=
        if negb (String.eqb stop EmptyString) then
          match Path.Rel stop dir with
          | None => true
          | Some rel => HasPrefix rel ".."
          end
        else false in
      if outside then fs
      else match Fs.Remove dir fs with
           | inl _ => fs
           | inr fs' =>
               if String.eqb dir stop then fs'
               else cleanupLoop isRooted parent stop fs'
           end
  end.

(** [cleanupParentDirectories]. *)
Definition cleanupParentDirectories (start stop : string) (fs : Fs.fsys) : Fs.fsys :=
  let stop := Path.Clean stop in
  let c := Path.clean start in
  cleanupLoop (Path.rooted c) (rev (Path.comps c)) stop fs.

(** [DeleteFiles]: the tree afterwards and the combined error. *)
Definition DeleteFiles (sess : Session) (sessionsRoot : string) (fs : Fs.fsys)
    : Fs.fsys * list error :=
  let sessionsRoot :=
    if negb (String.eqb sessionsRoot EmptyString) then Path.Clean sessionsRoot
    else sessionsRoot in
  fold_left
    (fun acc path =>
       let '(fs, combined) := acc in
       match Fs.Remove path fs with
       | inl Fs.ENOENT =>
           (cleanupParentDirectories (Path.Dir path) sessionsRoot fs, combined)
       | inl e => (fs, combined ++ [ErrRemove path e])
       | inr fs' =>
           (cleanupParentDirectories (Path.Dir path) sessionsRoot fs', combined)
       end)
    (FilePaths sess) (fs, []).

End Sessions.

(* ===================================================================== *)
(** * A reading of RFC 3339 timestamps                                    *)
(* ===================================================================== *)

(** The examples below need [time.Parse] on concrete timestamps. This module
    reads the usual form, [YYYY-MM-DDThh:mm:ss], an optional fraction of a
    second, and [Z] or an offset [+hh:mm] or [-hh:mm]; both layouts of
    [parseTimestamp] accept exactly these. The theorems do not depend on it. *)
Module Rfc3339.

Definition digit (c : ascii) : option Z :=
  let n := N_of_ascii c in
  if ((48 <=? n) && (n <=? 57))%N then Some (Z.of_N n - 48) else None.

Fixpoint number (cs : list ascii) (acc : Z) : option Z :=
  match cs with
  | [] => Some acc
  | c :: r => match digit c with
              | Some d => number r (10 * acc + d)
              | None => None
              end
  end.

Definition isLeap (y : Z) : bool :=
  (y mod 4 =? 0) && (negb (y mod 100 =? 0) || (y mod 400 =? 0)).

Definition daysIn (y m : Z) : Z :=
  if m =? 2 then (if isLeap y then 29 else 28)
  else if (m =? 4) || (m =? 6) || (m =? 9) || (m =? 11) then 30 else 31.

(** Days of the year [y] before the first of month [m]. *)
Definition daysBefore (y m : Z) : Z :=
  fold_right Z.add 0 (map (daysIn y) (map Z.of_nat (seq 1 (Z.to_nat (m - 1))))).

(** Days from January 1 of year 1 to the given date. *)
Definition daysSinceZero (y m d : Z) : Z :=
  365 * (y - 1) + (y - 1) / 4 - (y - 1) / 100 + (y - 1) / 400
  + daysBefore y m + (d - 1).

(** The fraction of a second, in nanoseconds, and what follows it. *)
Fixpoint fraction (cs : list ascii) (scale : Z) (acc : Z) : Z * list ascii :=
  match cs with
  | c :: r => match digit c with
              | Some d => fraction r (scale / 10) (acc + d * scale)
              | None => (acc, cs)
              end
  | [] => (acc, cs)
  end.

(** The zone: the offset in seconds. *)
Definition zoneOf (cs : list ascii) : option Z :=
  match cs with
  | ["Z"%char] => Some 0
  | sign :: h1 :: h2 :: ":"%char :: m1 :: m2 :: [] =>
      match number [h1; h2] 0, number [m1; m2] 0 with
      | Some h, Some m =>
          if (h <? 24) && (m <? 60) then
            if Ascii.eqb sign "+"%char then Some (h * 3600 + m * 60)
            else if Ascii.eqb sign "-"%char then Some (- (h * 3600 + m * 60))
            else None
          else None
      | _, _ => None
      end
  | _ => None
  end.

Definition parse (value : string) : option Time.t :=
  match list_ascii_of_string value with
  | y1 :: y2 :: y3 :: y4 :: "-"%char :: m1 :: m2 :: "-"%char :: d1 :: d2 :: "T"%char
    :: h1 :: h2 :: ":"%char :: i1 :: i2 :: ":"%char :: s1 :: s2 :: rest =>
      match number [y1; y2; y3; y4] 0, number [m1; m2] 0, number [d1; d2] 0,
            number [h1; h2] 0, number [i1; i2] 0, number [s1; s2] 0 with
      | Some y, Some m, Some d, Some h, Some i, Some sec =>
          let '(nanos, rest') :=
            match rest with
            | "."%char :: (c :: _) as digits =>
                match digit c with
                | Some _ => fraction digits 100000000 0
                | None => (0, rest)
                end
            | _ => (0, rest)
            end in
          match zoneOf rest' with
          | Some off =>
              if (1 <=? m) && (m <=? 12) && (1 <=? d) && (d <=? daysIn y m)
                 && (h <? 24) && (i <? 60) && (sec <? 60)
              then Some (Time.mk
                           (((daysSinceZero y m d * 86400 + h * 3600 + i * 60 + sec)
                             - off) * 1000000000 + nanos)
                           off)
              else None
          | None => None
          end
      | _, _, _, _, _, _ => None
      end
  | _ => None
  end.

(** [time.Parse] for the two layouts of the loader. *)
Definition timeParse (layout value : string) : option Time.t := parse value.

(** The date of a day counted from January 1 of year 1: year, month, day. *)
Definition dateOfDay (days : Z) : Z * Z * Z :=
  let z := days + 306 in
  let era := z / 146097 in
  let doe := z - era * 146097 in
  let yoe := (doe - doe / 1460 + doe / 36524 - doe / 146096) / 365 in
  let doy := doe - (365 * yoe + yoe / 4 - yoe / 100) in
  let mp := (5 * doy + 2) / 153 in
  let d := doy - (153 * mp + 2) / 5 + 1 in
  let m := if mp <? 10 then mp + 3 else mp - 9 in
  let y := yoe + era * 400 + (if m <=? 2 then 1 else 0) in
  (y, m, d).

Definition decimal (z : Z) : string := NilZero.string_of_int (Z.to_int z).

(** [z] in decimal with at least [width] digits, for [0 <= z]. *)
Definition padded (width : nat) (z : Z) : string :=
  let digits := decimal z in
  Str.sdrop (String.length digits) (string_of_list_ascii (repeat "0"%char width))
  +:+ digits.

(** [t.Format(time.RFC3339)], for the years 1 to 9999. *)
Definition format (t : Time.t) : string :=
  let secs := Time.instant t / 1000000000 + Time.zone t in
  let '(y, m, d) := dateOfDay (secs / 86400) in
  let s := secs mod 86400 in
  let off := Z.abs (Time.zone t) in
  padded 4 y +:+ "-" +:+ padded 2 m +:+ "-" +:+ padded 2 d +:+ "T"
  +:+ padded 2 (s / 3600) +:+ ":" +:+ padded 2 (s mod 3600 / 60) +:+ ":"
  +:+ padded 2 (s mod 60)
  +:+ (if Time.zone t =? 0 then "Z"%string
       else (if Time.zone t <? 0 then "-" else "+")
            +:+ padded 2 (off / 3600) +:+ ":" +:+ padded 2 (off mod 3600 / 60)).

End Rfc3339.

(* ===================================================================== *)
(** * Runes and UTF-8                                                     *)
(* ===================================================================== *)

Module Utf8.

Definition RuneError : Z := 0xFFFD.

Definition chr (z : Z) : ascii := ascii_of_N (Z.to_N z).
Definition ord (c : ascii) : Z := Z.of_N (N_of_ascii c).

(** [string(r)]: the UTF-8 encoding of a rune, of U+FFFD for a value that is
    no valid rune. *)
Definition encodeRune (r : Z) : string :=
  let r := if (r <? 0) || (0x10FFFF <? r) || ((0xD800 <=? r) && (r <=? 0xDFFF))
           then RuneError else r in
  if r <? 0x80 then String (chr r) EmptyString
  else if r <? 0x800 then
    String (chr (0xC0 + r / 64)) (String (chr (0x80 + r mod 64)) EmptyString)
  else if r <? 0x10000 then
    String (chr (0xE0 + r / 4096))
      (String (chr (0x80 + (r / 64) mod 64)) (String (chr (0x80 + r mod 64)) EmptyString))
  else
    String (chr (0xF0 + r / 262144))
      (String (chr (0x80 + (r / 4096) mod 64))
         (String (chr (0x80 + (r / 64) mod 64))
            (String (chr (0x80 + r mod 64)) EmptyString))).

Definition cont (c : ascii) : bool := (0x80 <=? ord c) && (ord c <=? 0xBF).

(** Is [b] a second byte that may follow the first byte [a] of a sequence of
    three or four bytes? *)
Definition second (a b : ascii) : bool :=
  let lo := if ord a =? 0xE0 then 0xA0 else if ord a =? 0xF0 then 0x90 else 0x80 in
  let hi := if ord a =? 0xED then 0x9F else if ord a =? 0xF4 then 0x8F else 0xBF in
  (lo <=? ord b) && (ord b <=? hi).

(** [[]rune(s)]: the runes of a string, one U+FFFD for every byte that starts
    no valid encoding. *)
Fixpoint decode (s : string) : list Z :=
  match s with
  | EmptyString => []
  | String a r1 =>
      if ord a <? 0x80 then ord a :: decode r1 else
      match r1 with
      | EmptyString => RuneError :: decode r1
      | String b r2 =>
          if (0xC2 <=? ord a) && (ord a <=? 0xDF) && cont b
          then ((ord a - 0xC0) * 64 + (ord b - 0x80)) :: decode r2 else
          match r2 with
          | EmptyString => RuneError :: decode r1
          | String c r3 =>
              if (0xE0 <=? ord a) && (ord a <=? 0xEF) && second a b && cont c
              then ((ord a - 0xE0) * 4096 + (ord b - 0x80) * 64 + (ord c - 0x80))
                   :: decode r3 else
              match r3 with
              | EmptyString => RuneError :: decode r1
              | String d r4 =>
                  if (0xF0 <=? ord a) && (ord a <=? 0xF4) && second a b
                     && cont c && cont d
                  then ((ord a - 0xF0) * 262144 + (ord b - 0x80) * 4096
                        + (ord c - 0x80) * 64 + (ord d - 0x80)) :: decode r4
                  else RuneError :: decode r1
              end
          end
      end
  end.

(** [string(runes)]. *)
Definition encode (rs : list Z) : string :=
  fold_right (fun r acc => encodeRune r +:+ acc) EmptyString rs.

(** [unicode.IsControl]. *)
Definition IsControl (r : Z) : bool :=
  (0 <=? r) && (r <=? 0x1F) || (0x7F <=? r) && (r <=? 0x9F).

End Utf8.

(* ===================================================================== *)
(** * Package ui: the selection model                                     *)
(* ===================================================================== *)

Module Ui.
Import Str Sessions.

Record row : Type := mkRow { rowSession : Session; searchKey : string }.

(** The fields of [model] that hold state; the views are a sink. *)
Record model : Type := mkModel {
  entries : list row;
  filtered : list nat;
  selected : Z;
  pageSize : Z;
  query : string;
  status : string;
  sessionsRoot : string;
  resumeID : string
}.

(** A [fuzzy.Rank]. *)
Record Rank : Type := mkRank {
  Source : string;
  Target : string;
  Distance : Z;
  OriginalIndex : nat
}.

(** The keys [handleEvent] tells apart. *)
Inductive key : Type :=
  | KeyRune (r : Z)
  | KeyBackspace
  | KeyEsc
  | KeyEnter
  | KeyDelete
  | KeyPgDn
  | KeyPgUp
  | KeyCtrlC
  | KeyOther.

(** What [handleEvent] leaves behind: the application runs on or was
    stopped. *)
Inductive signal : Type := Running | Stopped.

(** An [int] of 64 bits after an addition or a negation. *)
Definition wrap (z : Z) : Z := (z + 2 ^ 63) mod 2 ^ 64 - 2 ^ 63.

Definition defaultPageLen : Z := 10.

Definition zeroSession : Session :=
  mkSession EmptyString Time.zero Time.zero EmptyString EmptyString [].

Section Model.

(** The matcher of [fuzzy.RankFindFold] and its distance, the lower-casing of
    [strings.ToLower], [time.Format] with the layout [time.RFC3339], and the
    text of a combined error. *)
Variable fuzzyMatchFold : string -> string -> bool.
Variable LevenshteinDistance : string -> string -> Z.
Variable ToLower : string -> string.
Variable formatRFC3339 : Time.t -> string.
Variable errorText : list error -> string.

(** [newModel]. *)
Definition newModel (items : list Session) (root initialStatus : string) : model :=
  mkModel
    (map (fun sess =>
            mkRow sess
              (ToLower (Join [ID sess; WorkingDir sess; LastAction sess;
                              formatRFC3339 (CreatedAt sess);
                              formatRFC3339 (UpdatedAt sess)] " ")))
         items)
    [] 0 defaultPageLen EmptyString initialStatus root EmptyString.

(** [fuzzy.RankFindFold]: a rank for every target that matches, in the order
    of the targets; [i] is the index of the first target of the list. *)
Fixpoint rankFrom (i : nat) (source : string) (targets : list string) : list Rank :=
  match targets with
  | [] => []
  | target :: rest =>
      if fuzzyMatchFold source target
      then mkRank source target (LevenshteinDistance source target) i
           :: rankFrom (S i) source rest
      else rankFrom (S i) source rest
  end.

Definition RankFindFold (source : string) (targets : list string) : list Rank :=
  rankFrom 0 source targets.

(** [m.entries[i].session]; the indices of the ranks are indices of rows, the
    zero session stands in where there is no such row. *)
Definition sessionAt (rows : list row) (i : nat) : Session :=
  match rows !! i with
  | Some r => rowSession r
  | None => zeroSession
  end.

(** The comparison given to [sort.Slice] in [applyFilter]. *)
Definition less (rows : list row) (a b : Rank) : bool :=
  if Distance a =? Distance b then
    let sessA := sessionAt rows (OriginalIndex a) in
    let sessB := sessionAt rows (OriginalIndex b) in
    if Time.Equal (UpdatedAt sessA) (UpdatedAt sessB)
    then String.ltb (ID sessA) (ID sessB)
    else Time.After (UpdatedAt sessA) (UpdatedAt sessB)
  else Distance a <? Distance b.

(** The order of a slice sorted by [less]: no element is less than one before
    it. *)
Definition notAfter (rows : list row) (a b : Rank) : Prop := less rows b a = false.

#[export] Instance notAfter_dec (rows : list row) : RelDecision (notAfter rows).
Proof. intros a b. unfold notAfter. apply _. Defined.

(** [sort.Slice(results, less)]. Go promises a slice sorted by [less] and a
    permutation of the input, not the order of elements that compare
    equal. *)
Definition sortRanks (rows : list row) (results : list Rank) : list Rank :=
  merge_sort (notAfter rows) results.

(** The clamping at the end of [applyFilter]. *)
Definition clamp (len : Z) (sel : Z) : Z :=
  if len =? 0 then 0
  else
    let sel := if len <=? sel then len - 1 else sel in
    if sel <? 0 then 0 else sel.

(** The indices [applyFilter] computes for a query over rows. *)
Definition rank (q : string) (rows : list row) : list nat :=
  let q := TrimSpace q in
  if String.eqb q EmptyString then seq 0 (length rows)
  else map OriginalIndex (sortRanks rows (RankFindFold q (map searchKey rows))).

Definition withFilter (m : model) (f : list nat) (sel : Z) : model :=
  mkModel (entries m) f sel (pageSize m) (query m) (status m) (sessionsRoot m)
          (resumeID m).

(** [applyFilter]. *)
Definition applyFilter (m : model) : model :=
  match entries m with
  | [] => withFilter m [] 0
  | _ =>
      let f := rank (query m) (entries m) in
      withFilter m f (clamp (Z.of_nat (length f)) (selected m))
  end.

(** [moveSelectionBy]. *)
Definition moveSelectionBy (delta : Z) (m : model) : model :=
  match filtered m with
  | [] => m
  | _ =>
      let len := Z.of_nat (length (filtered m)) in
      let next := wrap (selected m + delta) in
      let next := if next <? 0 then 0 else if len <=? next then len - 1 else next in
      withFilter m (filtered m) next
  end.

Definition setStatus (text : string) (m : model) : model :=
  mkModel (entries m) (filtered m) (selected m) (pageSize m) (query m) text
          (sessionsRoot m) (resumeID m).

Definition setQuery (q : string) (m : model) : model :=
  mkModel (entries m) (filtered m) (selected m) (pageSize m) q (status m)
          (sessionsRoot m) (resumeID m).

Definition setEntries (rows : list row) (m : model) : model :=
  mkModel rows (filtered m) (selected m) (pageSize m) (query m) (status m)
          (sessionsRoot m) (resumeID m).

Definition setResumeID (id : string) (m : model) : model :=
  mkModel (entries m) (filtered m) (selected m) (pageSize m) (query m) (status m)
          (sessionsRoot m) id.

Definition setPageSize (n : Z) (m : model) : model :=
  mkModel (entries m) (filtered m) (selected m) n (query m) (status m)
          (sessionsRoot m) (resumeID m).

(** [s[i]] for a slice: [None] is the run-time panic of an index out of
    range. *)
Definition index {A : Type} (l : list A) (i : Z) : option A :=
  if i <? 0 then None else l !! Z.to_nat i.

(** [append(s[:i], s[i+1:]...)]. *)
Definition removeAt {A : Type} (i : nat) (l : list A) : list A :=
  firstn i l ++ skipn (S i) l.

(** [deleteSelected], on the model and the file system; [None] is a panic. *)
Definition deleteSelected (m : model) (fs : Fs.fsys) : option (model * Fs.fsys) :=
  match filtered m with
  | [] => Some (setStatus "Nothing to delete" m, fs)
  | _ =>
      match index (filtered m) (selected m) with
      | None => None
      | Some idx =>
          match entries m !! idx with
          | None => None
          | Some r =>
              let sess := rowSession r in
              let '(fs', err) := DeleteFiles sess (sessionsRoot m) fs in
              match err with
              | _ :: _ => Some (setStatus ("Delete failed: " +:+ errorText err) m, fs')
              | [] =>
                  let m1 := setEntries (removeAt idx (entries m)) m in
                  let m2 := setStatus ("Session " +:+ ID sess +:+ " deleted") m1 in
                  Some (applyFilter m2, fs')
              end
          end
      end
  end.

(** [dropLastRune]. *)
Definition dropLastRune (value : string) : string :=
  if String.eqb value EmptyString then value
  else
    let runes := Utf8.decode value in
    if (length runes <=? 1)%nat then EmptyString
    else Utf8.encode (removelast runes).

(** What [refreshTable] does to the model: the cursor is clamped from
    above. *)
Definition refreshTable (m : model) : model :=
  match filtered m with
  | [] => m
  | _ =>
      let len := Z.of_nat (length (filtered m)) in
      if len <=? selected m then withFilter m (filtered m) (len - 1) else m
  end.

(** The function given to [SetSelectionChangedFunc]. *)
Definition selectionChanged (tableRow : Z) (m : model) : model :=
  if (tableRow <=? 0) || (length (filtered m) =? 0)%nat then withFilter m (filtered m) 0
  else
    let len := Z.of_nat (length (filtered m)) in
    let idx := tableRow - 1 in
    let idx := if len <=? idx then len - 1 else idx in
    withFilter m (filtered m) idx.

(** The function given to [SetDrawFunc]. *)
Definition drawn (height : Z) (m : model) : model :=
  let visible := height - 1 in
  setPageSize (if visible <? 1 then 1 else visible) m.

(** [handleEvent]; [None] is a panic. *)
Definition handleEvent (k : key) (m : model) (fs : Fs.fsys)
    : option (model * Fs.fsys * signal) :=
  match k with
  | KeyRune r =>
      if Utf8.IsControl r then Some (m, fs, Running)
      else
        let m := setQuery (query m +:+ Utf8.encodeRune r) m in
        Some (refreshTable (applyFilter m), fs, Running)
  | KeyBackspace =>
      if negb (String.eqb (query m) EmptyString) then
        let m := setQuery (dropLastRune (query m)) m in
        Some (refreshTable (applyFilter m), fs, Running)
      else Some (m, fs, Running)
  | KeyEsc =>
      if negb (String.eqb (query m) EmptyString) then
        let m := setQuery EmptyString m in
        Some (refreshTable (applyFilter m), fs, Running)
      else Some (setResumeID EmptyString m, fs, Stopped)
  | KeyEnter =>
      match filtered m with
      | [] => Some (m, fs, Running)
      | _ =>
          match index (filtered m) (selected m) with
          | None => None
          | Some idx =>
              match entries m !! idx with
              | None => None
              | Some r => Some (setResumeID (ID (rowSession r)) m, fs, Stopped)
              end
          end
      end
  | KeyDelete =>
      match deleteSelected m fs with
      | None => None
      | Some (m', fs') => Some (refreshTable m', fs', Running)
      end
  | KeyPgDn => Some (moveSelectionBy (pageSize m) m, fs, Running)
  | KeyPgUp => Some (moveSelectionBy (wrap (- pageSize m)) m, fs, Running)
  | KeyCtrlC => Some (setResumeID EmptyString m, fs, Stopped)
  | KeyOther => Some (m, fs, Running)
  end.

(** The text of the search key of row [i] (the empty text where there is no
    row). *)
Definition keyAt (rows : list row) (i : nat) : string :=
  match rows !! i with
  | Some r => searchKey r
  | None => EmptyString
  end.

(** Row [i] is ranked no later than row [j] for the query [q]: by ascending
    distance, then by descending update time, then by ascending
    identifier. *)
Definition ranksBefore (q : string) (rows : list row) (i j : nat) : Prop :=
  let di := LevenshteinDistance q (keyAt rows i) in
  let dj := LevenshteinDistance q (keyAt rows j) in
  let ui := Time.instant (UpdatedAt (sessionAt rows i)) in
  let uj := Time.instant (UpdatedAt (sessionAt rows j)) in
  di < dj
  \/ (di = dj
      /\ (uj < ui
          \/ (ui = uj /\ String.le (ID (sessionAt rows i)) (ID (sessionAt rows j))))).

End Model.

(** The cursor is on a row of the filtered view, and at 0 when the view is
    empty. *)
Definition cursorOK (m : model) : Prop :=
  match filtered m with
  | [] => selected m = 0
  | _ => 0 <= selected m <= Z.of_nat (length (filtered m)) - 1
  end.

(** No two rows share an identifier, as in the output of [Load]. *)
Definition distinctIDs (rows : list row) : Prop :=
  forall i j a b, rows !! i = Some a -> rows !! j = Some b ->
                  ID (rowSession a) = ID (rowSession b) -> i = j.

(** The filtered view holds indices of rows. *)
Definition indicesOK (m : model) : Prop :=
  Forall (fun i => (i < length (entries m))%nat) (filtered m).

(** The invariant of the model. *)
Definition wellFormed (m : model) : Prop := cursorOK m /\ indicesOK m.

End Ui.

(* ===================================================================== *)
(** * A fuzzy matcher for the examples                                    *)
(* ===================================================================== *)

(** The examples below need a matcher, a distance and the text of an error.
    This module gives the matcher and the distance of the fuzzy search
    package on ASCII text: the query matches a target that holds its
    characters in order, case folded, and the distance is the edit distance.
    The theorems do not depend on it. *)
Module Fuzzy.

Definition lower (a : ascii) : ascii :=
  if ((65 <=? N_of_ascii a) && (N_of_ascii a <=? 90))%N
  then ascii_of_N (N_of_ascii a + 32) else a.

Fixpoint subsequence (source target : list ascii) : bool :=
  match target with
  | [] => match source with [] => true | _ => false end
  | t :: target' =>
      match source with
      | [] => true
      | c :: source' =>
          if Ascii.eqb c t then subsequence source' target'
          else subsequence source target'
      end
  end.

(** [strings.ToLower] on ASCII text. *)
Definition ToLower (s : string) : string :=
  string_of_list_ascii (map lower (list_ascii_of_string s)).

Definition MatchFold (source target : string) : bool :=
  subsequence (map lower (list_ascii_of_string source))
              (map lower (list_ascii_of_string target)).

(** The row of the edit distance table for the character [c] of the source:
    [ups] is the row above from the second column on, [diag] the entry above
    to the left, [left] the entry to the left. *)
Fixpoint editRow (c : ascii) (target : list ascii) (ups : list Z) (diag left : Z)
    : list Z :=
  match target, ups with
  | t :: target', up :: ups' =>
      let v := Z.min (Z.min (up + 1) (left + 1))
                     (diag + (if Ascii.eqb c t then 0 else 1)) in
      v :: editRow c target' ups' up v
  | _, _ => []
  end.

Definition LevenshteinDistance (source target : string) : Z :=
  let t := list_ascii_of_string target in
  let first := map Z.of_nat (seq 0 (S (length t))) in
  let lastRow :=
    fold_left (fun prev c =>
                 let i := hd 0 prev + 1 in
                 i :: editRow c t (tl prev) (hd 0 prev) i)
              (list_ascii_of_string source) first in
  List.last lastRow 0.

(** The text of a combined error: one line for every error. *)
Definition errorText (errs : list Sessions.error) : string :=
  String.concat (String "010"%char EmptyString)
    (map (fun e => match e with
                   | Sessions.ErrRemove path _ => "remove " +:+ path
                   | Sessions.ErrParse path _ => "parse " +:+ path
                   | Sessions.ErrWalk path => "walk " +:+ path
                   | _ => "error"%string
                   end) errs).

End Fuzzy.

(* ===================================================================== *)
(** * Concrete inputs                                                     *)
(* ===================================================================== *)

(** The files, trees and models the examples, witnesses and counterexamples
    below are run on. *)
Module Demo.
Import Json Sessions.

(** No string field of the files below holds a JSON text, so the reader of
    such texts is never consulted; this one reads none. *)
Definition noText (text : string) : option json := None.

(** A line with the three members of a log entry, followed by more lines. *)
Definition entry (ts ty : string) (payload : json) : lineBytes * readErr :=
  (Text (Some (JObj [("timestamp"%string, JStr ts); ("type"%string, JStr ty);
                     ("payload"%string, payload)])), RNil).

(** The empty last read of a file that ends with a newline. *)
Definition eof : lineBytes * readErr := (Blank, REOF).

(** A session with a user message, and a later record of a type that has no
    description. *)
Definition undescribedLast : list (lineBytes * readErr) :=
  [ entry "2024-05-01T10:00:00Z" "session_meta"
      (JObj [("id"%string, JStr "S1");
             ("timestamp"%string, JStr "2024-05-01T10:00:00Z");
             ("cwd"%string, JStr "/work")]);
    entry "2024-05-01T10:00:05Z" "event_msg"
      (JObj [("type"%string, JStr "user_message"); ("message"%string, JStr "hello")]);
    entry "2024-05-01T10:00:09Z" "turn_context" (JObj []);
    eof ].

(** What the parser makes of [undescribedLast] in the file [/r/a.jsonl]. *)
Definition undescribedLastSession : Session :=
  mkSession "S1" (Time.mk 63850154400000000000 0) (Time.mk 63850154409000000000 0)
            "/work" "user_message: hello" ["/r/a.jsonl"%string].

(** A file with two [session_meta] records. *)
Definition twoMetas : list (lineBytes * readErr) :=
  [ entry "2024-05-01T10:00:00Z" "session_meta"
      (JObj [("id"%string, JStr "S1");
             ("timestamp"%string, JStr "2024-05-01T09:00:00Z");
             ("cwd"%string, JStr "/first")]);
    entry "2024-05-01T10:00:05Z" "session_meta"
      (JObj [("id"%string, JStr "S2");
             ("timestamp"%string, JStr "2024-05-01T09:30:00Z");
             ("cwd"%string, JStr "/second")]);
    eof ].

(** A file without any [session_meta] record. *)
Definition noMeta : list (lineBytes * readErr) :=
  [ entry "2024-05-01T10:00:05Z" "event_msg"
      (JObj [("type"%string, JStr "user_message"); ("message"%string, JStr "hello")]);
    eof ].

(** A session started at 10:00 with a user message at 10:00:05. *)
Definition fragmentA : list (lineBytes * readErr) :=
  [ entry "2024-05-01T10:00:00Z" "session_meta"
      (JObj [("id"%string, JStr "S1");
             ("timestamp"%string, JStr "2024-05-01T10:00:00Z");
             ("cwd"%string, JStr "/work")]);
    entry "2024-05-01T10:00:05Z" "event_msg"
      (JObj [("type"%string, JStr "user_message"); ("message"%string, JStr "hello")]);
    eof ].

(** A later fragment of the same session: an assistant message at 10:07. *)
Definition fragmentB : list (lineBytes * readErr) :=
  [ entry EmptyString "session_meta" (JObj [("id"%string, JStr "S1")]);
    entry "2024-05-01T10:07:00Z" "event_msg"
      (JObj [("type"%string, JStr "assistant_message");
             ("message"%string, JStr "hi there")]);
    eof ].

(** A fragment of the same session that carries no timestamp at all. *)
Definition fragmentUntimed : list (lineBytes * readErr) :=
  [ (Text (Some (JObj [("type"%string, JStr "session_meta");
                       ("payload"%string, JObj [("id"%string, JStr "S1")])])), RNil);
    eof ].

(** A machine whose sessions directory [/r] holds the given files. *)
Definition worldOf (files : list (string * list (lineBytes * readErr))) : world :=
  mkWorld (Some "/home/u"%string)
          (fun p => if String.eqb p "/r" then StatIsDir else StatNotExist)
          (fun p => VisitDir p :: map (fun pf => VisitFile (fst pf) (Reads (snd pf))) files).

(** The tree [/r/a/f.jsonl], with nothing else under the root [/r]. *)
Definition loneTree : Fs.fsys :=
  <["/r/a/f.jsonl"%string := Fs.File]>
    (<["/r/a"%string := Fs.Directory true]>
       (<["/r"%string := Fs.Directory true]>
          (<["/"%string := Fs.Directory true]> ∅))).

(** The same tree with a second directory [/r/b] under the root. *)
Definition sharedTree : Fs.fsys := <["/r/b"%string := Fs.Directory true]> loneTree.

(** The same tree with the directory [/r/a] closed to changes. *)
Definition lockedTree : Fs.fsys := <["/r/a"%string := Fs.Directory false]> loneTree.

Definition loneSession : Session :=
  mkSession "S1" Time.zero Time.zero EmptyString EmptyString ["/r/a/f.jsonl"%string].

(** Two rows, the sessions [S1] and [S2], with their search keys. *)
Definition twoRows : list Ui.row :=
  [ Ui.mkRow (mkSession "S1" (Time.mk 10 0) (Time.mk 20 0) "/work" "call shell"
                        ["/r/a/f.jsonl"%string])
             "s1 /work call shell";
    Ui.mkRow (mkSession "S2" (Time.mk 10 0) (Time.mk 30 0) "/tmp" "reasoning: plan"
                        ["/r/b/g.jsonl"%string])
             "s2 /tmp reasoning: plan" ].

(** The model over [twoRows] with an empty query, the cursor on the first
    row. *)
Definition twoRowModel : Ui.model :=
  Ui.mkModel twoRows [0%nat; 1%nat] 0 10 EmptyString EmptyString "/r" EmptyString.

(** The tree of the two sessions of [twoRows]. *)
Definition twoRowTree : Fs.fsys :=
  <["/r/b/g.jsonl"%string := Fs.File]>
    (<["/r/b"%string := Fs.Directory true]> loneTree).

(** The tree of [twoRows] with the directory [/r/a] closed to changes. *)
Definition lockedTwoRowTree : Fs.fsys :=
  <["/r/a"%string := Fs.Directory false]> twoRowTree.

(** The model without rows. *)
Definition emptyModel : Ui.model :=
  Ui.mkModel [] [] 0 10 EmptyString EmptyString "/r" EmptyString.

End Demo.


(* ===================================================================== *)
(** * The texts of the table cells                                        *)
(* ===================================================================== *)

Module Cells.
Import Str.

(** [truncateText]; [None] is the panic of a slice with a negative bound. *)
Definition truncateText (text : string) (max : Z) : option string :=
  let text := TrimSpace text in
  if String.eqb text EmptyString then Some "-"%string
  else if Z.of_nat (String.length text) <=? max then Some text
  else if max <=? 3 then
    (if max <? 0 then None else Some (stake (Z.to_nat max) text))
  else Some (stake (Z.to_nat (max - 3)) text +:+ "...").

(** [abbreviatePath]. *)
Definition abbreviatePath (path : string) (max : Z) : string :=
  if max <=? 0 then path
  else if Z.of_nat (String.length path) <=? max then path
  else
    let ellipsis := "..."%string in
    if max <=? Z.of_nat (String.length ellipsis) then stake (Z.to_nat max) path
    else ellipsis +:+ sdrop (Z.to_nat (Z.of_nat (String.length path) - (max - 1))) path.

End Cells.


(* ===================================================================== *)
(** * Facts about byte strings                                            *)
(* ===================================================================== *)

Module StrFacts.
Import Str.

Lemma string_length_ind (P : string -> Prop) :
  (forall s, (forall t, (String.length t < String.length s)%nat -> P t) -> P s) ->
  forall s, P s.
Proof.
  intros step s.
  assert (H : forall n t, (String.length t < n)%nat -> P t).
  { induction n as [|n IH]; intros t Ht; [lia|].
    apply step. intros u Hu. apply IH. lia. }
  apply (H (S (String.length s))). lia.
Qed.

Lemma append_nil_r (s : string) : s +:+ EmptyString = s.
Proof. induction s as [|c s IH]; simpl; [reflexivity | now rewrite IH]. Qed.

Lemma append_assoc (a b c : string) : (a +:+ b) +:+ c = a +:+ (b +:+ c).
Proof. induction a as [|x a IH]; simpl; [reflexivity | now rewrite IH]. Qed.

Lemma length_append (a b : string) :
  String.length (a +:+ b) = (String.length a + String.length b)%nat.
Proof. induction a as [|x a IH]; simpl; [reflexivity | now rewrite IH]. Qed.

Lemma length_stake (n : nat) (s : string) :
  (n <= String.length s)%nat -> String.length (stake n s) = n.
Proof.
  revert s. induction n as [|n IH]; intros [|c s] H; simpl in *; try lia.
  rewrite IH; lia.
Qed.

Lemma stake_all (n : nat) (s : string) :
  (String.length s <= n)%nat -> stake n s = s.
Proof.
  revert s. induction n as [|n IH]; intros [|c s] H; simpl in *;
    try reflexivity; try lia.
  rewrite IH; [reflexivity | lia].
Qed.

Lemma stake_sdrop (n : nat) (s : string) : stake n s +:+ sdrop n s = s.
Proof.
  revert s. induction n as [|n IH]; intros [|c s]; simpl; try reflexivity.
  now rewrite IH.
Qed.

Lemma encode_app (xs ys : list rune) : encode (xs ++ ys) = encode xs +:+ encode ys.
Proof.
  induction xs as [|r xs IH]; simpl; [reflexivity|].
  now rewrite IH, append_assoc.
Qed.

(** One step of [runes], by the width of the white space at the front. *)
Lemma runes_step (s : string) :
  runes s =
  match s with
  | EmptyString => []
  | String a r =>
      match spaceWidth s with
      | O => RByte a :: runes r
      | S w => RSpace (stake (S w) s) :: runes (sdrop (S w) s)
      end
  end.
Proof.
  destruct s as [|a [|b [|c r]]]; simpl; try reflexivity.
  - destruct (asciiSpace a); reflexivity.
  - destruct (asciiSpace a); [reflexivity|]. destruct (space2 a b); reflexivity.
  - destruct (asciiSpace a); [reflexivity|]. destruct (space2 a b); [reflexivity|].
    destruct (space3 a b c); reflexivity.
Qed.

Lemma spaceWidth_le (s : string) : (spaceWidth s <= String.length s)%nat.
Proof.
  destruct s as [|a [|b [|c r]]]; simpl; try lia.
  - destruct (asciiSpace a); lia.
  - destruct (asciiSpace a); [lia|]. destruct (space2 a b); lia.
  - destruct (asciiSpace a); [lia|]. destruct (space2 a b); [lia|].
    destruct (space3 a b c); lia.
Qed.

(** The decomposition loses nothing. *)
Lemma encode_runes (s : string) : encode (runes s) = s.
Proof.
  induction s as [s IH] using string_length_ind.
  rewrite runes_step. destruct s as [|a r]; [reflexivity|].
  pose proof (spaceWidth_le (String a r)) as Hle.
  destruct (spaceWidth (String a r)) as [|w] eqn:E.
  - simpl. rewrite IH; [reflexivity | simpl; lia].
  - cbn [encode encodeRune]. rewrite IH.
    + apply stake_sdrop.
    + assert (String.length (stake (S w) (String a r)) = S w)
        by (apply length_stake; lia).
      pose proof (f_equal String.length (stake_sdrop (S w) (String a r))) as HL.
      rewrite length_append in HL. lia.
Qed.

(** White space at the front stays white space when bytes are added behind. *)
Lemma spaceWidth_app (s t : string) :
  spaceWidth s <> O -> spaceWidth (s +:+ t) = spaceWidth s.
Proof.
  destruct s as [|a [|b [|c r]]]; simpl; intros H; try congruence;
    destruct (asciiSpace a); try reflexivity; try congruence;
    destruct (space2 a b); try reflexivity; congruence.
Qed.

Lemma runes_space (w x : string) :
  w <> EmptyString -> spaceWidth w = String.length w ->
  runes (w +:+ x) = RSpace w :: runes x.
Proof.
  intros Hne Hw.
  destruct w as [|a [|b [|c [|d w]]]]; simpl in *; try congruence.
  - destruct (asciiSpace a); [reflexivity | discriminate].
  - destruct (asciiSpace a); [discriminate|].
    destruct (space2 a b); [|discriminate].
    destruct x; reflexivity.
  - destruct (asciiSpace a); [discriminate|].
    destruct (space2 a b); [discriminate|].
    destruct (space3 a b c); [reflexivity | discriminate].
  - destruct (asciiSpace a); [discriminate|].
    destruct (space2 a b); [discriminate|].
    destruct (space3 a b c); discriminate.
Qed.

Lemma runes_byte (b : ascii) (x : string) :
  spaceWidth (String b x) = O -> runes (String b x) = RByte b :: runes x.
Proof. intros H. rewrite runes_step, H. reflexivity. Qed.

Lemma runes_encode (rs : list rune) : valid rs -> runes (encode rs) = rs.
Proof.
  induction rs as [|[w|b] rs IH]; cbn [encode encodeRune valid]; intros H.
  - reflexivity.
  - destruct H as [[Hne Hw] Hv]. rewrite runes_space by assumption.
    now rewrite IH.
  - destruct H as [Hb Hv].
    change (String b EmptyString +:+ encode rs) with (String b (encode rs)).
    rewrite runes_byte by assumption. now rewrite IH.
Qed.

Lemma spaceWidth_stake (s : string) :
  spaceWidth (stake (spaceWidth s) s) = spaceWidth s.
Proof.
  destruct s as [|a [|b [|c r]]]; simpl; try reflexivity.
  - destruct (asciiSpace a) eqn:Ea; simpl; [now rewrite Ea | reflexivity].
  - destruct (asciiSpace a) eqn:Ea; simpl; [now rewrite Ea|].
    destruct (space2 a b) eqn:Eb; simpl; [now rewrite Ea, Eb | reflexivity].
  - destruct (asciiSpace a) eqn:Ea; simpl; [now rewrite Ea|].
    destruct (space2 a b) eqn:Eb; simpl; [now rewrite Ea, Eb|].
    destruct (space3 a b c) eqn:Ec; simpl; [now rewrite Ea, Eb, Ec | reflexivity].
Qed.

Lemma valid_runes (s : string) : valid (runes s).
Proof.
  induction s as [s IH] using string_length_ind.
  rewrite runes_step. destruct s as [|a r]; [exact I|].
  pose proof (spaceWidth_le (String a r)) as Hle.
  pose proof (spaceWidth_stake (String a r)) as Hst.
  destruct (spaceWidth (String a r)) as [|w] eqn:E.
  - cbn [valid]. split; [|apply IH; simpl; lia].
    rewrite encode_runes. exact E.
  - assert (HL : String.length (stake (S w) (String a r)) = S w)
      by (apply length_stake; lia).
    cbn [valid]. split; [split|].
    + intros Hnil. rewrite Hnil in HL. discriminate.
    + now rewrite HL.
    + apply IH.
      pose proof (f_equal String.length (stake_sdrop (S w) (String a r))) as HL'.
      rewrite length_append in HL'. lia.
Qed.

Lemma valid_app_r (xs ys : list rune) : valid (xs ++ ys) -> valid ys.
Proof.
  induction xs as [|[w|b] xs IH]; cbn [app valid]; intros H;
    [assumption | apply IH, H | apply IH, H].
Qed.

Lemma valid_app_l (xs ys : list rune) : valid (xs ++ ys) -> valid xs.
Proof.
  induction xs as [|[w|b] xs IH]; cbn [app valid]; intros H.
  - exact I.
  - destruct H as [Hw Hv]. split; [exact Hw | apply IH, Hv].
  - destruct H as [Hb Hv]. split; [|apply IH, Hv].
    rewrite encode_app in Hb.
    destruct (spaceWidth (String b (encode xs))) as [|n] eqn:E; [reflexivity|].
    assert (Hn : spaceWidth (String b (encode xs)) <> O) by (rewrite E; discriminate).
    pose proof (spaceWidth_app (String b (encode xs)) (encode ys) Hn) as Happ.
    cbn [String.append] in Happ. rewrite Hb, E in Happ. discriminate.
Qed.

Lemma dropSpaces_suffix (rs : list rune) : exists hd, rs = hd ++ dropSpaces rs.
Proof.
  induction rs as [|r rs [hd IH]]; [exists []; reflexivity|].
  cbn [dropSpaces]. destruct (isRSpace r).
  - exists (r :: hd). cbn [app]. now rewrite <- IH.
  - exists []. reflexivity.
Qed.

Lemma valid_trimRunes (rs : list rune) : valid rs -> valid (trimRunes rs).
Proof.
  intros H. unfold trimRunes.
  destruct (dropSpaces_suffix rs) as [hd Hhd].
  rewrite Hhd in H. apply valid_app_r in H.
  destruct (dropSpaces_suffix (rev (dropSpaces rs))) as [tl Htl].
  apply (f_equal (@rev rune)) in Htl.
  rewrite rev_involutive, rev_app_distr in Htl.
  rewrite Htl in H. now apply valid_app_l in H.
Qed.

Lemma runes_TrimSpace (s : string) : runes (TrimSpace s) = trimRunes (runes s).
Proof. apply runes_encode, valid_trimRunes, valid_runes. Qed.

Lemma encode_nil (rs : list rune) : valid rs -> encode rs = EmptyString -> rs = [].
Proof.
  destruct rs as [|[w|b] rs]; cbn [valid encode encodeRune]; intros H E.
  - reflexivity.
  - destruct H as [[Hne _] _]. destruct w; [congruence | discriminate].
  - discriminate.
Qed.

Lemma endsInSpace_snoc (xs : list rune) (r : rune) :
  endsInSpace (xs ++ [r]) = isRSpace r.
Proof.
  induction xs as [|x xs IH]; [reflexivity|].
  cbn [app endsInSpace]. destruct (xs ++ [r]) eqn:E; [|exact IH].
  destruct xs; discriminate.
Qed.

Lemma dropSpaces_head (rs : list rune) :
  dropSpaces rs = [] \/ exists b rest, dropSpaces rs = RByte b :: rest.
Proof.
  induction rs as [|[w|b] rs IH]; cbn [dropSpaces isRSpace]; eauto.
Qed.

Lemma dropSpaces_snoc_byte (ys : list rune) (b : ascii) :
  dropSpaces (ys ++ [RByte b]) = dropSpaces ys ++ [RByte b].
Proof.
  induction ys as [|[w|c] ys IH]; cbn [app dropSpaces isRSpace];
    [reflexivity | exact IH | reflexivity].
Qed.

Lemma trimRunes_no_trailing (rs : list rune) : endsInSpace (trimRunes rs) = false.
Proof.
  unfold trimRunes.
  destruct (dropSpaces_head (rev (dropSpaces rs))) as [E | (b & rest & E)];
    rewrite E; [reflexivity|].
  cbn [rev]. apply endsInSpace_snoc.
Qed.

Lemma trimRunes_no_leading (rs : list rune) :
  dropSpaces (trimRunes rs) = trimRunes rs.
Proof.
  unfold trimRunes.
  destruct (dropSpaces_head rs) as [E | (b & rest & E)]; rewrite E; [reflexivity|].
  cbn [rev]. rewrite dropSpaces_snoc_byte, rev_app_distr. reflexivity.
Qed.

Lemma collapse_run (w : string) (rest : list rune) :
  rest <> [] -> endsInSpace rest = false ->
  collapse (RSpace w :: rest) = String " "%char (collapse (dropSpaces rest)).
Proof.
  revert w. induction rest as [|[v|b] rest IH]; intros w Hne He; [congruence| |].
  - cbn [collapse dropSpaces isRSpace].
    change (collapse (RSpace v :: rest) = String " "%char (collapse (dropSpaces rest))).
    apply IH.
    + intros ->. discriminate.
    + destruct rest; [discriminate | exact He].
  - reflexivity.
Qed.

Lemma fieldsAux_cur (rs : list rune) (cur : string) :
  cur <> EmptyString -> fieldsAux rs cur <> [].
Proof.
  revert cur. induction rs as [|[w|b] rs IH]; intros cur Hc; cbn [fieldsAux].
  - destruct (String.eqb_spec cur EmptyString); congruence.
  - destruct (String.eqb_spec cur EmptyString); congruence.
  - apply IH. destruct cur; discriminate.
Qed.

Lemma fieldsAux_nonempty (rs : list rune) (cur : string) :
  rs <> [] -> endsInSpace rs = false -> fieldsAux rs cur <> [].
Proof.
  revert cur. induction rs as [|[w|b] rs IH]; intros cur Hne He; [congruence| |].
  - cbn [fieldsAux]. destruct rs as [|r rs']; [discriminate|].
    destruct (String.eqb_spec cur EmptyString); [|congruence].
    apply IH; [congruence | exact He].
  - cbn [fieldsAux]. apply fieldsAux_cur. destruct cur; discriminate.
Qed.

Lemma Join_cons (x : string) (xs : list string) :
  xs <> [] -> Join (x :: xs) " " = x +:+ String " "%char (Join xs " ").
Proof. destruct xs; [congruence | reflexivity]. Qed.

Lemma Join_fieldsAux (rs : list rune) :
  endsInSpace rs = false ->
  (forall cur, cur <> EmptyString ->
     Join (fieldsAux rs cur) " " = cur +:+ collapse rs)
  /\ Join (fieldsAux rs EmptyString) " " = collapse (dropSpaces rs).
Proof.
  induction rs as [|[w|b] rs IH]; intros He.
  - split; [|reflexivity]. intros cur Hc. cbn [fieldsAux collapse].
    destruct (String.eqb_spec cur EmptyString); [congruence|].
    cbn. now rewrite append_nil_r.
  - assert (Hne : rs <> []) by (intros ->; discriminate).
    assert (He' : endsInSpace rs = false) by (destruct rs; [congruence | exact He]).
    destruct (IH He') as [IHa IHb]. split.
    + intros cur Hc. cbn [fieldsAux].
      destruct (String.eqb_spec cur EmptyString); [congruence|].
      rewrite Join_cons by (apply fieldsAux_nonempty; assumption).
      rewrite IHb. now rewrite collapse_run.
    + cbn [fieldsAux dropSpaces isRSpace]. exact IHb.
  - assert (He' : endsInSpace rs = false) by (destruct rs; [reflexivity | exact He]).
    destruct (IH He') as [IHa IHb]. split.
    + intros cur Hc. cbn [fieldsAux collapse].
      rewrite IHa by (destruct cur; discriminate).
      rewrite append_assoc. reflexivity.
    + cbn [fieldsAux dropSpaces isRSpace collapse].
      rewrite IHa by discriminate. reflexivity.
Qed.

(** Joining the fields of a trimmed string collapses its white space. *)
Lemma Join_Fields_TrimSpace (s : string) :
  Join (Fields (TrimSpace s)) " " = collapse (trimRunes (runes s)).
Proof.
  unfold Fields. rewrite runes_TrimSpace.
  destruct (Join_fieldsAux (trimRunes (runes s)) (trimRunes_no_trailing _)) as [_ H].
  now rewrite H, trimRunes_no_leading.
Qed.

Lemma noSpace_trimRunes (rs : list rune) :
  forallb (fun r => negb (isRSpace r)) rs = true -> trimRunes rs = rs.
Proof.
  intros H. unfold trimRunes.
  assert (D : forall l, forallb (fun r => negb (isRSpace r)) l = true -> dropSpaces l = l).
  { intros [|[w|b] l] Hl; [reflexivity | discriminate | reflexivity]. }
  rewrite (D rs H). rewrite D; [apply rev_involutive|].
  rewrite forallb_forall in *. intros x Hx. apply H. now apply in_rev.
Qed.

Lemma noSpace_collapse (rs : list rune) :
  forallb (fun r => negb (isRSpace r)) rs = true -> collapse rs = encode rs.
Proof.
  induction rs as [|[w|b] rs IH]; cbn [forallb isRSpace negb collapse encode encodeRune];
    intros H; [reflexivity | discriminate|].
  cbn in H. now rewrite IH.
Qed.

End StrFacts.

(* ===================================================================== *)
(** * The library models on examples                                      *)
(* ===================================================================== *)

Module LibraryExamples.
Import Path.

Example Clean_examples :
  Clean "/r/a/../b//c/." = "/r/b/c"%string /\ Clean EmptyString = "."%string
  /\ Clean "../a/.." = ".."%string /\ Clean "/.." = "/"%string.
Proof. repeat split; reflexivity. Qed.

Example Dir_examples :
  Dir "/r/a/f.jsonl" = "/r/a"%string /\ Dir "/r" = "/"%string
  /\ Dir "a" = "."%string /\ Dir "/r/a" = render (cdir (clean "/r/a")).
Proof. repeat split; reflexivity. Qed.

Example Rel_examples :
  Rel "/r" "/r/a" = Some "a"%string /\ Rel "/r" "/r" = Some "."%string
  /\ Rel "/r" "/" = Some ".."%string /\ Rel "/r/x" "/r/a/b" = Some "../a/b"%string
  /\ Rel "." "/r" = None.
Proof. repeat split; reflexivity. Qed.

Example Ext_examples :
  Ext "/r/a/f.jsonl" = ".jsonl"%string /\ Ext "/r/a.b/f" = EmptyString
  /\ Ext "f.tar.gz" = ".gz"%string.
Proof. repeat split; reflexivity. Qed.

Example parse_examples :
  Rfc3339.parse "0001-01-01T00:00:00Z" = Some (Time.mk 0 0)
  /\ Rfc3339.parse "0001-01-01T00:00:05Z" = Some (Time.mk 5000000000 0)
  /\ Rfc3339.parse "2024-03-01T12:00:00.5+02:00" = Some (Time.mk 63844884000500000000 7200)
  /\ Rfc3339.parse "2024-02-30T00:00:00Z" = None
  /\ Rfc3339.parse "yesterday" = None.
Proof. repeat split; vm_compute; reflexivity. Qed.

Example format_examples :
  Rfc3339.format (Time.mk 63850154405000000000 0) = "2024-05-01T10:00:05Z"%string
  /\ Rfc3339.format (Time.mk 63844884000500000000 7200) = "2024-03-01T12:00:00+02:00"%string
  /\ Rfc3339.format Time.zero = "0001-01-01T00:00:00Z"%string.
Proof. repeat split; vm_compute; reflexivity. Qed.

Example fuzzy_examples :
  Fuzzy.MatchFold "S1" "s1 /work call shell" = true
  /\ Fuzzy.MatchFold "S1" "s2 /tmp reasoning: plan" = false
  /\ Fuzzy.LevenshteinDistance "kitten" "sitting" = 3
  /\ Fuzzy.LevenshteinDistance EmptyString "abc" = 3.
Proof. repeat split; vm_compute; reflexivity. Qed.

End LibraryExamples.

(* ===================================================================== *)
(** * The describer on examples                                           *)
(* ===================================================================== *)

Module DescriberExamples.
Import Json Sessions.

Example describe_message :
  describeEntry Demo.noText
    (mkLogEntry "2024-05-01T10:00:05Z" "response_item"
       (Some (JObj [("type"%string, JStr "message"); ("role"%string, JStr "assistant");
                    ("content"%string,
                     JArr [JObj [("type"%string, JStr "output_text");
                                 ("text"%string, JStr "  Done.   All good ")]])])))
  = "assistant: Done. All good"%string.
Proof. vm_compute. reflexivity. Qed.

Example describe_token_count :
  describeEntry Demo.noText
    (mkLogEntry "2024-05-01T10:00:05Z" "event_msg"
       (Some (JObj [("type"%string, JStr "token_count")])))
  = "token usage updated"%string.
Proof. vm_compute. reflexivity. Qed.

Example describe_call_error :
  describeEntry Demo.noText
    (mkLogEntry "2024-05-01T10:00:05Z" "response_item"
       (Some (JObj [("type"%string, JStr "function_call_output");
                    ("name"%string, JStr "shell");
                    ("error"%string, JObj [("message"%string, JStr "timed out")])])))
  = "call shell error: timed out"%string.
Proof. vm_compute. reflexivity. Qed.

(** A payload of the wrong shape is not described. *)
Example describe_malformed :
  describeEntry Demo.noText
    (mkLogEntry "2024-05-01T10:00:05Z" "response_item"
       (Some (JObj [("type"%string, JStr "message"); ("content"%string, JStr "hello")])))
  = EmptyString
  /\ describeEntry Demo.noText (mkLogEntry EmptyString "event_msg" None) = EmptyString
  /\ describeEntry Demo.noText (mkLogEntry EmptyString "session_meta" (Some JNull))
     = EmptyString.
Proof. repeat split; vm_compute; reflexivity. Qed.

End DescriberExamples.

(* ===================================================================== *)
(** * The snippet                                                         *)
(* ===================================================================== *)

Module SnippetFacts.
Import Str StrFacts Sessions.

Lemma snippetSpec_noSpace (text : string) :
  noSpace text = true ->
  snippetSpec text =
  if (String.length text <=? 160)%nat then text else stake 157 text +:+ "...".
Proof.
  intros H. unfold snippetSpec, noSpace in *.
  rewrite (noSpace_trimRunes _ H), (noSpace_collapse _ H), encode_runes.
  reflexivity.
Qed.

Lemma compactSnippet_snippetSpec (text : string) :
  compactSnippet text = snippetSpec text.
Proof.
  unfold compactSnippet, snippetSpec.
  rewrite Join_Fields_TrimSpace.
  destruct (String.eqb_spec (TrimSpace text) EmptyString) as [E|_]; [|reflexivity].
  unfold TrimSpace in E. fold (trimRunes (runes text)) in E.
  apply encode_nil in E; [|apply valid_trimRunes, valid_runes].
  rewrite E. reflexivity.
Qed.

Lemma snippetSpec_length (text : string) :
  (String.length (snippetSpec text) <= 160)%nat.
Proof.
  unfold snippetSpec.
  destruct (Nat.leb_spec (String.length (collapse (trimRunes (runes text)))) 160)
    as [H|H]; [exact H|].
  rewrite length_append, length_stake by lia. simpl. lia.
Qed.

(** C7. The snippet is the text with its surrounding white space trimmed and
    every inner run of white space collapsed to one space, capped at 160
    bytes; a text of 200 bytes without white space gives its first 157 bytes
    and the three bytes of the marker, 160 bytes in all, and a text of 50 bytes
    without white space is returned as it is. Lengths count bytes, as [len]
    does. *)
Theorem compactSnippet_trims_collapses_caps (text : string) :
  compactSnippet text = snippetSpec text
  /\ (String.length (compactSnippet text) <= 160)%nat
  /\ (noSpace text = true -> String.length text = 200%nat ->
       compactSnippet text = stake 157 text +:+ "..."
       /\ String.length (compactSnippet text) = 160%nat)
  /\ (noSpace text = true -> String.length text = 50%nat ->
       compactSnippet text = text).
Proof.
  split; [apply compactSnippet_snippetSpec|].
  split; [rewrite compactSnippet_snippetSpec; apply snippetSpec_length|].
  split.
  - intros Hn Hl. rewrite compactSnippet_snippetSpec, snippetSpec_noSpace by exact Hn.
    rewrite Hl. cbn [Nat.leb]. split; [reflexivity|].
    rewrite length_append, length_stake by lia. reflexivity.
  - intros Hn Hl. rewrite compactSnippet_snippetSpec, snippetSpec_noSpace by exact Hn.
    rewrite Hl. reflexivity.
Qed.

Lemma compactSnippet_witness :
  (compactSnippet (bytes 200 "a") = stake 157 (bytes 200 "a") +:+ "..."
   /\ String.length (compactSnippet (bytes 200 "a")) = 160%nat)
  /\ compactSnippet (bytes 50 "b") = bytes 50 "b".
Proof.
  split.
  - apply (compactSnippet_trims_collapses_caps (bytes 200 "a"));
      vm_compute; reflexivity.
  - apply (compactSnippet_trims_collapses_caps (bytes 50 "b"));
      vm_compute; reflexivity.
Defined.

(** C7 as stated, with lengths in characters, fails on texts of four-byte
    characters without white space: 50 of them, 200 bytes, are not returned
    as they are but cut after 157 bytes, inside the fortieth character, and
    200 of them give 160 bytes that read as 43 characters, not as 160. *)
Lemma compactSnippet_counterexample :
  let face := 128512 in
  let text50 := Utf8.encode (repeat face 50) in
  let text200 := Utf8.encode (repeat face 200) in
  (Utf8.decode text50 = repeat face 50 /\ noSpace text50 = true)
  /\ compactSnippet text50 <> text50
  /\ compactSnippet text50 = stake 157 text50 +:+ "..."
  /\ Utf8.decode (compactSnippet text50)
     = repeat face 39 ++ [Utf8.RuneError; 46; 46; 46]
  /\ (Utf8.decode text200 = repeat face 200 /\ noSpace text200 = true)
  /\ String.length (compactSnippet text200) = 160%nat
  /\ length (Utf8.decode (compactSnippet text200)) = 43%nat.
Proof.
  cbv zeta. repeat split; try (vm_compute; reflexivity). vm_compute. discriminate.
Qed.

Example compactSnippet_runs :
  compactSnippet "  list   the
	files  " = "list the files"%string.
Proof. vm_compute. reflexivity. Qed.

End SnippetFacts.

(* ===================================================================== *)
(** * The parser                                                          *)
(* ===================================================================== *)

Module ParserFacts.
Import Str Json Sessions.

Section Parser.

Variable jsonText : string -> option json.
Variable timeParse : string -> string -> option Time.t.

#[local] Abbreviation parseSessionFile := (parseSessionFile jsonText timeParse).
#[local] Abbreviation processEntry := (processEntry jsonText timeParse).
#[local] Abbreviation scan := (scan jsonText timeParse).
#[local] Abbreviation runs_to := (runs_to jsonText timeParse).
#[local] Abbreviation entryTime := (entryTime timeParse).
#[local] Abbreviation parseTimestamp := (parseTimestamp timeParse).
#[local] Abbreviation seedsRead := (seedsRead timeParse).

(** Every successful scan is a run. *)
Lemma scan_runs_to rs : forall st st', scan rs st = inr st' -> runs_to rs st st'.
Proof.
  induction rs as [|[line err] rest IH]; intros st st' H; cbn [Sessions.scan] in H.
  - injection H as <-. constructor.
  - destruct err; try discriminate; destruct line as [|doc].
    + constructor. now apply IH.
    + destruct (Unmarshal _ _ doc) as [entry|] eqn:Ed; [|discriminate].
      destruct (processEntry st entry) as [e|st1] eqn:Ep; [discriminate|].
      cbn [isEOF] in H. econstructor; eauto.
    + cbn [isEOF] in H. injection H as <-. constructor.
    + destruct (Unmarshal _ _ doc) as [entry|] eqn:Ed; [|discriminate].
      destruct (processEntry st entry) as [e|st1] eqn:Ep; [discriminate|].
      cbn [isEOF] in H. injection H as <-. econstructor; eauto.
Qed.

Lemma parse_inr path rs s :
  parseSessionFile path (Reads rs) = inr s ->
  exists st,
    runs_to rs (initState path) st
    /\ ID (session st) <> EmptyString
    /\ s = mkSession (ID (session st))
                     (if negb (createdSet st) || Time.IsZero (CreatedAt (session st))
                      then lastTS st else CreatedAt (session st))
                     (lastTS st) (WorkingDir (session st)) (LastAction (session st))
                     (FilePaths (session st)).
Proof.
  unfold Sessions.parseSessionFile. intros H.
  destruct (scan rs (initState path)) as [e|st] eqn:Es; [discriminate|].
  destruct (String.eqb_spec (ID (session st)) EmptyString) as [E|E]; [discriminate|].
  injection H as <-. exists st. split; [now apply scan_runs_to | split; [exact E | reflexivity]].
Qed.

(** What one entry does to the latest time seen. *)
Lemma processEntry_lastTS st entry st1 :
  processEntry st entry = inr st1 ->
  lastTS st1 = if Time.After (entryTime entry) (lastTS st) || Time.IsZero (lastTS st)
               then entryTime entry else lastTS st.
Proof.
  unfold Sessions.processEntry, Sessions.entryTime. intros H.
  destruct (String.eqb (Type_ entry) "session_meta").
  - destruct (Unmarshal _ _ (Payload entry)) as [payload|]; [|discriminate].
    destruct (parseTimestamp (metaTimestamp payload)); cbn [lastTS] in H;
      match type of H with
      | (if ?c then _ else _) = _ => destruct c; injection H as <-; reflexivity
      end.
  - match type of H with
    | (if ?c then _ else _) = _ => destruct c; injection H as <-; reflexivity
    end.
Qed.

Lemma latest_nonneg ts : 0 <= latest ts.
Proof. unfold latest. induction ts as [|t ts IH]; simpl; lia. Qed.

Lemma runs_to_lastTS rs st st' :
  runs_to rs st st' ->
  0 <= Time.instant (lastTS st) ->
  Forall (fun e => 0 <= Time.instant (entryTime e)) (entriesRead rs) ->
  Time.instant (lastTS st') =
  Z.max (Time.instant (lastTS st)) (latest (map entryTime (entriesRead rs))).
Proof.
  assert (Hstep : forall st entry st1,
             processEntry st entry = inr st1 ->
             0 <= Time.instant (lastTS st) -> 0 <= Time.instant (entryTime entry) ->
             Time.instant (lastTS st1)
             = Z.max (Time.instant (lastTS st)) (Time.instant (entryTime entry))).
  { intros s0 entry s1 Hp H0 He. rewrite (processEntry_lastTS _ _ _ Hp).
    unfold Time.After, Time.IsZero.
    destruct (Z.ltb_spec (Time.instant (lastTS s0)) (Time.instant (entryTime entry)));
      destruct (Z.eqb_spec (Time.instant (lastTS s0)) 0); simpl; lia. }
  induction 1 as [st|rest st|rest st st' _ IH|doc entry rest st st1 Hd Hp
                  |doc entry rest st st1 st' Hd Hp _ IH];
    intros H0 Hall; cbn [entriesRead isEOF] in *.
  - cbn. lia.
  - cbn. lia.
  - now apply IH.
  - rewrite Hd in *. cbn in Hall |- *. inversion Hall; subst.
    rewrite (Hstep _ _ _ Hp) by assumption. lia.
  - rewrite Hd in *. cbn [app map latest fold_right] in Hall |- *.
    inversion Hall as [|? ? He Hrest]; subst.
    pose proof (Hstep _ _ _ Hp H0 He) as E1.
    rewrite IH; [|lia|assumption].
    rewrite E1. fold (latest (map entryTime (entriesRead rest))). lia.
Qed.

(** What one entry does to the identifier, the directory and the creation
    time. *)
Lemma processEntry_meta st entry st1 :
  processEntry st entry = inr st1 ->
  match metaOf entry with
  | Some p =>
      ID (session st1) = metaID p /\ WorkingDir (session st1) = metaCWD p
      /\ match parseTimestamp (metaTimestamp p) with
         | Some t => CreatedAt (session st1) = t /\ createdSet st1 = true
         | None => CreatedAt (session st1) = CreatedAt (session st)
                   /\ createdSet st1 = createdSet st
         end
  | None =>
      ID (session st1) = ID (session st)
      /\ WorkingDir (session st1) = WorkingDir (session st)
      /\ CreatedAt (session st1) = CreatedAt (session st)
      /\ createdSet st1 = createdSet st
  end
  /\ FilePaths (session st1) = FilePaths (session st).
Proof.
  unfold Sessions.processEntry, metaOf. intros H.
  destruct (String.eqb (Type_ entry) "session_meta").
  - destruct (Unmarshal _ _ (Payload entry)) as [payload|]; [|discriminate].
    destruct (parseTimestamp (metaTimestamp payload)); cbn [lastTS session] in H;
      match type of H with
      | (if ?c then _ else _) = _ => destruct c; injection H as <-; cbn; auto
      end.
  - match type of H with
    | (if ?c then _ else _) = _ => destruct c; injection H as <-; cbn; auto
    end.
Qed.

Lemma metasRead_cons_text doc entry err rest :
  Unmarshal (intoStruct setLogEntry) zeroLogEntry doc = Some entry ->
  metasRead ((Text doc, err) :: rest) =
  match metaOf entry with Some p => [p] | None => [] end
  ++ (if isEOF err then [] else metasRead rest).
Proof.
  intros Hd. unfold metasRead. cbn [entriesRead]. rewrite Hd.
  cbn [app omap list_omap]. destruct (metaOf entry), (isEOF err); reflexivity.
Qed.

Lemma seedsRead_cons_text doc entry err rest :
  Unmarshal (intoStruct setLogEntry) zeroLogEntry doc = Some entry ->
  seedsRead ((Text doc, err) :: rest) =
  match metaOf entry with
  | Some p => match parseTimestamp (metaTimestamp p) with Some t => [t] | None => [] end
  | None => []
  end ++ (if isEOF err then [] else seedsRead rest).
Proof.
  intros Hd. unfold Sessions.seedsRead. rewrite (metasRead_cons_text _ _ _ _ Hd).
  rewrite omap_app. f_equal; [|destruct (isEOF err); reflexivity].
  destruct (metaOf entry) as [p|]; [|reflexivity].
  cbn [omap list_omap]. destruct (parseTimestamp (metaTimestamp p)); reflexivity.
Qed.

Lemma last_app_or {A : Type} (xs ys : list A) :
  last (xs ++ ys) = match last ys with Some y => Some y | None => last xs end.
Proof.
  destruct ys as [|y ys] using rev_ind.
  - now rewrite app_nil_r.
  - rewrite app_assoc, !last_snoc. reflexivity.
Qed.

(** The identifier, directory and creation time after a run: those of the
    last record that sets them. *)
Lemma runs_to_meta rs st st' :
  runs_to rs st st' ->
  ID (session st') = match last (metasRead rs) with
                     | Some p => metaID p | None => ID (session st) end
  /\ WorkingDir (session st') = match last (metasRead rs) with
                                | Some p => metaCWD p
                                | None => WorkingDir (session st) end
  /\ CreatedAt (session st') = match last (seedsRead rs) with
                               | Some t => t | None => CreatedAt (session st) end
  /\ createdSet st' = match last (seedsRead rs) with
                      | Some _ => true | None => createdSet st end
  /\ FilePaths (session st') = FilePaths (session st).
Proof.
  induction 1 as [st|rest st|rest st st' _ IH|doc entry rest st st1 Hd Hp
                  |doc entry rest st st1 st' Hd Hp _ IH].
  - cbn. auto.
  - cbn. auto.
  - exact IH.
  - rewrite (metasRead_cons_text _ _ _ _ Hd), (seedsRead_cons_text _ _ _ _ Hd).
    cbn [isEOF]. rewrite !app_nil_r.
    destruct (processEntry_meta _ _ _ Hp) as [Hm Hf].
    destruct (metaOf entry) as [p|].
    + destruct Hm as (H1 & H2 & H3).
      destruct (parseTimestamp (metaTimestamp p)); cbn; intuition.
    + cbn. intuition.
  - rewrite (metasRead_cons_text _ _ _ _ Hd), (seedsRead_cons_text _ _ _ _ Hd).
    cbn [isEOF]. rewrite !last_app_or.
    destruct IH as (I1 & I2 & I3 & I4 & I5).
    destruct (processEntry_meta _ _ _ Hp) as [Hm Hf].
    rewrite I1, I2, I3, I4, I5.
    destruct (last (metasRead rest)) as [q|], (last (seedsRead rest)) as [u|];
      destruct (metaOf entry) as [p|];
      try (destruct Hm as (H1 & H2 & H3);
           destruct (parseTimestamp (metaTimestamp p)));
      cbn; intuition.
Qed.

(** C1, as the code has it. For every file that parses, with no timestamp
    before the zero time, [UpdatedAt] is the latest time among all entries of
    the file, with or without a description (an entry whose timestamp does
    not parse counts as the zero time); it is the zero time when the file
    has no entry. *)
Theorem updatedAt_latest_of_all_entries path rs s :
  parseSessionFile path (Reads rs) = inr s ->
  Forall (fun e => 0 <= Time.instant (entryTime e)) (entriesRead rs) ->
  Time.instant (UpdatedAt s) = latest (map entryTime (entriesRead rs)).
Proof.
  intros Hp Hall. destruct (parse_inr _ _ _ Hp) as (st & Hrun & _ & ->).
  cbn [UpdatedAt].
  rewrite (runs_to_lastTS _ _ _ Hrun); [|cbn; lia|assumption].
  pose proof (latest_nonneg (map entryTime (entriesRead rs))).
  cbn [initState lastTS Time.zero Time.instant]. lia.
Qed.

(** C10. For every file that parses, the identifier and the working
    directory are those of the last [session_meta] record of the file, and
    [CreatedAt] is the metadata timestamp of the last [session_meta] record
    whose timestamp parses (when that is the zero time, [CreatedAt] falls
    back to [UpdatedAt]). *)
Theorem last_session_meta_wins path rs s :
  parseSessionFile path (Reads rs) = inr s ->
  (forall p, last (metasRead rs) = Some p ->
     ID s = metaID p /\ WorkingDir s = metaCWD p)
  /\ (forall t, last (seedsRead rs) = Some t ->
       CreatedAt s = if Time.IsZero t then UpdatedAt s else t).
Proof.
  intros Hp. destruct (parse_inr _ _ _ Hp) as (st & Hrun & _ & ->).
  destruct (runs_to_meta _ _ _ Hrun) as (I1 & I2 & I3 & I4 & _).
  split.
  - intros p Hl. rewrite Hl in I1, I2. cbn. auto.
  - intros t Hl. rewrite Hl in I3, I4. cbn. rewrite I3, I4. reflexivity.
Qed.

(** A file whose lines all decode and whose last [session_meta] record, if
    there is one, carries an empty identifier has no identifier: the parser
    reports the missing identifier. *)
Lemma parse_missing_id path rs st :
  scan rs (initState path) = inr st ->
  (forall p, last (metasRead rs) = Some p -> metaID p = EmptyString) ->
  parseSessionFile path (Reads rs) = inl ErrMissingID.
Proof.
  intros Hs Hlast. unfold Sessions.parseSessionFile. rewrite Hs.
  destruct (runs_to_meta _ _ _ (scan_runs_to _ _ _ Hs)) as (I1 & _).
  assert (E : ID (session st) = EmptyString).
  { rewrite I1. destruct (last (metasRead rs)) as [p|] eqn:El; [|reflexivity].
    now apply Hlast. }
  rewrite E. reflexivity.
Qed.

(** A file that parses contributes its own path, and an identifier. *)
Lemma parse_paths path f s :
  parseSessionFile path f = inr s -> FilePaths s = [path] /\ ID s <> EmptyString.
Proof.
  destruct f as [|rs]; [discriminate|]. intros Hp.
  destruct (parse_inr _ _ _ Hp) as (st & Hrun & Hid & ->).
  destruct (runs_to_meta _ _ _ Hrun) as (_ & _ & _ & _ & I5).
  cbn. split; [exact I5 | exact Hid].
Qed.

End Parser.

(** The file [undescribedLast] has one entry with a description, at
    10:00:05, and a later entry without one, at 10:00:09. *)
Lemma updatedAt_witness :
  Time.instant (UpdatedAt Demo.undescribedLastSession)
  = latest (map (entryTime Rfc3339.timeParse) (entriesRead Demo.undescribedLast)).
Proof.
  apply (updatedAt_latest_of_all_entries Demo.noText Rfc3339.timeParse
           "/r/a.jsonl" Demo.undescribedLast).
  - vm_compute. reflexivity.
  - apply Forall_forall. intros e He.
    assert (Hb : forallb (fun e => 0 <=? Time.instant (entryTime Rfc3339.timeParse e))
                         (entriesRead Demo.undescribedLast) = true)
      by (vm_compute; reflexivity).
    rewrite forallb_forall in Hb. apply Z.leb_le, Hb, list_elem_of_In, He.
Defined.

(** C1 as stated fails on [undescribedLast]: the file parses, its entries
    have the descriptions listed (only the second one is not empty), and
    [UpdatedAt] is the time of the last entry, 10:00:09, not 10:00:05, the
    latest time of an entry with a description. *)
Lemma updatedAt_counterexample :
  parseSessionFile Demo.noText Rfc3339.timeParse "/r/a.jsonl"
                   (Reads Demo.undescribedLast)
  = inr Demo.undescribedLastSession
  /\ map (describeEntry Demo.noText) (entriesRead Demo.undescribedLast)
     = [EmptyString; "user_message: hello"%string; EmptyString]
  /\ Time.instant (UpdatedAt Demo.undescribedLastSession)
     <> updatedAt_of_described Demo.noText Rfc3339.timeParse Demo.undescribedLast.
Proof. repeat split; try (vm_compute; reflexivity). vm_compute. discriminate. Qed.

(** On [twoMetas] the second record decides: its identifier, its directory
    and its metadata timestamp, 09:30, not the 09:00 of the first. *)
Lemma last_session_meta_witness :
  let s := mkSession "S2" (Time.mk 63850152600000000000 0)
                     (Time.mk 63850154405000000000 0) "/second"
                     "session started" ["/r/a.jsonl"%string] in
  (ID s = "S2"%string /\ WorkingDir s = "/second"%string)
  /\ CreatedAt s = Time.mk 63850152600000000000 0.
Proof.
  intros s.
  destruct (last_session_meta_wins Demo.noText Rfc3339.timeParse
              "/r/a.jsonl" Demo.twoMetas s) as [H1 H2].
  - vm_compute. reflexivity.
  - split.
    + apply (H1 (mkSessionMeta "S2" "2024-05-01T09:30:00Z" "/second")).
      vm_compute. reflexivity.
    + apply (H2 (Time.mk 63850152600000000000 0)). vm_compute. reflexivity.
Defined.

End ParserFacts.

(* ===================================================================== *)
(** * The aggregator                                                      *)
(* ===================================================================== *)

Module AggregatorFacts.
Import Str Json Sessions.

Lemma contains_elem (l : list string) (v : string) : contains l v = true <-> v ∈ l.
Proof.
  induction l as [|x l IH]; cbn [contains].
  - split; [discriminate | intros H; inversion H].
  - destruct (String.eqb_spec x v) as [->|Hne].
    + split; [intros _; left | reflexivity].
    + rewrite IH. split; [now right|]. intros H. inversion H; subst; [congruence | assumption].
Qed.

Lemma addPaths_elem (ps existing : list string) (x : string) :
  x ∈ addPaths existing ps <-> x ∈ existing \/ x ∈ ps.
Proof.
  unfold addPaths. revert existing.
  induction ps as [|p ps IH]; intros existing; cbn [fold_left].
  - split; [now left | intros [H|H]; [exact H | inversion H]].
  - rewrite IH. destruct (contains existing p) eqn:Ec.
    + apply contains_elem in Ec. rewrite elem_of_cons.
      intuition (subst; auto).
    + rewrite elem_of_app, list_elem_of_singleton, elem_of_cons. tauto.
Qed.

Lemma addPaths_NoDup (ps existing : list string) :
  NoDup existing -> NoDup (addPaths existing ps).
Proof.
  unfold addPaths. revert existing.
  induction ps as [|p ps IH]; intros existing Hnd; cbn [fold_left]; [exact Hnd|].
  apply IH. destruct (contains existing p) eqn:Ec; [exact Hnd|].
  apply NoDup_app. split; [exact Hnd|]. split.
  - intros x Hx Hp. apply list_elem_of_singleton in Hp as ->.
    apply contains_elem in Hx. congruence.
  - apply NoDup_singleton.
Qed.

Lemma sortStrings_sorted (l : list string) : StronglySorted String.le (sortStrings l).
Proof. apply StronglySorted_merge_sort; apply _. Qed.

Lemma sortStrings_perm (l : list string) : sortStrings l ≡ₚ l.
Proof. apply merge_sort_Permutation. Qed.

(** When both fragments carry a creation time, the merge keeps the earlier
    one. *)
Lemma merge_createdAt_nonzero (existing new : Session) :
  Time.instant (CreatedAt existing) <> 0 ->
  Time.instant (CreatedAt (merge existing new))
  = Z.min (Time.instant (CreatedAt existing)) (Time.instant (CreatedAt new)).
Proof.
  intros H. unfold merge, Time.Before, Time.IsZero.
  destruct (Z.eqb_spec (Time.instant (CreatedAt existing)) 0); [contradiction|].
  rewrite orb_false_r.
  destruct (Z.ltb_spec (Time.instant (CreatedAt new)) (Time.instant (CreatedAt existing)));
    repeat match goal with |- context [if ?c then _ else _] => destruct c end;
    cbn; lia.
Qed.

(** C4. For two fragments of one session with different update times, the
    merged record, with its paths sorted as [Load] emits it, has the
    identifier of both, the last action of the later fragment, the working
    directory of the later fragment when that is not empty, and as paths the
    union of the paths of both, sorted ascending and without duplicates; when
    the new fragment is not the later one, the update time and the last
    action of the record stay and only an empty working directory is filled
    from the new fragment; when the new fragment is the later one and has no
    working directory, the working directory of the record stays. *)
Theorem merge_later_fragment_wins (existing new : Session) :
  ID existing = ID new ->
  Time.instant (UpdatedAt existing) <> Time.instant (UpdatedAt new) ->
  NoDup (FilePaths existing) ->
  let later := if Time.After (UpdatedAt new) (UpdatedAt existing) then new else existing in
  let m := sortPaths (merge existing new) in
  ID m = ID new
  /\ UpdatedAt m = UpdatedAt later
  /\ LastAction m = LastAction later
  /\ (WorkingDir later <> EmptyString -> WorkingDir m = WorkingDir later)
  /\ StronglySorted String.le (FilePaths m)
  /\ NoDup (FilePaths m)
  /\ (forall p, p ∈ FilePaths m <-> p ∈ FilePaths existing \/ p ∈ FilePaths new)
  /\ (Time.After (UpdatedAt new) (UpdatedAt existing) = false ->
       WorkingDir m = if String.eqb (WorkingDir existing) EmptyString
                      then WorkingDir new else WorkingDir existing)
  /\ (Time.After (UpdatedAt new) (UpdatedAt existing) = true ->
       WorkingDir m = if String.eqb (WorkingDir new) EmptyString
                      then WorkingDir existing else WorkingDir new).
Proof.
  intros Hid Hne Hnd later m.
  assert (Hpaths : FilePaths m = sortStrings (addPaths (FilePaths existing) (FilePaths new))).
  { unfold m, merge.
    repeat match goal with |- context [if ?c then _ else _] => destruct c end;
      reflexivity. }
  assert (Hrest : ID m = ID new /\ UpdatedAt m = UpdatedAt later
                  /\ LastAction m = LastAction later
                  /\ (WorkingDir later <> EmptyString -> WorkingDir m = WorkingDir later)
                  /\ (Time.After (UpdatedAt new) (UpdatedAt existing) = false ->
                      WorkingDir m = if String.eqb (WorkingDir existing) EmptyString
                                     then WorkingDir new else WorkingDir existing)
                  /\ (Time.After (UpdatedAt new) (UpdatedAt existing) = true ->
                      WorkingDir m = if String.eqb (WorkingDir new) EmptyString
                                     then WorkingDir existing else WorkingDir new)).
  { unfold m, later, merge.
    destruct (Time.After (UpdatedAt new) (UpdatedAt existing)) eqn:Ea.
    - destruct (String.eqb_spec (WorkingDir new) EmptyString); cbn;
        repeat split; try congruence; try discriminate.
    - destruct (String.eqb_spec (WorkingDir existing) EmptyString) as [E|E];
        destruct (String.eqb_spec (WorkingDir new) EmptyString) as [E'|E']; cbn;
        repeat split; try congruence. }
  destruct Hrest as (H1 & H2 & H3 & H4 & H5 & H6).
  repeat split; try assumption; rewrite ?Hpaths.
  - apply sortStrings_sorted.
  - rewrite sortStrings_perm. now apply addPaths_NoDup.
  - rewrite sortStrings_perm. apply addPaths_elem.
  - rewrite sortStrings_perm. apply addPaths_elem.
Qed.

(** The fragments of [fragmentA] and [fragmentB], as the parser returns
    them. *)
Lemma merge_later_fragment_witness :
  let a := mkSession "S1" (Time.mk 63850154400000000000 0)
                     (Time.mk 63850154405000000000 0) "/work"
                     "user_message: hello" ["/r/a.jsonl"%string] in
  let b := mkSession "S1" (Time.mk 63850154820000000000 0)
                     (Time.mk 63850154820000000000 0) EmptyString
                     "assistant_message: hi there" ["/r/b.jsonl"%string] in
  LastAction (sortPaths (merge a b)) = "assistant_message: hi there"%string
  /\ LastAction (sortPaths (merge b a)) = "assistant_message: hi there"%string
  /\ WorkingDir (sortPaths (merge b a)) = "/work"%string
  /\ WorkingDir (sortPaths (merge a b)) = "/work"%string.
Proof.
  intros a b.
  assert (Ha : NoDup (FilePaths a)) by (apply NoDup_singleton).
  assert (Hb : NoDup (FilePaths b)) by (apply NoDup_singleton).
  assert (Hab : Time.instant (UpdatedAt a) <> Time.instant (UpdatedAt b))
    by (vm_compute; discriminate).
  assert (Hba : Time.instant (UpdatedAt b) <> Time.instant (UpdatedAt a))
    by (vm_compute; discriminate).
  destruct (merge_later_fragment_wins a b eq_refl Hab Ha)
    as (_ & _ & H1 & _ & _ & _ & _ & _ & H4).
  destruct (merge_later_fragment_wins b a eq_refl Hba Hb)
    as (_ & _ & H2 & _ & _ & _ & _ & H3 & _).
  split; [exact H1 | split; [exact H2 | split]].
  - apply H3. vm_compute. reflexivity.
  - apply H4. vm_compute. reflexivity.
Defined.

Section Walk.

Variable jsonText : string -> option json.
Variable timeParse : string -> string -> option Time.t.

#[local] Abbreviation parseSessionFile := (parseSessionFile jsonText timeParse).
#[local] Abbreviation visitStep := (visitStep jsonText timeParse).
#[local] Abbreviation walkAll := (walkAll jsonText timeParse).
#[local] Abbreviation Load := (Load jsonText timeParse).

(** The errors collected so far play no part in a step of the walk. *)
Lemma visitStep_errors (m : gmap string Session) (e : list error) (v : visit) :
  visitStep (mkWalk m e) v
  = mkWalk (byID (visitStep (mkWalk m []) v))
           (e ++ combinedErr (visitStep (mkWalk m []) v)).
Proof.
  destruct v as [path|path|path f]; cbn [Sessions.visitStep byID combinedErr].
  - reflexivity.
  - now rewrite app_nil_r.
  - destruct (negb (String.eqb (Path.Ext path) ".jsonl"));
      [cbn; now rewrite app_nil_r|].
    destruct (parseSessionFile path f) as [err|s]; [reflexivity|].
    destruct (m !! ID s); cbn; now rewrite app_nil_r.
Qed.

Lemma walk_errors (vs : list visit) (m : gmap string Session) (e : list error) :
  fold_left visitStep vs (mkWalk m e)
  = mkWalk (byID (fold_left visitStep vs (mkWalk m [])))
           (e ++ combinedErr (fold_left visitStep vs (mkWalk m []))).
Proof.
  revert m e. induction vs as [|v vs IH]; intros m e; cbn [fold_left].
  - cbn. now rewrite app_nil_r.
  - rewrite (visitStep_errors m e v).
    destruct (visitStep (mkWalk m []) v) as [m1 e1]. cbn [byID combinedErr].
    rewrite (IH m1 (e ++ e1)), (IH m1 e1). cbn [byID combinedErr].
    now rewrite app_assoc.
Qed.

(** [Load] on a root that is a directory. *)
Lemma Load_directory (w : world) (dir root : string) :
  ResolveDir w dir = inr root -> stat w root = StatIsDir ->
  Load w dir = Loaded (finish (byID (walkAll (walk w root))))
                      (combinedErr (walkAll (walk w root))).
Proof. intros Hr Hs. unfold Sessions.Load. now rewrite Hr, Hs. Qed.

(** C8. A file that yields no identifier (its lines all decode and its last
    [session_meta] record, if there is one, carries an empty identifier)
    makes the parser return the missing identifier error; in a walk, the file
    adds this error, under its path, to the combined error, the walk goes on
    with the visits after it from the same map of sessions, and the sessions
    [Load] returns are those of the walk without the file. *)
Theorem file_without_id_is_reported_and_skipped
    (path : string) (rs : list (lineBytes * readErr)) (st : pstate)
    (pre post : list visit) :
  scan jsonText timeParse rs (initState path) = inr st ->
  (forall p, last (metasRead rs) = Some p -> metaID p = EmptyString) ->
  Path.Ext path = ".jsonl"%string ->
  parseSessionFile path (Reads rs) = inl ErrMissingID
  /\ walkAll (pre ++ VisitFile path (Reads rs) :: post)
     = fold_left visitStep post
         (mkWalk (byID (walkAll pre))
                 (combinedErr (walkAll pre) ++ [ErrParse path ErrMissingID]))
  /\ ErrParse path ErrMissingID ∈ combinedErr (walkAll (pre ++ VisitFile path (Reads rs) :: post))
  /\ finish (byID (walkAll (pre ++ VisitFile path (Reads rs) :: post)))
     = finish (byID (walkAll (pre ++ post))).
Proof.
  intros Hs Hall Hext.
  pose proof (ParserFacts.parse_missing_id jsonText timeParse path rs st Hs Hall) as Hp.
  assert (Hw : walkAll (pre ++ VisitFile path (Reads rs) :: post)
               = fold_left visitStep post
                   (mkWalk (byID (walkAll pre))
                           (combinedErr (walkAll pre) ++ [ErrParse path ErrMissingID]))).
  { unfold Sessions.walkAll. rewrite fold_left_app. cbn [fold_left].
    f_equal. cbn [Sessions.visitStep]. rewrite Hext, String.eqb_refl.
    cbn [negb]. now rewrite Hp. }
  split; [exact Hp|]. split; [exact Hw|]. split.
  - rewrite Hw, walk_errors. cbn [combinedErr]. set_solver.
  - f_equal. rewrite Hw, walk_errors. cbn [byID].
    unfold Sessions.walkAll at 2. rewrite fold_left_app.
    destruct (fold_left visitStep pre (mkWalk ∅ [])) as [m e] eqn:E.
    unfold Sessions.walkAll. rewrite E. cbn [byID].
    now rewrite (walk_errors post m e).
Qed.

(** ** What the walk keeps true of every record *)

(** Every record is filed under its identifier, and its paths are free of
    duplicates. *)
Definition recordsOK (m : gmap string Session) : Prop :=
  forall k s, m !! k = Some s -> ID s = k /\ NoDup (FilePaths s).

Lemma merge_fields (existing new : Session) :
  ID (merge existing new) = ID existing
  /\ FilePaths (merge existing new) = addPaths (FilePaths existing) (FilePaths new).
Proof.
  unfold merge.
  repeat match goal with |- context [if ?c then _ else _] => destruct c end;
    split; reflexivity.
Qed.

Lemma visitStep_recordsOK (st : walkState) (v : visit) :
  recordsOK (byID st) -> recordsOK (byID (visitStep st v)).
Proof.
  intros Hok. destruct v as [path|path|path f]; cbn [Sessions.visitStep byID];
    try exact Hok.
  destruct (negb (String.eqb (Path.Ext path) ".jsonl")); [exact Hok|].
  destruct (parseSessionFile path f) as [e|s0] eqn:Ep; [exact Hok|].
  destruct (ParserFacts.parse_paths _ _ _ _ _ Ep) as [Hpaths _].
  destruct (byID st !! ID s0) as [existing|] eqn:El; cbn [byID];
    intros k s; rewrite lookup_insert; case_decide as Hk; intros Hs;
    try (now apply Hok).
  - injection Hs as <-. destruct (merge_fields existing s0) as [-> ->].
    destruct (Hok _ _ El) as [Hid Hnd]. split; [congruence|].
    now apply addPaths_NoDup.
  - injection Hs as <-. cbn. split; [exact Hk|]. rewrite Hpaths. apply NoDup_singleton.
Qed.

Lemma walk_recordsOK (vs : list visit) : recordsOK (byID (walkAll vs)).
Proof.
  unfold Sessions.walkAll.
  assert (H : forall st, recordsOK (byID st) ->
                         recordsOK (byID (fold_left visitStep vs st))).
  { induction vs as [|v vs IH]; intros st Hst; cbn [fold_left]; [exact Hst|].
    apply IH. now apply visitStep_recordsOK. }
  apply H. intros k s Hs. cbn in Hs. now rewrite lookup_empty in Hs.
Qed.

(** A second fragment of a session is merged into the record of the
    session. *)
Lemma visitStep_merges (st : walkState) (path : string) (f : file)
    (s existing : Session) :
  Path.Ext path = ".jsonl"%string ->
  parseSessionFile path f = inr s ->
  byID st !! ID s = Some existing ->
  byID (visitStep st (VisitFile path f)) = <[ID s := merge existing s]> (byID st).
Proof.
  intros Hext Hp Hl. cbn [Sessions.visitStep]. rewrite Hext, String.eqb_refl.
  cbn [negb]. now rewrite Hp, Hl.
Qed.

(** The sessions [Load] returns are the records of the map with their paths
    sorted, each once: no two of them share an identifier. *)
Lemma finish_records (m : gmap string Session) (s : Session) :
  s ∈ finish m <-> exists k r, m !! k = Some r /\ s = sortPaths r.
Proof.
  unfold finish. rewrite merge_sort_Permutation, list_elem_of_fmap. split.
  - intros ([k r] & -> & Hin). apply elem_of_map_to_list in Hin. eauto.
  - intros (k & r & Hl & ->). exists (k, r). split; [reflexivity|].
    now apply elem_of_map_to_list.
Qed.

Lemma finish_distinct_ids (m : gmap string Session) :
  recordsOK m -> NoDup (map ID (finish m)).
Proof.
  intros Hok. unfold finish.
  assert (Hp : map ID (merge_sort newestFirst
                         (map (fun kv => sortPaths (snd kv)) (map_to_list m)))
               ≡ₚ map ID (map (fun kv => sortPaths (snd kv)) (map_to_list m)))
    by (apply Permutation.Permutation_map, merge_sort_Permutation).
  rewrite Hp, map_map.
  assert (E : map (fun kv => ID (sortPaths (snd kv))) (map_to_list m)
              = (map_to_list m).*1).
  { apply map_ext_in. intros [k r] Hin. apply list_elem_of_In, elem_of_map_to_list in Hin.
    cbn. now apply Hok in Hin as [-> _]. }
  rewrite E. apply NoDup_fst_map_to_list.
Qed.

End Walk.

(** The file [noMeta] between the two fragments of a session: one session
    comes out, and the error of the file. *)
Lemma file_without_id_witness :
  Sessions.parseSessionFile Demo.noText Rfc3339.timeParse "/r/c.jsonl" (Reads Demo.noMeta)
  = inl ErrMissingID
  /\ ErrParse "/r/c.jsonl" ErrMissingID
     ∈ combinedErr (Sessions.walkAll Demo.noText Rfc3339.timeParse
                      ([VisitDir "/r"; VisitFile "/r/a.jsonl" (Reads Demo.fragmentA)]
                       ++ VisitFile "/r/c.jsonl" (Reads Demo.noMeta)
                       :: [VisitFile "/r/d.jsonl" (Reads Demo.fragmentB)])).
Proof.
  destruct (file_without_id_is_reported_and_skipped Demo.noText Rfc3339.timeParse
              "/r/c.jsonl" Demo.noMeta
              (mkPstate (mkSession EmptyString Time.zero Time.zero EmptyString
                                   "user_message: hello" ["/r/c.jsonl"%string])
                        false (Time.mk 63850154405000000000 0))
              [VisitDir "/r"; VisitFile "/r/a.jsonl" (Reads Demo.fragmentA)]
              [VisitFile "/r/d.jsonl" (Reads Demo.fragmentB)])
    as (H1 & _ & H3 & _).
  - vm_compute. reflexivity.
  - intros p Hp. vm_compute in Hp. discriminate Hp.
  - vm_compute. reflexivity.
  - split; assumption.
Defined.

(** C3, on the files [fragmentA], whose metadata gives the creation time
    10:00, and [fragmentUntimed], a fragment of the same session without any
    timestamp: the merged session has the zero time as [CreatedAt]. *)
Theorem untimed_fragment_resets_createdAt :
  Sessions.Load Demo.noText Rfc3339.timeParse
    (Demo.worldOf [("/r/a.jsonl"%string, Demo.fragmentA);
                   ("/r/b.jsonl"%string, Demo.fragmentUntimed)]) "/r"
  = Loaded [mkSession "S1" Time.zero (Time.mk 63850154405000000000 0) "/work"
                      "user_message: hello" ["/r/a.jsonl"%string; "/r/b.jsonl"%string]]
           []
  /\ Sessions.parseSessionFile Demo.noText Rfc3339.timeParse "/r/a.jsonl"
       (Reads Demo.fragmentA)
     = inr (mkSession "S1" (Time.mk 63850154400000000000 0)
                      (Time.mk 63850154405000000000 0) "/work"
                      "user_message: hello" ["/r/a.jsonl"%string])
  /\ Sessions.parseSessionFile Demo.noText Rfc3339.timeParse "/r/b.jsonl"
       (Reads Demo.fragmentUntimed)
     = inr (mkSession "S1" Time.zero Time.zero EmptyString "session started"
                      ["/r/b.jsonl"%string]).
Proof. repeat split; vm_compute; reflexivity. Qed.

(** The scenario of the specification: two fragments of [S1] give one session
    created at 10:00, updated at 10:07, with both paths. *)
Example Load_two_fragments :
  Sessions.Load Demo.noText Rfc3339.timeParse
    (Demo.worldOf [("/r/a.jsonl"%string, Demo.fragmentA);
                   ("/r/b.jsonl"%string, Demo.fragmentB)]) "/r"
  = Loaded [mkSession "S1" (Time.mk 63850154400000000000 0)
                      (Time.mk 63850154820000000000 0) "/work"
                      "assistant_message: hi there"
                      ["/r/a.jsonl"%string; "/r/b.jsonl"%string]]
           [].
Proof. vm_compute. reflexivity. Qed.

End AggregatorFacts.

(* ===================================================================== *)
(** * The selection model                                                 *)
(* ===================================================================== *)

Module UiFacts.
Import Str Sessions Ui.

(** ** The order of [sort.Slice] and the moves of the cursor *)

Lemma ltb_leb (a b : string) : String.ltb b a = negb (String.leb a b).
Proof.
  unfold String.ltb, String.leb. rewrite (String.compare_antisym a b).
  destruct (String.compare b a); reflexivity.
Qed.

Lemma notAfter_lex (rows : list row) (a b : Rank) :
  notAfter rows a b <->
  Distance a < Distance b
  \/ (Distance a = Distance b
      /\ (Time.instant (UpdatedAt (sessionAt rows (OriginalIndex b)))
          < Time.instant (UpdatedAt (sessionAt rows (OriginalIndex a)))
          \/ (Time.instant (UpdatedAt (sessionAt rows (OriginalIndex a)))
              = Time.instant (UpdatedAt (sessionAt rows (OriginalIndex b)))
              /\ String.le (ID (sessionAt rows (OriginalIndex a)))
                           (ID (sessionAt rows (OriginalIndex b)))))).
Proof.
  unfold notAfter, less, Time.Equal, Time.After, String.le.
  destruct (Z.eqb_spec (Distance b) (Distance a)) as [Ed|Ed].
  - destruct (Z.eqb_spec (Time.instant (UpdatedAt (sessionAt rows (OriginalIndex b))))
                         (Time.instant (UpdatedAt (sessionAt rows (OriginalIndex a)))))
      as [Eu|Eu].
    + rewrite ltb_leb, negb_false_iff, <- Is_true_true. intuition lia.
    + rewrite Z.ltb_ge. intuition lia.
  - rewrite Z.ltb_ge. intuition lia.
Qed.

(** Closes a goal of the lexicographic form of [notAfter_lex] from the
    comparisons among the hypotheses. *)
Ltac lex_solve :=
  first [ left; lia
        | right; split;
          [ lia
          | first [ left; lia
                  | right; split; [lia | first [assumption | etrans; eassumption]] ] ] ].

#[local] Instance notAfter_total (rows : list row) : Total (notAfter rows).
Proof.
  intros a b. rewrite !notAfter_lex.
  destruct (total String.le (ID (sessionAt rows (OriginalIndex a)))
                            (ID (sessionAt rows (OriginalIndex b))));
    destruct (Z.lt_trichotomy (Distance a) (Distance b)) as [?|[?|?]];
    destruct (Z.lt_trichotomy
                (Time.instant (UpdatedAt (sessionAt rows (OriginalIndex a))))
                (Time.instant (UpdatedAt (sessionAt rows (OriginalIndex b)))))
      as [?|[?|?]];
    first [left; lex_solve | right; lex_solve].
Qed.

#[local] Instance notAfter_trans (rows : list row) : Transitive (notAfter rows).
Proof.
  intros a b c. rewrite !notAfter_lex.
  intros [?|[? [?|[? ?]]]] [?|[? [?|[? ?]]]]; lex_solve.
Qed.

Lemma sortRanks_perm (rows : list row) (l : list Rank) : sortRanks rows l ≡ₚ l.
Proof. apply merge_sort_Permutation. Qed.

Lemma sortRanks_sorted (rows : list row) (l : list Rank) :
  StronglySorted (notAfter rows) (sortRanks rows l).
Proof. apply StronglySorted_merge_sort; apply _. Qed.

Lemma clamp_bounds (len sel : Z) :
  0 < len -> 0 <= clamp len sel <= len - 1.
Proof.
  intros H. unfold clamp.
  destruct (Z.eqb_spec len 0); [lia|].
  destruct (Z.leb_spec len sel); destruct (Z.ltb_spec (len - 1) 0);
    try destruct (Z.ltb_spec sel 0); lia.
Qed.

Lemma refreshTable_wellFormed (m : model) : wellFormed m -> wellFormed (refreshTable m).
Proof.
  unfold wellFormed, cursorOK, indicesOK, refreshTable. intros [Hc Hi].
  destruct (filtered m) as [|i f] eqn:Ef; [rewrite Ef; auto|].
  destruct (Z.leb_spec (Z.of_nat (length (i :: f))) (selected m));
    cbn [withFilter filtered selected entries]; rewrite ?Ef; split; auto.
  cbn [length] in *. lia.
Qed.

Lemma moveSelectionBy_wellFormed (delta : Z) (m : model) :
  wellFormed m -> wellFormed (moveSelectionBy delta m).
Proof.
  unfold wellFormed, cursorOK, indicesOK, moveSelectionBy. intros [Hc Hi].
  destruct (filtered m) as [|i f] eqn:Ef; [rewrite Ef; auto|].
  cbn [withFilter filtered selected entries]. split; [|exact Hi].
  cbn [length] in *.
  destruct (Z.ltb_spec (wrap (selected m + delta)) 0); [lia|].
  destruct (Z.leb_spec (Z.of_nat (S (length f))) (wrap (selected m + delta))); lia.
Qed.

Lemma selectionChanged_wellFormed (tableRow : Z) (m : model) :
  wellFormed m -> wellFormed (selectionChanged tableRow m).
Proof.
  unfold wellFormed, cursorOK, indicesOK, selectionChanged. intros [Hc Hi].
  destruct (filtered m) as [|i f] eqn:Ef.
  - rewrite orb_true_r. cbn. rewrite ?Ef. auto.
  - cbn [length Nat.eqb]. rewrite orb_false_r.
    destruct (Z.leb_spec tableRow 0); cbn [withFilter filtered selected entries];
      rewrite ?Ef; (split; [|exact Hi]); cbn [length] in *; [lia|].
    destruct (Z.leb_spec (Z.of_nat (S (length f))) (tableRow - 1)); lia.
Qed.

Lemma wellFormed_fields (m m' : model) :
  entries m' = entries m -> filtered m' = filtered m -> selected m' = selected m ->
  wellFormed m -> wellFormed m'.
Proof.
  unfold wellFormed, cursorOK, indicesOK. intros -> -> ->. auto.
Qed.

(** On a well-formed model the two index expressions of [deleteSelected] and
    of the confirm key do not panic. *)
Lemma selected_row (m : model) :
  wellFormed m -> filtered m <> [] ->
  exists idx r, index (filtered m) (selected m) = Some idx /\ entries m !! idx = Some r.
Proof.
  unfold wellFormed, cursorOK, indicesOK, index. intros [Hc Hi] Hne.
  destruct (filtered m) as [|i f] eqn:Ef; [congruence|].
  destruct (Z.ltb_spec (selected m) 0); [lia|].
  destruct ((i :: f) !! Z.to_nat (selected m)) as [idx|] eqn:El.
  - rewrite Forall_forall in Hi.
    assert (Hlt : (idx < length (entries m))%nat)
      by (apply Hi, (list_elem_of_lookup_2 _ _ _ El)).
    apply lookup_lt_is_Some in Hlt as [r Hr]. eauto.
  - apply lookup_ge_None in El. cbn [length] in *. lia.
Qed.

Lemma removeAt_split {A : Type} (l : list A) (i : nat) (x : A) :
  l !! i = Some x ->
  exists before after,
    l = before ++ x :: after /\ length before = i /\ removeAt i l = before ++ after.
Proof.
  intros H. exists (firstn i l), (skipn (S i) l). split; [|split].
  - rewrite <- (take_drop_middle l i x H) at 1. reflexivity.
  - apply length_take_le. apply lookup_lt_Some in H. lia.
  - reflexivity.
Qed.

Lemma sorted_perm_unique {A : Type} (R : relation A) (l1 l2 : list A) :
  (forall x y, x ∈ l1 -> y ∈ l1 -> R x y -> R y x -> x = y) ->
  StronglySorted R l1 -> StronglySorted R l2 -> l1 ≡ₚ l2 -> l1 = l2.
Proof.
  revert l2. induction l1 as [|x l1 IH]; intros l2 Hanti H1 H2 Hp.
  - now apply Permutation_nil in Hp.
  - destruct l2 as [|y l2];
      [symmetry in Hp; now apply Permutation_nil in Hp|].
    apply StronglySorted_inv in H1 as [H1 Hx]. apply StronglySorted_inv in H2 as [H2 Hy].
    rewrite Forall_forall in Hx, Hy.
    assert (Exy : x = y).
    { assert (Hxin : x ∈ y :: l2) by (rewrite <- Hp; left).
      assert (Hyin : y ∈ x :: l1) by (rewrite Hp; left).
      apply elem_of_cons in Hxin as [E|Hxin]; [exact E|].
      apply elem_of_cons in Hyin as [E|Hyin]; [now symmetry|].
      apply Hanti; [left | now right | now apply Hx | now apply Hy]. }
    subst y. f_equal. apply IH; try assumption.
    + intros a b Ha Hb. apply Hanti; now right.
    + now apply Permutation.Permutation_cons_inv in Hp.
Qed.

Lemma ranksBefore_total (dist : string -> string -> Z) (q : string) (rows : list row) (i j : nat) :
  Ui.ranksBefore dist q rows i j \/ Ui.ranksBefore dist q rows j i.
Proof.
  unfold Ui.ranksBefore.
  destruct (total String.le (ID (sessionAt rows i)) (ID (sessionAt rows j)));
    destruct (Z.lt_trichotomy (dist q (keyAt rows i))
                              (dist q (keyAt rows j))) as [?|[?|?]];
    destruct (Z.lt_trichotomy (Time.instant (UpdatedAt (sessionAt rows i)))
                              (Time.instant (UpdatedAt (sessionAt rows j))))
      as [?|[?|?]];
    first [left; lex_solve | right; lex_solve].
Qed.

Lemma ranksBefore_antisym (dist : string -> string -> Z) (q : string) (rows : list row) (i j : nat) :
  distinctIDs rows -> (i < length rows)%nat -> (j < length rows)%nat ->
  Ui.ranksBefore dist q rows i j -> Ui.ranksBefore dist q rows j i -> i = j.
Proof.
  unfold Ui.ranksBefore, sessionAt. intros Hd Hi Hj Hij Hji.
  apply lookup_lt_is_Some in Hi as [a Ha]. apply lookup_lt_is_Some in Hj as [b Hb].
  rewrite Ha, Hb in Hij, Hji. apply (Hd i j a b Ha Hb).
  apply (anti_symm String.le); intuition lia.
Qed.

Lemma sorted_indices (dist : string -> string -> Z) (q : string) (rows : list row)
    (l : list Rank) :
  Forall (fun r => Distance r = dist q (keyAt rows (OriginalIndex r))) l ->
  StronglySorted (notAfter rows) l ->
  StronglySorted (Ui.ranksBefore dist q rows) (map OriginalIndex l).
Proof.
  induction l as [|a l IH]; intros Hg Hs; [constructor|].
  apply Forall_cons in Hg as [Ha Hg]. apply StronglySorted_inv in Hs as [Hs Hall].
  cbn [map]. constructor; [now apply IH|].
  apply Forall_fmap, Forall_forall. intros b Hb.
  rewrite Forall_forall in Hall, Hg.
  specialize (Hall b Hb). specialize (Hg b Hb). apply notAfter_lex in Hall.
  unfold Ui.ranksBefore. cbn. rewrite <- Ha, <- Hg. exact Hall.
Qed.

Section Model.

Variable fuzzyMatchFold : string -> string -> bool.
Variable LevenshteinDistance : string -> string -> Z.
Variable ToLower : string -> string.
Variable formatRFC3339 : Time.t -> string.
Variable errorText : list error -> string.

#[local] Abbreviation newModel := (newModel ToLower formatRFC3339).
#[local] Abbreviation rankFrom := (rankFrom fuzzyMatchFold LevenshteinDistance).
#[local] Abbreviation RankFindFold := (RankFindFold fuzzyMatchFold LevenshteinDistance).
#[local] Abbreviation rank := (rank fuzzyMatchFold LevenshteinDistance).
#[local] Abbreviation applyFilter := (applyFilter fuzzyMatchFold LevenshteinDistance).
#[local] Abbreviation deleteSelected :=
  (deleteSelected fuzzyMatchFold LevenshteinDistance errorText).
#[local] Abbreviation handleEvent :=
  (handleEvent fuzzyMatchFold LevenshteinDistance errorText).
#[local] Abbreviation ranksBefore := (ranksBefore LevenshteinDistance).

(** ** The ranks of the matcher *)

Lemma rankFrom_elem (q : string) (targets : list string) (i : nat) (r : Rank) :
  r ∈ rankFrom i q targets <->
  exists k t, targets !! k = Some t /\ fuzzyMatchFold q t = true
              /\ r = mkRank q t (LevenshteinDistance q t) (i + k).
Proof.
  revert i. induction targets as [|t targets IH]; intros i; cbn [Ui.rankFrom].
  - split; [intros H; inversion H | intros (k & t & H & _); discriminate].
  - assert (Htail : r ∈ rankFrom (S i) q targets <->
                    exists k u, targets !! k = Some u /\ fuzzyMatchFold q u = true
                                /\ r = mkRank q u (LevenshteinDistance q u) (i + S k)).
    { rewrite IH. split; intros (k & u & H1 & H2 & H3); exists k, u;
        (split; [exact H1 | split; [exact H2|]]); rewrite H3; f_equal; lia. }
    destruct (fuzzyMatchFold q t) eqn:Em.
    + rewrite elem_of_cons, Htail. split.
      * intros [-> | (k & u & H1 & H2 & H3)].
        -- exists 0%nat, t. rewrite Nat.add_0_r. auto.
        -- exists (S k), u. auto.
      * intros ([|k] & u & H1 & H2 & H3).
        -- left. cbn in H1. injection H1 as <-. now rewrite Nat.add_0_r in H3.
        -- right. exists k, u. auto.
    + rewrite Htail. split.
      * intros (k & u & H1 & H2 & H3). exists (S k), u. auto.
      * intros ([|k] & u & H1 & H2 & H3).
        -- cbn in H1. injection H1 as <-. congruence.
        -- exists k, u. auto.
Qed.

Lemma rankFrom_indices_lt (q : string) (targets : list string) (i : nat) :
  Forall (fun r => (i <= OriginalIndex r)%nat) (rankFrom i q targets).
Proof.
  apply Forall_forall. intros r Hr.
  apply rankFrom_elem in Hr. destruct Hr as (k & t & _ & _ & ->). cbn. lia.
Qed.

Lemma rankFrom_NoDup (q : string) (targets : list string) (i : nat) :
  NoDup (map OriginalIndex (rankFrom i q targets)).
Proof.
  revert i. induction targets as [|t targets IH]; intros i; cbn [Ui.rankFrom].
  - constructor.
  - destruct (fuzzyMatchFold q t); [|apply IH].
    cbn [map OriginalIndex]. constructor; [|apply IH].
    intros Hin. apply list_elem_of_fmap in Hin. destruct Hin as (r & Hr & Hin).
    pose proof (rankFrom_indices_lt q targets (S i)) as Hall.
    rewrite Forall_forall in Hall. specialize (Hall r Hin). lia.
Qed.

(** ** The indices of [rank] *)

Lemma rank_nonempty_query (q : string) (rows : list row) :
  TrimSpace q <> EmptyString ->
  rank q rows
  = map OriginalIndex (sortRanks rows (RankFindFold (TrimSpace q) (map searchKey rows))).
Proof.
  intros H. unfold Ui.rank.
  destruct (String.eqb_spec (TrimSpace q) EmptyString); [contradiction | reflexivity].
Qed.

Lemma rank_elem (q : string) (rows : list row) (i : nat) :
  TrimSpace q <> EmptyString ->
  i ∈ rank q rows <->
  exists r, rows !! i = Some r /\ fuzzyMatchFold (TrimSpace q) (searchKey r) = true.
Proof.
  intros H. rewrite (rank_nonempty_query _ _ H), sortRanks_perm.
  rewrite list_elem_of_fmap. unfold Ui.RankFindFold. split.
  - intros (r & -> & Hr). apply rankFrom_elem in Hr as (k & t & Hk & Hm & ->).
    cbn. change (map searchKey rows) with (searchKey <$> rows) in Hk.
    rewrite list_lookup_fmap in Hk.
    destruct (rows !! k) as [r|] eqn:Er; [|discriminate].
    cbn in Hk. injection Hk as <-. eauto.
  - intros (r & Hr & Hm).
    exists (mkRank (TrimSpace q) (searchKey r)
                   (LevenshteinDistance (TrimSpace q) (searchKey r)) i).
    split; [reflexivity|]. apply rankFrom_elem. exists i, (searchKey r).
    change (map searchKey rows) with (searchKey <$> rows).
    rewrite list_lookup_fmap, Hr. auto.
Qed.

Lemma rank_indices (q : string) (rows : list row) :
  Forall (fun i => (i < length rows)%nat) (rank q rows).
Proof.
  apply Forall_forall. intros i Hi.
  destruct (String.eqb_spec (TrimSpace q) EmptyString) as [E|E].
  - unfold Ui.rank in Hi. rewrite E in Hi. cbn in Hi.
    apply elem_of_seq in Hi. lia.
  - apply (rank_elem _ _ _ E) in Hi as (r & Hr & _).
    now apply lookup_lt_Some in Hr.
Qed.

Lemma rank_nil (q : string) : rank q [] = [].
Proof.
  unfold Ui.rank. destruct (String.eqb (TrimSpace q) EmptyString); reflexivity.
Qed.

(** ** The cursor *)

Lemma applyFilter_wellFormed (m : model) : wellFormed (applyFilter m).
Proof.
  unfold Ui.applyFilter, wellFormed, cursorOK, indicesOK.
  destruct (entries m) as [|r rows] eqn:Er; cbn [withFilter filtered selected entries].
  - split; [reflexivity | constructor].
  - rewrite Er. split; [|apply rank_indices].
    destruct (rank (query m) (r :: rows)) as [|i f] eqn:Ef; [reflexivity|].
    apply clamp_bounds. cbn [length]. lia.
Qed.

Lemma applyFilter_fields (m : model) :
  entries (applyFilter m) = entries m
  /\ filtered (applyFilter m) = rank (query m) (entries m)
  /\ query (applyFilter m) = query m
  /\ status (applyFilter m) = status m.
Proof.
  unfold Ui.applyFilter. destruct (entries m) eqn:Er; cbn; rewrite ?rank_nil; auto.
Qed.

Lemma deleteSelected_wellFormed (m : model) (fs : Fs.fsys) :
  wellFormed m ->
  exists m' fs', deleteSelected m fs = Some (m', fs') /\ wellFormed m'.
Proof.
  intros Hwf. unfold Ui.deleteSelected.
  destruct (filtered m) as [|i f] eqn:Ef.
  - eexists _, _. split; [reflexivity|].
    apply (wellFormed_fields m); [reflexivity.. | exact Hwf].
  - destruct (selected_row m Hwf) as (idx & r & Hidx & Hr); [congruence|].
    rewrite Ef in Hidx. rewrite Hidx, Hr.
    destruct (DeleteFiles (rowSession r) (sessionsRoot m) fs) as [fs' [|e err]].
    + eexists _, _. split; [reflexivity | apply applyFilter_wellFormed].
    + eexists _, _. split; [reflexivity|].
      apply (wellFormed_fields m); [reflexivity.. | exact Hwf].
Qed.

(** C5. The model [run] starts from is well formed, and from a well-formed
    model every key, every move of the cursor by a delta, every deletion and
    every change of the selection by the table gives a well-formed model,
    without a panic: the cursor is 0 when the filtered view is empty and
    within [0, len(filtered) - 1] otherwise. *)
Theorem cursor_stays_in_bounds :
  (forall items root initialStatus,
     wellFormed (refreshTable (applyFilter (newModel items root initialStatus))))
  /\ (forall m fs,
       wellFormed m ->
       (forall k, exists m' fs' sig,
           handleEvent k m fs = Some (m', fs', sig) /\ wellFormed m')
       /\ (forall delta, wellFormed (moveSelectionBy delta m))
       /\ (exists m' fs', deleteSelected m fs = Some (m', fs') /\ wellFormed m')
       /\ (forall tableRow, wellFormed (selectionChanged tableRow m))).
Proof.
  split.
  { intros. apply refreshTable_wellFormed, applyFilter_wellFormed. }
  intros m fs Hwf. split; [|split; [|split]].
  - intros k. unfold Ui.handleEvent.
    destruct k as [r| | | | | | | |].
    + destruct (Utf8.IsControl r); eexists _, _, _; (split; [reflexivity|]);
        [exact Hwf | apply refreshTable_wellFormed, applyFilter_wellFormed].
    + destruct (negb (String.eqb (query m) EmptyString));
        eexists _, _, _; (split; [reflexivity|]);
        [apply refreshTable_wellFormed, applyFilter_wellFormed | exact Hwf].
    + destruct (negb (String.eqb (query m) EmptyString));
        eexists _, _, _; (split; [reflexivity|]);
        [apply refreshTable_wellFormed, applyFilter_wellFormed|].
      apply (wellFormed_fields m); [reflexivity.. | exact Hwf].
    + destruct (filtered m) as [|i f] eqn:Ef.
      * eexists _, _, _. split; [reflexivity | exact Hwf].
      * destruct (selected_row m Hwf) as (idx & r & Hidx & Hr); [congruence|].
        rewrite Ef in Hidx. rewrite Hidx, Hr.
        eexists _, _, _. split; [reflexivity|].
        apply (wellFormed_fields m); [reflexivity.. | exact Hwf].
    + destruct (deleteSelected_wellFormed m fs Hwf) as (m' & fs' & Hd & Hwf').
      rewrite Hd. eexists _, _, _. split; [reflexivity|].
      now apply refreshTable_wellFormed.
    + eexists _, _, _. split; [reflexivity | now apply moveSelectionBy_wellFormed].
    + eexists _, _, _. split; [reflexivity | now apply moveSelectionBy_wellFormed].
    + eexists _, _, _. split; [reflexivity|].
      apply (wellFormed_fields m); [reflexivity.. | exact Hwf].
    + eexists _, _, _. split; [reflexivity | exact Hwf].
  - intros delta. now apply moveSelectionBy_wellFormed.
  - now apply deleteSelected_wellFormed.
  - intros tableRow. now apply selectionChanged_wellFormed.
Qed.

(** C9. With an empty filtered view, the deletion reports that there is
    nothing to delete and changes nothing else, the files included. With a
    selected row, when [DeleteFiles] returns an error, the status reports it
    and the rows, the filtered view, the query and the cursor are unchanged;
    when it returns none, exactly the selected row leaves the row list and
    the filtered view is the ranking of the query over the remaining rows.
    On a well-formed model the selected row exists. *)
Theorem deleteSelected_outcomes (m : model) (fs : Fs.fsys) :
  (filtered m = [] ->
   deleteSelected m fs = Some (setStatus "Nothing to delete" m, fs))
  /\ (forall idx r fs' err,
       filtered m <> [] ->
       index (filtered m) (selected m) = Some idx ->
       entries m !! idx = Some r ->
       DeleteFiles (rowSession r) (sessionsRoot m) fs = (fs', err) ->
       exists m',
         deleteSelected m fs = Some (m', fs')
         /\ (err <> [] ->
             entries m' = entries m /\ filtered m' = filtered m
             /\ query m' = query m /\ selected m' = selected m
             /\ status m' = "Delete failed: " +:+ errorText err)
         /\ (err = [] ->
             (exists before after,
                 entries m = before ++ r :: after /\ length before = idx
                 /\ entries m' = before ++ after)
             /\ filtered m' = rank (query m) (entries m')
             /\ query m' = query m
             /\ status m' = "Session " +:+ ID (rowSession r) +:+ " deleted"))
  /\ (wellFormed m -> filtered m <> [] ->
      exists idx r, index (filtered m) (selected m) = Some idx
                    /\ entries m !! idx = Some r).
Proof.
  split; [|split].
  - intros Ef. unfold Ui.deleteSelected. now rewrite Ef.
  - intros idx r fs' err Hne Hidx Hr Hdel. unfold Ui.deleteSelected.
    destruct (filtered m) as [|i f] eqn:Ef; [congruence|].
    rewrite Hidx, Hr, Hdel. destruct err as [|e err].
    + eexists. split; [reflexivity|]. split; [congruence|]. intros _.
      match goal with
      | |- context [applyFilter ?x] =>
          destruct (applyFilter_fields x) as (He & Hf & Hq & Hs)
      end.
      rewrite He, Hf, Hq, Hs. cbn [setStatus setEntries entries query status].
      repeat split; try reflexivity.
      destruct (removeAt_split (entries m) idx r Hr) as (before & after & H1 & H2 & H3).
      exists before, after. auto.
    + eexists. split; [reflexivity|]. split; [|congruence]. intros _.
      cbn. rewrite ?Ef. auto.
  - apply selected_row.
Qed.

(** ** The order of the ranking *)

Lemma RankFindFold_distance (q : string) (rows : list row) :
  Forall (fun r => Distance r = LevenshteinDistance q (keyAt rows (OriginalIndex r)))
         (RankFindFold q (map searchKey rows)).
Proof.
  apply Forall_forall. intros r Hr. apply rankFrom_elem in Hr as (k & t & Hk & _ & ->).
  cbn. unfold keyAt. change (map searchKey rows) with (searchKey <$> rows) in Hk.
  rewrite list_lookup_fmap in Hk. destruct (rows !! k); [|discriminate].
  cbn in Hk. now injection Hk as <-.
Qed.

(** C6. With a query that is empty once trimmed, the ranking is the list of
    all indices in their order. Otherwise it holds exactly the indices of the
    rows whose search key matches the trimmed query, each once, ordered by
    ascending distance, then by descending update time, then by ascending
    identifier; that order is total, and when no two rows share an
    identifier it leaves one list only: every list with these indices in
    this order is the ranking. *)
Theorem rank_orders_the_matches (q : string) (rows : list row) :
  (TrimSpace q = EmptyString -> rank q rows = seq 0 (length rows))
  /\ (TrimSpace q <> EmptyString ->
      (forall i, i ∈ rank q rows <->
                 exists r, rows !! i = Some r
                           /\ fuzzyMatchFold (TrimSpace q) (searchKey r) = true)
      /\ NoDup (rank q rows)
      /\ StronglySorted (ranksBefore (TrimSpace q) rows) (rank q rows)
      /\ (forall i j, ranksBefore (TrimSpace q) rows i j
                      \/ ranksBefore (TrimSpace q) rows j i)
      /\ (distinctIDs rows ->
          forall out, out ≡ₚ rank q rows ->
                      StronglySorted (ranksBefore (TrimSpace q) rows) out ->
                      out = rank q rows)).
Proof.
  split.
  - intros E. unfold Ui.rank. now rewrite E.
  - intros E.
    assert (Hsorted : StronglySorted (ranksBefore (TrimSpace q) rows) (rank q rows)).
    { rewrite (rank_nonempty_query _ _ E). apply sorted_indices.
      - rewrite sortRanks_perm. apply RankFindFold_distance.
      - apply sortRanks_sorted. }
    split; [intros i; now apply rank_elem|]. split; [|split; [exact Hsorted|split]].
    + rewrite (rank_nonempty_query _ _ E).
      assert (Hp : map OriginalIndex
                     (sortRanks rows (RankFindFold (TrimSpace q) (map searchKey rows)))
                   ≡ₚ map OriginalIndex (RankFindFold (TrimSpace q) (map searchKey rows)))
        by (apply fmap_Permutation, sortRanks_perm).
      rewrite Hp. apply rankFrom_NoDup.
    + apply ranksBefore_total.
    + intros Hd out Hp Hs. symmetry.
      apply (sorted_perm_unique (ranksBefore (TrimSpace q) rows)); try assumption;
        [|now symmetry].
      intros x y Hx Hy. pose proof (rank_indices q rows) as Hall.
      rewrite Forall_forall in Hall.
      intros Hxy Hyx. eapply ranksBefore_antisym; eauto.
Qed.

End Model.

Lemma twoRowModel_wellFormed : wellFormed Demo.twoRowModel.
Proof.
  split.
  - unfold cursorOK. cbn. lia.
  - unfold indicesOK. cbn. repeat constructor.
Qed.

(** From [twoRowModel]: the cursor stays in bounds whatever the delta, and
    the delete key gives a well-formed model. *)
Lemma cursor_stays_in_bounds_witness :
  (forall delta, wellFormed (moveSelectionBy delta Demo.twoRowModel))
  /\ (exists m' fs' sig,
        Ui.handleEvent Fuzzy.MatchFold Fuzzy.LevenshteinDistance Fuzzy.errorText
                       KeyDelete Demo.twoRowModel Demo.twoRowTree
        = Some (m', fs', sig)
        /\ wellFormed m').
Proof.
  destruct (cursor_stays_in_bounds Fuzzy.MatchFold Fuzzy.LevenshteinDistance
              Fuzzy.ToLower Rfc3339.format Fuzzy.errorText) as [_ H].
  destruct (H Demo.twoRowModel Demo.twoRowTree twoRowModel_wellFormed)
    as (Hk & Hm & _ & _).
  split; [exact Hm | exact (Hk KeyDelete)].
Defined.

(** On [twoRowModel]: a deletion that succeeds removes the row of [S1], one
    that fails (the directory of the file is closed to changes) leaves the
    rows, and on the model without rows there is nothing to delete. *)
Lemma deleteSelected_witness :
  Ui.deleteSelected Fuzzy.MatchFold Fuzzy.LevenshteinDistance Fuzzy.errorText
                    Demo.emptyModel Demo.twoRowTree
  = Some (setStatus "Nothing to delete" Demo.emptyModel, Demo.twoRowTree)
  /\ (exists m' fs',
        Ui.deleteSelected Fuzzy.MatchFold Fuzzy.LevenshteinDistance Fuzzy.errorText
                          Demo.twoRowModel Demo.twoRowTree
        = Some (m', fs')
        /\ exists before after,
            Demo.twoRows = before ++ mkRow (mkSession "S1" (Time.mk 10 0) (Time.mk 20 0)
                                                      "/work" "call shell"
                                                      ["/r/a/f.jsonl"%string])
                                           "s1 /work call shell" :: after
            /\ length before = 0%nat /\ entries m' = before ++ after)
  /\ (exists m' fs',
        Ui.deleteSelected Fuzzy.MatchFold Fuzzy.LevenshteinDistance Fuzzy.errorText
                          Demo.twoRowModel Demo.lockedTwoRowTree
        = Some (m', fs')
        /\ entries m' = Demo.twoRows /\ filtered m' = [0%nat; 1%nat]
        /\ selected m' = 0).
Proof.
  split; [|split].
  - apply (deleteSelected_outcomes Fuzzy.MatchFold Fuzzy.LevenshteinDistance
             Fuzzy.errorText Demo.emptyModel Demo.twoRowTree).
    reflexivity.
  - destruct (deleteSelected_outcomes Fuzzy.MatchFold Fuzzy.LevenshteinDistance
                Fuzzy.errorText Demo.twoRowModel Demo.twoRowTree) as (_ & H & _).
    destruct (H 0%nat
                (mkRow (mkSession "S1" (Time.mk 10 0) (Time.mk 20 0) "/work"
                                  "call shell" ["/r/a/f.jsonl"%string])
                       "s1 /work call shell")
                (fst (DeleteFiles (mkSession "S1" (Time.mk 10 0) (Time.mk 20 0) "/work"
                                             "call shell" ["/r/a/f.jsonl"%string])
                                  "/r" Demo.twoRowTree))
                [])
      as (m' & Hd & _ & Hok).
    + discriminate.
    + reflexivity.
    + reflexivity.
    + vm_compute. reflexivity.
    + exists m', (fst (DeleteFiles (mkSession "S1" (Time.mk 10 0) (Time.mk 20 0) "/work"
                                              "call shell" ["/r/a/f.jsonl"%string])
                                   "/r" Demo.twoRowTree)).
      split; [exact Hd|]. apply (Hok eq_refl).
  - destruct (deleteSelected_outcomes Fuzzy.MatchFold Fuzzy.LevenshteinDistance
                Fuzzy.errorText Demo.twoRowModel Demo.lockedTwoRowTree) as (_ & H & _).
    destruct (H 0%nat
                (mkRow (mkSession "S1" (Time.mk 10 0) (Time.mk 20 0) "/work"
                                  "call shell" ["/r/a/f.jsonl"%string])
                       "s1 /work call shell")
                Demo.lockedTwoRowTree
                [ErrRemove "/r/a/f.jsonl" Fs.EACCES])
      as (m' & Hd & Hfail & _).
    + discriminate.
    + reflexivity.
    + reflexivity.
    + vm_compute. reflexivity.
    + exists m', Demo.lockedTwoRowTree. split; [exact Hd|].
      destruct Hfail as (H1 & H2 & _ & H4 & _); [discriminate|]. auto.
Defined.

(** On [twoRows]: the empty query gives both indices in their order, and the
    indices for the query [S1] are those of the rows that match, each
    once. *)
Lemma rank_orders_the_matches_witness :
  Ui.rank Fuzzy.MatchFold Fuzzy.LevenshteinDistance " " Demo.twoRows = [0%nat; 1%nat]
  /\ NoDup (Ui.rank Fuzzy.MatchFold Fuzzy.LevenshteinDistance "S1" Demo.twoRows)
  /\ (forall i, i ∈ Ui.rank Fuzzy.MatchFold Fuzzy.LevenshteinDistance "S1" Demo.twoRows <->
                exists r, Demo.twoRows !! i = Some r
                          /\ Fuzzy.MatchFold (TrimSpace "S1") (searchKey r) = true).
Proof.
  split.
  - apply (proj1 (rank_orders_the_matches Fuzzy.MatchFold Fuzzy.LevenshteinDistance
                    " " Demo.twoRows)).
    vm_compute. reflexivity.
  - destruct (rank_orders_the_matches Fuzzy.MatchFold Fuzzy.LevenshteinDistance
                "S1" Demo.twoRows) as [_ H].
    destruct H as (H1 & H2 & _); [vm_compute; discriminate|].
    split; [exact H2 | exact H1].
Defined.

(** The scenario of the specification: the query [S1] over the rows of [S1]
    and [S2] returns the row of [S1] only. *)
Example rank_S1 :
  Ui.rank Fuzzy.MatchFold Fuzzy.LevenshteinDistance "S1" Demo.twoRows = [0%nat].
Proof. vm_compute. reflexivity. Qed.

End UiFacts.

(* ===================================================================== *)
(** * Deletion                                                            *)
(* ===================================================================== *)

Module DeleteFacts.
Import Sessions.

(** C2, on the tree [/r/a/f.jsonl] with the root [/r]: deleting the session
    removes the file and the directory [/r/a], and then the root [/r] itself,
    which the removal of [/r/a] left empty; pruning stops there, [/] stays.
    When the root holds a second directory it stays. *)
Theorem delete_removes_emptied_root :
  snd (DeleteFiles Demo.loneSession "/r" Demo.loneTree) = []
  /\ fst (DeleteFiles Demo.loneSession "/r" Demo.loneTree) !! "/r/a/f.jsonl"%string = None
  /\ fst (DeleteFiles Demo.loneSession "/r" Demo.loneTree) !! "/r/a"%string = None
  /\ fst (DeleteFiles Demo.loneSession "/r" Demo.loneTree) !! "/r"%string = None
  /\ fst (DeleteFiles Demo.loneSession "/r" Demo.loneTree) !! "/"%string
     = Some (Fs.Directory true)
  /\ fst (DeleteFiles Demo.loneSession "/r" Demo.sharedTree) !! "/r/a"%string = None
  /\ fst (DeleteFiles Demo.loneSession "/r" Demo.sharedTree) !! "/r"%string
     = Some (Fs.Directory true).
Proof. repeat split; vm_compute; reflexivity. Qed.

End DeleteFacts.

(* ===================================================================== *)
(** * More about the parser                                               *)
(* ===================================================================== *)

Module ParserMore.
Import Str Json Sessions.

Section Parser.

Variable jsonText : string -> option json.
Variable timeParse : string -> string -> option Time.t.

#[local] Abbreviation parseSessionFile := (parseSessionFile jsonText timeParse).
#[local] Abbreviation processEntry := (processEntry jsonText timeParse).
#[local] Abbreviation scan := (scan jsonText timeParse).
#[local] Abbreviation runs_to := (runs_to jsonText timeParse).
#[local] Abbreviation seedsRead := (seedsRead timeParse).

(** The only error of the loop body is a [session_meta] payload that does
    not decode. *)
Lemma processEntry_error st entry e :
  processEntry st entry = inl e ->
  e = ErrDecodeMeta /\ Type_ entry = "session_meta"%string
  /\ Unmarshal (intoStruct setSessionMeta) zeroSessionMeta (Payload entry) = None.
Proof.
  unfold Sessions.processEntry. intros H.
  destruct (String.eqb_spec (Type_ entry) "session_meta") as [Et|Et].
  - destruct (Unmarshal _ _ (Payload entry)) as [payload|] eqn:Eu.
    + destruct (Sessions.parseTimestamp timeParse (metaTimestamp payload));
        cbn [lastTS session] in H;
        match type of H with
        | (if ?c then _ else _) = _ => destruct c; discriminate
        end.
    + injection H as <-. auto.
  - match type of H with
    | (if ?c then _ else _) = _ => destruct c; discriminate
    end.
Qed.

Lemma scan_error rs : forall st e,
  scan rs st = inl e ->
  (e = ErrLineTooLong /\ exists l, (l, RBufferFull) ∈ rs)
  \/ (e = ErrRead /\ exists l, (l, ROther) ∈ rs)
  \/ (e = ErrDecodeEntry
      /\ exists doc err, (Text doc, err) ∈ rs
                         /\ Unmarshal (intoStruct setLogEntry) zeroLogEntry doc = None)
  \/ (e = ErrDecodeMeta
      /\ exists entry, entry ∈ entriesRead rs
                       /\ Type_ entry = "session_meta"%string
                       /\ Unmarshal (intoStruct setSessionMeta) zeroSessionMeta
                                    (Payload entry) = None).
Proof.
  induction rs as [|[line err] rest IH]; intros st e H; cbn [Sessions.scan] in H;
    [discriminate|].
  assert (Hrest : forall st', scan rest st' = inl e -> isEOF err = false ->
            (e = ErrLineTooLong /\ exists l, (l, RBufferFull) ∈ (line, err) :: rest)
            \/ (e = ErrRead /\ exists l, (l, ROther) ∈ (line, err) :: rest)
            \/ (e = ErrDecodeEntry
                /\ exists doc err', (Text doc, err') ∈ (line, err) :: rest
                     /\ Unmarshal (intoStruct setLogEntry) zeroLogEntry doc = None)
            \/ (e = ErrDecodeMeta
                /\ exists entry, entry ∈ entriesRead ((line, err) :: rest)
                     /\ Type_ entry = "session_meta"%string
                     /\ Unmarshal (intoStruct setSessionMeta) zeroSessionMeta
                                  (Payload entry) = None)).
  { intros st' Hs Heof. cbn [entriesRead]. rewrite Heof.
    destruct (IH _ _ Hs) as [[-> [l Hl]]|[[-> [l Hl]]|[[-> (d & e' & Hl & Hd)]
                            |[-> (en & Hl & Ht & Hu)]]]].
    - left. split; [reflexivity|]. exists l. now right.
    - right; left. split; [reflexivity|]. exists l. now right.
    - right; right; left. split; [reflexivity|]. exists d, e'. split; [now right|exact Hd].
    - right; right; right. split; [reflexivity|]. exists en.
      split; [|auto]. apply elem_of_app. now right. }
  destruct err.
  - destruct line as [|doc]; [now apply (Hrest st)|].
    destruct (Unmarshal _ _ doc) as [entry|] eqn:Ed.
    + destruct (processEntry st entry) as [e'|st1] eqn:Ep.
      * injection H as <-. destruct (processEntry_error _ _ _ Ep) as (-> & Ht & Hu).
        right; right; right. split; [reflexivity|]. exists entry.
        split; [|auto]. cbn [entriesRead]. rewrite Ed. left.
      * now apply (Hrest st1).
    + injection H as <-. right; right; left. split; [reflexivity|].
      exists doc, RNil. split; [left | exact Ed].
  - destruct line as [|doc]; [discriminate|].
    destruct (Unmarshal _ _ doc) as [entry|] eqn:Ed.
    + destruct (processEntry st entry) as [e'|st1] eqn:Ep; [|discriminate].
      injection H as <-. destruct (processEntry_error _ _ _ Ep) as (-> & Ht & Hu).
      right; right; right. split; [reflexivity|]. exists entry.
      split; [|auto]. cbn [entriesRead]. rewrite Ed. left.
    + injection H as <-. right; right; left. split; [reflexivity|].
      exists doc, REOF. split; [left | exact Ed].
  - injection H as <-. left. split; [reflexivity|]. exists line. left.
  - injection H as <-. right; left. split; [reflexivity|]. exists line. left.
Qed.

(** X1. Every error of the parser has its cause in the file: a read that
    fails, a line that is no log entry, a [session_meta] payload that does
    not decode, or the missing identifier. A payload of any other type never
    fails the parse, whatever it holds. *)
Theorem parse_error_has_cause path rs e :
  parseSessionFile path (Reads rs) = inl e ->
  (e = ErrLineTooLong /\ exists l, (l, RBufferFull) ∈ rs)
  \/ (e = ErrRead /\ exists l, (l, ROther) ∈ rs)
  \/ (e = ErrDecodeEntry
      /\ exists doc err, (Text doc, err) ∈ rs
                         /\ Unmarshal (intoStruct setLogEntry) zeroLogEntry doc = None)
  \/ (e = ErrDecodeMeta
      /\ exists entry, entry ∈ entriesRead rs
                       /\ Type_ entry = "session_meta"%string
                       /\ Unmarshal (intoStruct setSessionMeta) zeroSessionMeta
                                    (Payload entry) = None)
  \/ e = ErrMissingID.
Proof.
  unfold Sessions.parseSessionFile. intros H.
  destruct (scan rs (initState path)) as [e'|st] eqn:Es.
  - injection H as <-. destruct (scan_error _ _ _ Es) as [?|[?|[?|?]]]; auto.
  - destruct (String.eqb (ID (session st)) EmptyString); [|discriminate].
    injection H as <-. auto 6.
Qed.

(** X2. An empty line (nothing but its line end), wherever it stands in
    the file, changes nothing of what the parser returns. *)
Theorem blank_line_is_skipped path pre post :
  parseSessionFile path (Reads (pre ++ (Blank, RNil) :: post))
  = parseSessionFile path (Reads (pre ++ post)).
Proof.
  unfold Sessions.parseSessionFile.
  assert (H : forall st, scan (pre ++ (Blank, RNil) :: post) st = scan (pre ++ post) st).
  { induction pre as [|[line err] pre IH]; intros st; [reflexivity|].
    cbn [app Sessions.scan]. destruct err; try reflexivity.
    destruct line as [|doc]; [apply IH|].
    destruct (Unmarshal _ _ doc) as [entry|]; [|reflexivity].
    destruct (processEntry st entry); [reflexivity | apply IH]. }
  now rewrite H.
Qed.

(** X3. A parsed session carries its own path and nothing else as
    [FilePaths], and an identifier that is not empty; its [CreatedAt] is
    [UpdatedAt] when no metadata timestamp of the file parses, and is the zero
    time only when [UpdatedAt] is. *)
Theorem parsed_session_shape path rs s :
  parseSessionFile path (Reads rs) = inr s ->
  FilePaths s = [path]
  /\ ID s <> EmptyString
  /\ (seedsRead rs = [] -> CreatedAt s = UpdatedAt s)
  /\ (Time.IsZero (CreatedAt s) = true -> Time.IsZero (UpdatedAt s) = true).
Proof.
  intros Hp.
  destruct (ParserFacts.parse_inr _ _ _ _ _ Hp) as (st & Hrun & Hid & ->).
  destruct (ParserFacts.runs_to_meta _ _ _ _ _ Hrun) as (_ & _ & I3 & I4 & I5).
  cbn [FilePaths ID CreatedAt UpdatedAt]. repeat split.
  - exact I5.
  - exact Hid.
  - intros Hs. rewrite Hs in I4. cbn in I4. rewrite I4. reflexivity.
  - destruct (negb (createdSet st) || Time.IsZero (CreatedAt (session st))) eqn:E;
      [auto|].
    apply orb_false_elim in E as [_ E]. congruence.
Qed.

(** The last action, once set, stays set. *)
Lemma processEntry_keeps_action st entry st1 :
  processEntry st entry = inr st1 ->
  LastAction (session st) <> EmptyString -> LastAction (session st1) <> EmptyString.
Proof.
  unfold Sessions.processEntry. intros H Hne.
  assert (Hgen : forall st0 : pstate,
            LastAction (session st0) <> EmptyString ->
            (if Time.After (match Sessions.parseTimestamp timeParse (Timestamp entry) with
                            | Some t => t | None => Time.zero end) (lastTS st0)
                || Time.IsZero (lastTS st0)
             then inr (mkPstate
                         (mkSession (ID (session st0)) (CreatedAt (session st0))
                            (UpdatedAt (session st0)) (WorkingDir (session st0))
                            (if negb (String.eqb (describeEntry jsonText entry) EmptyString)
                             then describeEntry jsonText entry
                             else if String.eqb (Type_ entry) "session_meta"
                                     && String.eqb (LastAction (session st0)) EmptyString
                                  then "session started"%string
                                  else LastAction (session st0))
                            (FilePaths (session st0)))
                         (createdSet st0)
                         (match Sessions.parseTimestamp timeParse (Timestamp entry) with
                          | Some t => t | None => Time.zero end))
             else inr st0) = (inr st1 : error + pstate) ->
            LastAction (session st1) <> EmptyString).
  { intros st0 H0 Hc.
    destruct (_ || _) in Hc; injection Hc as <-; [|exact H0]. cbn.
    destruct (String.eqb_spec (describeEntry jsonText entry) EmptyString) as [Ed|Ed];
      cbn; [|exact Ed].
    destruct (String.eqb (Type_ entry) "session_meta"
              && String.eqb (LastAction (session st0)) EmptyString);
      [discriminate | exact H0]. }
  destruct (String.eqb (Type_ entry) "session_meta").
  - destruct (Unmarshal _ _ (Payload entry)) as [payload|]; [|discriminate].
    destruct (Sessions.parseTimestamp timeParse (metaTimestamp payload));
      (eapply Hgen; [|exact H]); exact Hne.
  - now apply (Hgen st).
Qed.

Lemma runs_to_keeps_action rs st st' :
  runs_to rs st st' ->
  LastAction (session st) <> EmptyString -> LastAction (session st') <> EmptyString.
Proof.
  induction 1 as [st|rest st|rest st st' _ IH|doc entry rest st st1 Hd Hp
                  |doc entry rest st st1 st' Hd Hp _ IH]; intros Hne; auto.
  - eapply processEntry_keeps_action; eauto.
  - apply IH. eapply processEntry_keeps_action; eauto.
Qed.

(** The first entry of a file is always asked for its action. *)
Lemma processEntry_first_meta st entry st1 :
  processEntry st entry = inr st1 ->
  Time.IsZero (lastTS st) = true ->
  Type_ entry = "session_meta"%string ->
  LastAction (session st1) <> EmptyString.
Proof.
  unfold Sessions.processEntry. intros H Hz Ht. rewrite Ht in H.
  rewrite !String.eqb_refl in H. cbv beta iota zeta in H.
  destruct (Unmarshal _ _ (Payload entry)) as [payload|]; [|discriminate].
  destruct (Sessions.parseTimestamp timeParse (metaTimestamp payload));
    cbn [lastTS session] in H; rewrite Hz, orb_true_r in H; injection H as <-; cbn;
    (destruct (String.eqb_spec (describeEntry jsonText entry) EmptyString) as [Ed|Ed];
     cbn; [|exact Ed]);
    match goal with
    | |- context [String.eqb ?a EmptyString] =>
        destruct (String.eqb_spec a EmptyString) as [E|E]; cbn;
        [discriminate | exact E]
    end.
Qed.

Lemma runs_to_first_meta rs st st' :
  runs_to rs st st' ->
  forall first rest,
    Time.IsZero (lastTS st) = true ->
    entriesRead rs = first :: rest ->
    Type_ first = "session_meta"%string ->
    LastAction (session st') <> EmptyString.
Proof.
  induction 1 as [st|rest0 st|rest0 st st' _ IH|doc entry rest0 st st1 Hd Hp1
                  |doc entry rest0 st st1 st' Hd Hp1 Hrest IH];
    intros first rest Hz He Ht; cbn [entriesRead isEOF app] in He.
  - discriminate.
  - discriminate.
  - eapply IH; eauto.
  - rewrite Hd in He. injection He as <- _.
    eapply processEntry_first_meta; eauto.
  - rewrite Hd in He. injection He as <- _.
    eapply runs_to_keeps_action; [exact Hrest|].
    eapply processEntry_first_meta; eauto.
Qed.

(** The last action after an entry is the one before, the words
    [session started], or the description of the entry. *)
Lemma processEntry_action st entry st1 :
  processEntry st entry = inr st1 ->
  LastAction (session st1) = LastAction (session st)
  \/ LastAction (session st1) = "session started"%string
  \/ (LastAction (session st1) = describeEntry jsonText entry
      /\ describeEntry jsonText entry <> EmptyString).
Proof.
  unfold Sessions.processEntry. intros H.
  assert (Hgen : forall (st0 : pstate) (a : string),
            LastAction (session st0) = a ->
            (if Time.After (match Sessions.parseTimestamp timeParse (Timestamp entry) with
                            | Some t => t | None => Time.zero end) (lastTS st0)
                || Time.IsZero (lastTS st0)
             then inr (mkPstate
                         (mkSession (ID (session st0)) (CreatedAt (session st0))
                            (UpdatedAt (session st0)) (WorkingDir (session st0))
                            (if negb (String.eqb (describeEntry jsonText entry) EmptyString)
                             then describeEntry jsonText entry
                             else if String.eqb (Type_ entry) "session_meta"
                                     && String.eqb (LastAction (session st0)) EmptyString
                                  then "session started"%string
                                  else LastAction (session st0))
                            (FilePaths (session st0)))
                         (createdSet st0)
                         (match Sessions.parseTimestamp timeParse (Timestamp entry) with
                          | Some t => t | None => Time.zero end))
             else inr st0) = (inr st1 : error + pstate) ->
            LastAction (session st1) = a
            \/ LastAction (session st1) = "session started"%string
            \/ (LastAction (session st1) = describeEntry jsonText entry
                /\ describeEntry jsonText entry <> EmptyString)).
  { intros st0 a H0 Hc.
    destruct (_ || _) in Hc; injection Hc as <-; [|now left]. cbn.
    destruct (String.eqb_spec (describeEntry jsonText entry) EmptyString) as [Ed|Ed];
      cbn; [|auto].
    destruct (String.eqb (Type_ entry) "session_meta"
              && String.eqb (LastAction (session st0)) EmptyString); auto. }
  destruct (String.eqb (Type_ entry) "session_meta").
  - destruct (Unmarshal _ _ (Payload entry)) as [payload|]; [|discriminate].
    destruct (Sessions.parseTimestamp timeParse (metaTimestamp payload));
      (eapply Hgen; [|exact H]); reflexivity.
  - now apply (Hgen st).
Qed.

Lemma runs_to_action rs st st' :
  runs_to rs st st' ->
  LastAction (session st') = LastAction (session st)
  \/ LastAction (session st') = "session started"%string
  \/ (exists entry, entry ∈ entriesRead rs
                    /\ LastAction (session st') = describeEntry jsonText entry
                    /\ describeEntry jsonText entry <> EmptyString).
Proof.
  induction 1 as [st|rest st|rest st st' _ IH|doc entry rest st st1 Hd Hp
                  |doc entry rest st st1 st' Hd Hp _ IH];
    cbn [entriesRead isEOF app]; rewrite ?Hd; auto.
  - destruct (processEntry_action _ _ _ Hp) as [E|[E|[E1 E2]]]; auto.
    right. right. exists entry. split; [left | auto].
  - destruct IH as [E|[E|(e & He & E1 & E2)]].
    + rewrite E. destruct (processEntry_action _ _ _ Hp) as [F|[F|[F1 F2]]]; auto.
      right. right. exists entry. split; [left | auto].
    + auto.
    + right. right. exists e. split; [now right | auto].
Qed.

(** X4. When a file whose first entry is its [session_meta] record
    parses, the session has a last action: the words [session started], or
    the description, not empty, of one of the entries of the file. *)
Theorem session_meta_first_gives_action path rs s first rest :
  parseSessionFile path (Reads rs) = inr s ->
  entriesRead rs = first :: rest ->
  Type_ first = "session_meta"%string ->
  LastAction s <> EmptyString
  /\ (LastAction s = "session started"%string
      \/ (exists entry, entry ∈ entriesRead rs
                        /\ LastAction s = describeEntry jsonText entry
                        /\ describeEntry jsonText entry <> EmptyString)).
Proof.
  intros Hp He Ht.
  destruct (ParserFacts.parse_inr _ _ _ _ _ Hp) as (st & Hrun & _ & ->).
  cbn [LastAction].
  assert (Hne : LastAction (session st) <> EmptyString)
    by (eapply runs_to_first_meta; eauto).
  split; [exact Hne|].
  destruct (runs_to_action _ _ _ Hrun) as [E|[E|E]]; auto.
  exfalso. apply Hne. rewrite E. reflexivity.
Qed.

(** X5. The last action of a parsed session is never invented: it is
    empty, or the words [session started], or the description, not empty, of
    one of the entries of the file. *)
Theorem last_action_comes_from_the_file path rs s :
  parseSessionFile path (Reads rs) = inr s ->
  LastAction s = EmptyString
  \/ LastAction s = "session started"%string
  \/ (exists entry, entry ∈ entriesRead rs
                    /\ LastAction s = describeEntry jsonText entry
                    /\ describeEntry jsonText entry <> EmptyString).
Proof.
  intros Hp.
  destruct (ParserFacts.parse_inr _ _ _ _ _ Hp) as (st & Hrun & _ & ->).
  cbn [LastAction]. exact (runs_to_action _ _ _ Hrun).
Qed.

End Parser.

(** On a file whose first read fails. *)
Lemma parse_error_witness :
  (ErrRead = ErrRead /\ exists l, (l, ROther) ∈ [(Blank, ROther)])
  \/ ErrRead = ErrMissingID.
Proof.
  destruct (parse_error_has_cause Demo.noText Rfc3339.timeParse "/r/a.jsonl"
              [(Blank, ROther)] ErrRead eq_refl)
    as [[H _]|[H|[[H _]|[[H _]|H]]]]; try discriminate H; auto.
Defined.

(** On [undescribedLast]. *)
Lemma parsed_session_shape_witness :
  FilePaths Demo.undescribedLastSession = ["/r/a.jsonl"%string]
  /\ ID Demo.undescribedLastSession <> EmptyString.
Proof.
  destruct (parsed_session_shape Demo.noText Rfc3339.timeParse "/r/a.jsonl"
              Demo.undescribedLast Demo.undescribedLastSession) as (H1 & H2 & _).
  - vm_compute. reflexivity.
  - split; assumption.
Defined.

Lemma session_meta_first_witness :
  LastAction Demo.undescribedLastSession <> EmptyString
  /\ (LastAction Demo.undescribedLastSession = "session started"%string
      \/ (exists entry, entry ∈ entriesRead Demo.undescribedLast
                        /\ LastAction Demo.undescribedLastSession
                           = describeEntry Demo.noText entry
                        /\ describeEntry Demo.noText entry <> EmptyString)).
Proof.
  eapply (session_meta_first_gives_action Demo.noText Rfc3339.timeParse "/r/a.jsonl"
            Demo.undescribedLast).
  - vm_compute. reflexivity.
  - vm_compute. reflexivity.
  - reflexivity.
Defined.

Lemma last_action_witness :
  LastAction Demo.undescribedLastSession = EmptyString
  \/ LastAction Demo.undescribedLastSession = "session started"%string
  \/ (exists entry, entry ∈ entriesRead Demo.undescribedLast
                    /\ LastAction Demo.undescribedLastSession
                       = describeEntry Demo.noText entry
                    /\ describeEntry Demo.noText entry <> EmptyString).
Proof.
  apply (last_action_comes_from_the_file Demo.noText Rfc3339.timeParse "/r/a.jsonl").
  vm_compute. reflexivity.
Defined.

End ParserMore.

(* ===================================================================== *)
(** * More about the aggregator                                           *)
(* ===================================================================== *)

Module AggregatorMore.
Import Str Json Sessions.

(** What every later merge keeps of a record. *)
Definition grows (r r' : Session) : Prop :=
  ID r' = ID r
  /\ (forall p, p ∈ FilePaths r -> p ∈ FilePaths r')
  /\ Time.instant (UpdatedAt r) <= Time.instant (UpdatedAt r')
  /\ (WorkingDir r <> EmptyString -> WorkingDir r' <> EmptyString).

Lemma grows_refl (r : Session) : grows r r.
Proof. unfold grows. repeat split; auto. lia. Qed.

Lemma merge_grows (existing new : Session) : grows existing (merge existing new).
Proof.
  unfold grows.
  destruct (AggregatorFacts.merge_fields existing new) as [Hid Hpaths].
  split; [exact Hid|]. split.
  - intros p Hp. rewrite Hpaths. apply AggregatorFacts.addPaths_elem. now left.
  - unfold merge, Time.After.
    destruct (Z.ltb_spec (Time.instant (UpdatedAt existing))
                         (Time.instant (UpdatedAt new))).
    + cbn. split; [lia|]. intros Hw.
      destruct (String.eqb_spec (WorkingDir new) EmptyString); cbn; assumption.
    + destruct (String.eqb_spec (WorkingDir existing) EmptyString) as [E|E]; cbn.
      * destruct (String.eqb (WorkingDir new) EmptyString); cbn; split; try lia;
          intros Hw; contradiction.
      * split; [lia | auto].
Qed.

(** What the merge takes of the new fragment. *)
Lemma merge_covers (existing new : Session) :
  (forall p, p ∈ FilePaths new -> p ∈ FilePaths (merge existing new))
  /\ Time.instant (UpdatedAt new) <= Time.instant (UpdatedAt (merge existing new))
  /\ (WorkingDir new <> EmptyString -> WorkingDir (merge existing new) <> EmptyString).
Proof.
  destruct (AggregatorFacts.merge_fields existing new) as [_ Hpaths].
  split.
  - intros p Hp. rewrite Hpaths. apply AggregatorFacts.addPaths_elem. now right.
  - unfold merge, Time.After.
    destruct (Z.ltb_spec (Time.instant (UpdatedAt existing))
                         (Time.instant (UpdatedAt new))).
    + cbn. split; [lia|]. intros Hw.
      destruct (String.eqb_spec (WorkingDir new) EmptyString); cbn; [contradiction|assumption].
    + destruct (String.eqb_spec (WorkingDir existing) EmptyString) as [E|E]; cbn.
      * destruct (String.eqb_spec (WorkingDir new) EmptyString); cbn; split; try lia;
          intros Hw; [contradiction | assumption].
      * split; [lia | auto].
Qed.

(** The update time and the last action of a merged record come together,
    from the record or from the new fragment. *)
Lemma merge_latest (existing new : Session) :
  (UpdatedAt (merge existing new) = UpdatedAt existing
   /\ LastAction (merge existing new) = LastAction existing)
  \/ (UpdatedAt (merge existing new) = UpdatedAt new
      /\ LastAction (merge existing new) = LastAction new).
Proof.
  unfold merge.
  repeat match goal with |- context [if ?c then _ else _] => destruct c end;
    cbn; auto.
Qed.

#[local] Instance newestFirst_total : Total newestFirst.
Proof. intros a b. unfold newestFirst. lia. Qed.

#[local] Instance newestFirst_trans : Transitive newestFirst.
Proof. intros a b c. unfold newestFirst. lia. Qed.

Section Walk.

Variable jsonText : string -> option json.
Variable timeParse : string -> string -> option Time.t.

#[local] Abbreviation parseSessionFile := (parseSessionFile jsonText timeParse).
#[local] Abbreviation visitStep := (visitStep jsonText timeParse).
#[local] Abbreviation walkAll := (walkAll jsonText timeParse).
#[local] Abbreviation Load := (Load jsonText timeParse).

(** A file of the walk that the parser turns into the fragment [frag]. *)
Definition fragmentOf (vs : list visit) (p : string) (frag : Session) : Prop :=
  exists f, VisitFile p f ∈ vs /\ Path.Ext p = ".jsonl"%string
            /\ parseSessionFile p f = inr frag.

(** The record a fragment leaves under its identifier. *)
Definition filed (m : gmap string Session) (s : Session) : Session :=
  match m !! ID s with
  | None => Snapshot s
  | Some existing => merge existing s
  end.

Lemma walkAll_snoc (vs : list visit) (v : visit) :
  walkAll (vs ++ [v]) = visitStep (walkAll vs) v.
Proof. unfold Sessions.walkAll. now rewrite fold_left_app. Qed.

Lemma fragmentOf_snoc vs v p frag :
  fragmentOf vs p frag -> fragmentOf (vs ++ [v]) p frag.
Proof.
  intros (f & Hin & He & Hp). exists f. split; [|auto].
  apply elem_of_app. now left.
Qed.

(** A step of the walk either leaves the map alone or files one fragment. *)
Lemma visitStep_byID (st : walkState) (v : visit) :
  (byID (visitStep st v) = byID st
   /\ forall p f, v = VisitFile p f -> Path.Ext p = ".jsonl"%string ->
                  exists c, parseSessionFile p f = inl c)
  \/ (exists p f s, v = VisitFile p f /\ Path.Ext p = ".jsonl"%string
                    /\ parseSessionFile p f = inr s
                    /\ byID (visitStep st v) = <[ID s := filed (byID st) s]> (byID st)).
Proof.
  destruct v as [path|path|path f]; cbn [Sessions.visitStep byID].
  - left. split; [reflexivity | discriminate].
  - left. split; [reflexivity | discriminate].
  - destruct (String.eqb_spec (Path.Ext path) ".jsonl") as [He|He]; cbn [negb].
    + destruct (parseSessionFile path f) as [c|s] eqn:Ep.
      * left. split; [reflexivity|]. intros p f0 [= <- <-] _. eauto.
      * right. exists path, f, s. unfold filed.
        destruct (byID st !! ID s); auto.
    + left. split; [reflexivity|]. intros p f0 [= <- <-] Hx. contradiction.
Qed.

Lemma visitStep_grows (st : walkState) (v : visit) (k : string) (r : Session) :
  AggregatorFacts.recordsOK (byID st) ->
  byID st !! k = Some r ->
  exists r', byID (visitStep st v) !! k = Some r' /\ grows r r'.
Proof.
  intros Hok Hl.
  destruct (visitStep_byID st v) as [[-> _]|(p & f & s & _ & _ & _ & ->)].
  - exists r. split; [exact Hl | apply grows_refl].
  - rewrite lookup_insert. case_decide as Hk.
    + subst k. unfold filed. rewrite Hl. eexists. split; [reflexivity|].
      apply merge_grows.
    + exists r. split; [exact Hl | apply grows_refl].
Qed.

(** Every fragment the walk has parsed is in the record of its identifier. *)
Lemma walk_files_fragments (vs : list visit) (p : string) (frag : Session) :
  fragmentOf vs p frag ->
  exists r, byID (walkAll vs) !! ID frag = Some r
            /\ p ∈ FilePaths r
            /\ Time.instant (UpdatedAt frag) <= Time.instant (UpdatedAt r)
            /\ (WorkingDir frag <> EmptyString -> WorkingDir r <> EmptyString).
Proof.
  revert p frag. induction vs as [|v vs IH] using rev_ind; intros p frag (f & Hin & He & Hp).
  - inversion Hin.
  - rewrite walkAll_snoc. apply elem_of_app in Hin as [Hin|Hin].
    + destruct (IH p frag) as (r & Hl & H1 & H2 & H3); [exists f; auto|].
      destruct (visitStep_grows _ v _ _ (AggregatorFacts.walk_recordsOK _ _ vs) Hl)
        as (r' & Hl' & _ & G2 & G3 & G4).
      exists r'. repeat split; auto. lia.
    + apply list_elem_of_singleton in Hin. subst v.
      destruct (ParserFacts.parse_paths _ _ _ _ _ Hp) as [Hpaths _].
      cbn [Sessions.visitStep]. rewrite He, String.eqb_refl. cbn [negb]. rewrite Hp.
      destruct (byID (walkAll vs) !! ID frag) as [existing|]; cbn [byID];
        rewrite lookup_insert; (case_decide; [|congruence]); eexists;
        (split; [reflexivity|]).
      * destruct (merge_covers existing frag) as (C1 & C2 & C3).
        repeat split; auto. apply C1. rewrite Hpaths. left.
      * cbn. rewrite Hpaths. repeat split; auto; [left | lia].
Qed.

(** Every record is filed under its identifier, which is not empty; its
    paths are free of duplicates and are files of the walk that parsed with
    this identifier; and its update time and last action are those of one of
    them. *)
Definition traced (vs : list visit) (m : gmap string Session) : Prop :=
  forall k r, m !! k = Some r ->
    ID r = k /\ k <> EmptyString /\ NoDup (FilePaths r)
    /\ (forall p, p ∈ FilePaths r -> exists frag, fragmentOf vs p frag /\ ID frag = k)
    /\ (exists p frag, fragmentOf vs p frag /\ ID frag = k
                       /\ UpdatedAt frag = UpdatedAt r
                       /\ LastAction frag = LastAction r).

Lemma traced_snoc vs v m : traced vs m -> traced (vs ++ [v]) m.
Proof.
  intros H k r Hl. destruct (H k r Hl) as (H1 & H2 & H3 & H4 & (p & frag & H5 & H6)).
  repeat split; auto.
  - intros q Hq. destruct (H4 q Hq) as (fr & Hf & Hi). exists fr.
    split; [now apply fragmentOf_snoc | exact Hi].
  - exists p, frag. split; [now apply fragmentOf_snoc | exact H6].
Qed.

Lemma walk_traced (vs : list visit) : traced vs (byID (walkAll vs)).
Proof.
  induction vs as [|v vs IH] using rev_ind.
  - intros k r Hl. cbn in Hl. now rewrite lookup_empty in Hl.
  - rewrite walkAll_snoc.
    destruct (visitStep_byID (walkAll vs) v)
      as [[-> _]|(p & f & s & -> & He & Hp & ->)]; [now apply traced_snoc|].
    assert (Hfrag : fragmentOf (vs ++ [VisitFile p f]) p s).
    { exists f. split; [|auto]. apply elem_of_app. right. left. }
    destruct (ParserFacts.parse_paths _ _ _ _ _ Hp) as [Hpaths Hid].
    intros k r. rewrite lookup_insert. case_decide as Hk;
      [|now apply (traced_snoc vs (VisitFile p f) _ IH)].
    intros [= <-]. subst k. unfold filed.
    destruct (byID (walkAll vs) !! ID s) as [existing|] eqn:El.
    + destruct (IH _ _ El) as (I1 & I2 & I3 & I4 & (q & fr & I5 & I6 & I7 & I8)).
      destruct (AggregatorFacts.merge_fields existing s) as [Mid Mpaths].
      split; [congruence|]. split; [exact Hid|]. split.
      { rewrite Mpaths. now apply AggregatorFacts.addPaths_NoDup. }
      split.
      * intros x Hx. rewrite Mpaths in Hx.
        apply AggregatorFacts.addPaths_elem in Hx as [Hx|Hx].
        -- destruct (I4 x Hx) as (fr' & F1 & F2). exists fr'.
           split; [now apply fragmentOf_snoc | exact F2].
        -- rewrite Hpaths in Hx. apply list_elem_of_singleton in Hx as ->.
           exists s. auto.
      * destruct (merge_latest existing s) as [[-> ->]|[-> ->]].
        -- exists q, fr. split; [now apply fragmentOf_snoc | auto].
        -- exists p, s. auto.
    + cbn. split; [reflexivity|]. split; [exact Hid|]. split.
      { rewrite Hpaths. apply NoDup_singleton. }
      split.
      * intros x Hx. rewrite Hpaths in Hx. apply list_elem_of_singleton in Hx as ->.
        exists s. auto.
      * exists p, s. auto.
Qed.

(** The combined error holds one error for each failure of the walk, and
    nothing else. *)
Lemma walk_reports (vs : list visit) (e : error) :
  e ∈ combinedErr (walkAll vs) <->
  (exists p, e = ErrWalk p /\ WalkErr p ∈ vs)
  \/ (exists p f c, e = ErrParse p c /\ VisitFile p f ∈ vs
                    /\ Path.Ext p = ".jsonl"%string /\ parseSessionFile p f = inl c).
Proof.
  induction vs as [|v vs IH] using rev_ind.
  - cbn. split.
    + intros H. inversion H.
    + intros [(p & _ & H)|(p & f & c & _ & H & _)]; inversion H.
  - rewrite walkAll_snoc.
    assert (Hold : forall x : visit, x ∈ vs ++ [v] <-> x ∈ vs \/ x = v).
    { intros x. rewrite elem_of_app, list_elem_of_singleton. tauto. }
    destruct v as [path|path|path f]; cbn [Sessions.visitStep combinedErr].
    + rewrite elem_of_app, list_elem_of_singleton, IH. split.
      * intros [[(p & -> & H)|(p & f & c & -> & H & H')]| ->].
        -- left. exists p. split; [reflexivity|]. apply Hold. auto.
        -- right. exists p, f, c. split; [reflexivity|]. split; [|exact H'].
           apply Hold. auto.
        -- left. exists path. split; [reflexivity|]. apply Hold. auto.
      * intros [(p & -> & H)|(p & f & c & -> & H & H')]; apply Hold in H as [H|H].
        -- left. left. eauto.
        -- injection H as ->. now right.
        -- left. right. exists p, f, c. auto.
        -- discriminate.
    + rewrite IH. split.
      * intros [(p & -> & H)|(p & f & c & -> & H & H')].
        -- left. exists p. split; [reflexivity|]. apply Hold. auto.
        -- right. exists p, f, c. split; [reflexivity|]. split; [|exact H'].
           apply Hold. auto.
      * intros [(p & -> & H)|(p & f & c & -> & H & H')]; apply Hold in H as [H|H];
          try discriminate.
        -- left. eauto.
        -- right. exists p, f, c. auto.
    + assert (Hkeep : forall errs : list error,
                (e ∈ errs <->
                 (exists p, e = ErrWalk p /\ WalkErr p ∈ vs)
                 \/ (exists p f0 c, e = ErrParse p c /\ VisitFile p f0 ∈ vs
                        /\ Path.Ext p = ".jsonl"%string
                        /\ parseSessionFile p f0 = inl c)) ->
                (forall c, parseSessionFile path f = inl c ->
                           Path.Ext path <> ".jsonl"%string) ->
                (e ∈ errs <->
                 (exists p, e = ErrWalk p /\ WalkErr p ∈ vs ++ [VisitFile path f])
                 \/ (exists p f0 c, e = ErrParse p c
                        /\ VisitFile p f0 ∈ vs ++ [VisitFile path f]
                        /\ Path.Ext p = ".jsonl"%string
                        /\ parseSessionFile p f0 = inl c))).
      { intros errs Hi Hno. rewrite Hi. split.
        - intros [(p & -> & H)|(p & f0 & c & -> & H & H')].
          + left. exists p. split; [reflexivity|]. apply Hold. auto.
          + right. exists p, f0, c. split; [reflexivity|]. split; [|exact H'].
            apply Hold. auto.
        - intros [(p & -> & H)|(p & f0 & c & -> & H & H1 & H2)];
            apply Hold in H as [H|H]; try discriminate.
          + left. eauto.
          + right. exists p, f0, c. auto.
          + injection H as -> ->. exfalso. exact (Hno _ H2 H1). }
      destruct (String.eqb_spec (Path.Ext path) ".jsonl") as [He|He]; cbn [negb].
      * destruct (parseSessionFile path f) as [c|s] eqn:Ep.
        -- cbn [combinedErr]. rewrite elem_of_app, list_elem_of_singleton, IH. split.
           ++ intros [[(p & -> & H)|(p & f0 & c0 & -> & H & H')]| ->].
              ** left. exists p. split; [reflexivity|]. apply Hold. auto.
              ** right. exists p, f0, c0. split; [reflexivity|]. split; [|exact H'].
                 apply Hold. auto.
              ** right. exists path, f, c. split; [reflexivity|].
                 split; [apply Hold; auto | auto].
           ++ intros [(p & -> & H)|(p & f0 & c0 & -> & H & H1 & H2)];
                apply Hold in H as [H|H]; try discriminate.
              ** left. left. eauto.
              ** left. right. exists p, f0, c0. auto.
              ** injection H as -> ->. right. congruence.
        -- assert (Hc : combinedErr (match byID (walkAll vs) !! ID s with
                                     | Some existing =>
                                         mkWalk (<[ID s := merge existing s]>
                                                   (byID (walkAll vs)))
                                                (combinedErr (walkAll vs))
                                     | None =>
                                         mkWalk (<[ID s := Snapshot s]>
                                                   (byID (walkAll vs)))
                                                (combinedErr (walkAll vs))
                                     end) = combinedErr (walkAll vs))
             by (destruct (byID (walkAll vs) !! ID s); reflexivity).
           rewrite Hc. apply Hkeep; [exact IH | discriminate].
      * apply Hkeep; [exact IH | intros c _; exact He].
Qed.

Lemma finish_sorted (m : gmap string Session) :
  StronglySorted newestFirst (finish m).
Proof. unfold finish. apply StronglySorted_merge_sort; apply _. Qed.

Lemma sortPaths_elem (r : Session) (p : string) :
  p ∈ FilePaths (sortPaths r) <-> p ∈ FilePaths r.
Proof. cbn. now rewrite AggregatorFacts.sortStrings_perm. Qed.

(** [Load] on a root that is a directory returns the end of the walk. *)
Lemma Load_walk (w : world) (dir root : string) ss errs :
  Load w dir = Loaded ss errs ->
  ResolveDir w dir = inr root ->
  stat w root = StatIsDir ->
  ss = finish (byID (walkAll (walk w root)))
  /\ errs = combinedErr (walkAll (walk w root)).
Proof.
  intros Hl Hr Hs.
  rewrite (AggregatorFacts.Load_directory _ _ _ _ _ Hr Hs) in Hl.
  injection Hl as <- <-. auto.
Qed.

(** X6. The sessions [Load] returns are sorted by update time, the latest
    first; no two of them share an identifier and no identifier is empty; the
    paths of each are sorted ascending, without duplicates, and at least
    one. *)
Theorem Load_sessions_well_formed (w : world) (dir : string) ss errs :
  Load w dir = Loaded ss errs ->
  StronglySorted newestFirst ss
  /\ NoDup (map ID ss)
  /\ Forall (fun s => ID s <> EmptyString
                      /\ FilePaths s <> []
                      /\ NoDup (FilePaths s)
                      /\ StronglySorted String.le (FilePaths s)) ss.
Proof.
  unfold Sessions.Load.
  destruct (ResolveDir w dir) as [e|root]; [discriminate|].
  destruct (stat w root); try discriminate.
  - intros [= <- <-]. repeat split; constructor.
  - intros [= <- <-]. split; [apply finish_sorted|]. split.
    + apply AggregatorFacts.finish_distinct_ids, AggregatorFacts.walk_recordsOK.
    + apply Forall_forall. intros s Hs.
      apply AggregatorFacts.finish_records in Hs as (k & r & Hl & ->).
      destruct (walk_traced _ _ _ Hl) as (I1 & I2 & I3 & _ & (p & frag & I5 & I6 & _)).
      destruct (walk_files_fragments _ _ _ I5) as (r' & Hl' & Hp & _).
      rewrite I6, Hl in Hl'. injection Hl' as <-.
      cbn [ID FilePaths sortPaths]. split; [congruence|]. split.
      * intros E. apply (f_equal length) in E.
        rewrite (Permutation_length (AggregatorFacts.sortStrings_perm _)) in E.
        destruct (FilePaths r); [inversion Hp | discriminate].
      * split; [|apply AggregatorFacts.sortStrings_sorted].
        now rewrite AggregatorFacts.sortStrings_perm.
Qed.

(** X7. No file of the walk is lost: a [.jsonl] file that fails to parse has
    its error, under its path, in the combined error; one that parses has its
    path among the paths of the returned session with its identifier, whose
    update time is not before the file's and whose working directory is not
    empty if the file's is not. *)
Theorem Load_accounts_for_every_file (w : world) (dir root : string) ss errs
    (p : string) (f : file) :
  Load w dir = Loaded ss errs ->
  ResolveDir w dir = inr root ->
  stat w root = StatIsDir ->
  VisitFile p f ∈ walk w root ->
  Path.Ext p = ".jsonl"%string ->
  match parseSessionFile p f with
  | inl c => ErrParse p c ∈ errs
  | inr frag =>
      exists s, s ∈ ss /\ ID s = ID frag /\ p ∈ FilePaths s
                /\ Time.instant (UpdatedAt frag) <= Time.instant (UpdatedAt s)
                /\ (WorkingDir frag <> EmptyString -> WorkingDir s <> EmptyString)
  end.
Proof.
  intros Hl Hr Hs Hin He. destruct (Load_walk _ _ _ _ _ Hl Hr Hs) as [-> ->].
  destruct (parseSessionFile p f) as [c|frag] eqn:Ep.
  - apply walk_reports. right. exists p, f, c. auto.
  - destruct (walk_files_fragments (walk w root) p frag) as (r & Hlk & H1 & H2 & H3);
      [exists f; auto|].
    destruct (walk_traced _ _ _ Hlk) as (I1 & _).
    exists (sortPaths r). split; [|split; [exact I1|split; [|auto]]].
    + apply AggregatorFacts.finish_records. eauto.
    + now apply sortPaths_elem.
Qed.

(** X8. [Load] reports only what the walk has met: every path of a returned
    session is a [.jsonl] file of the walk that parsed with the identifier of
    the session, and every error of the combined error is the error of a
    failed visit or of a [.jsonl] file that did not parse. *)
Theorem Load_reports_only_what_it_saw (w : world) (dir root : string) ss errs :
  Load w dir = Loaded ss errs ->
  ResolveDir w dir = inr root ->
  stat w root = StatIsDir ->
  (forall s p, s ∈ ss -> p ∈ FilePaths s ->
     exists f frag, VisitFile p f ∈ walk w root /\ Path.Ext p = ".jsonl"%string
                    /\ parseSessionFile p f = inr frag /\ ID frag = ID s)
  /\ (forall e, e ∈ errs ->
        (exists p, e = ErrWalk p /\ WalkErr p ∈ walk w root)
        \/ (exists p f c, e = ErrParse p c /\ VisitFile p f ∈ walk w root
                          /\ Path.Ext p = ".jsonl"%string
                          /\ parseSessionFile p f = inl c)).
Proof.
  intros Hl Hr Hs. destruct (Load_walk _ _ _ _ _ Hl Hr Hs) as [-> ->]. split.
  - intros s p Hin Hp.
    apply AggregatorFacts.finish_records in Hin as (k & r & Hlk & ->).
    apply (proj1 (sortPaths_elem _ _)) in Hp.
    destruct (walk_traced _ _ _ Hlk) as (I1 & _ & _ & I4 & _).
    destruct (I4 p Hp) as (frag & (f & F1 & F2 & F3) & F4).
    exists f, frag. cbn [ID sortPaths]. repeat split; auto. congruence.
  - intros e He. now apply walk_reports.
Qed.

(** X9. The update time and the last action of a returned session are those
    of one of its files, and no file of the session has a later update
    time. *)
Theorem Load_shows_latest_fragment (w : world) (dir root : string) ss errs
    (s : Session) :
  Load w dir = Loaded ss errs ->
  ResolveDir w dir = inr root ->
  stat w root = StatIsDir ->
  s ∈ ss ->
  (exists p f frag,
     VisitFile p f ∈ walk w root /\ Path.Ext p = ".jsonl"%string
     /\ parseSessionFile p f = inr frag /\ ID frag = ID s
     /\ UpdatedAt frag = UpdatedAt s /\ LastAction frag = LastAction s)
  /\ (forall p f frag,
        VisitFile p f ∈ walk w root -> Path.Ext p = ".jsonl"%string ->
        parseSessionFile p f = inr frag -> ID frag = ID s ->
        Time.instant (UpdatedAt frag) <= Time.instant (UpdatedAt s)).
Proof.
  intros Hl Hr Hs Hin. destruct (Load_walk _ _ _ _ _ Hl Hr Hs) as [-> ->].
  apply AggregatorFacts.finish_records in Hin as (k & r & Hlk & ->).
  destruct (walk_traced _ _ _ Hlk) as (I1 & _ & _ & _ & (p & frag & (f & F1 & F2 & F3) & F4 & F5 & F6)).
  cbn [ID UpdatedAt LastAction sortPaths]. split.
  - exists p, f, frag. repeat split; auto. congruence.
  - intros p' f' frag' G1 G2 G3 G4.
    destruct (walk_files_fragments (walk w root) p' frag') as (r' & Hlk' & _ & H2 & _);
      [exists f'; auto|].
    rewrite G4, I1, Hlk in Hlk'. now injection Hlk' as <-.
Qed.

End Walk.

(** The sessions directory [/r] with the two fragments of the session [S1]. *)
Lemma Load_sessions_well_formed_witness :
  exists ss errs,
    Load Demo.noText Rfc3339.timeParse
      (Demo.worldOf [("/r/a.jsonl"%string, Demo.fragmentA);
                     ("/r/b.jsonl"%string, Demo.fragmentB)]) "/r" = Loaded ss errs
    /\ StronglySorted newestFirst ss
    /\ NoDup (map ID ss)
    /\ Forall (fun s => ID s <> EmptyString
                        /\ FilePaths s <> []
                        /\ NoDup (FilePaths s)
                        /\ StronglySorted String.le (FilePaths s)) ss.
Proof.
  eexists. eexists. split; [vm_compute; reflexivity|].
  eapply (Load_sessions_well_formed Demo.noText Rfc3339.timeParse
            (Demo.worldOf [("/r/a.jsonl"%string, Demo.fragmentA);
                           ("/r/b.jsonl"%string, Demo.fragmentB)]) "/r").
  vm_compute. reflexivity.
Defined.

Lemma Load_accounts_for_every_file_witness :
  exists s,
    s ∈ [mkSession "S1" (Time.mk 63850154400000000000 0)
           (Time.mk 63850154820000000000 0) "/work" "assistant_message: hi there"
           ["/r/a.jsonl"%string; "/r/b.jsonl"%string]]
    /\ ID s = "S1"%string /\ "/r/a.jsonl"%string ∈ FilePaths s
    /\ 63850154405000000000 <= Time.instant (UpdatedAt s)
    /\ ("/work"%string <> EmptyString -> WorkingDir s <> EmptyString).
Proof.
  apply (Load_accounts_for_every_file Demo.noText Rfc3339.timeParse
           (Demo.worldOf [("/r/a.jsonl"%string, Demo.fragmentA);
                          ("/r/b.jsonl"%string, Demo.fragmentB)]) "/r" "/r"
           _ [] "/r/a.jsonl" (Reads Demo.fragmentA)).
  - vm_compute. reflexivity.
  - vm_compute. reflexivity.
  - reflexivity.
  - cbn. right. left.
  - vm_compute. reflexivity.
Defined.

Lemma Load_reports_only_what_it_saw_witness :
  exists f frag,
    VisitFile "/r/b.jsonl" f
      ∈ walk (Demo.worldOf [("/r/a.jsonl"%string, Demo.fragmentA);
                           ("/r/b.jsonl"%string, Demo.fragmentB)]) "/r"
    /\ Path.Ext "/r/b.jsonl" = ".jsonl"%string
    /\ Sessions.parseSessionFile Demo.noText Rfc3339.timeParse "/r/b.jsonl" f = inr frag
    /\ ID frag = "S1"%string.
Proof.
  refine (proj1 (Load_reports_only_what_it_saw Demo.noText Rfc3339.timeParse
           (Demo.worldOf [("/r/a.jsonl"%string, Demo.fragmentA);
                          ("/r/b.jsonl"%string, Demo.fragmentB)]) "/r" "/r"
           [mkSession "S1" (Time.mk 63850154400000000000 0)
              (Time.mk 63850154820000000000 0) "/work" "assistant_message: hi there"
              ["/r/a.jsonl"%string; "/r/b.jsonl"%string]] [] _ _ _)
           (mkSession "S1" (Time.mk 63850154400000000000 0)
              (Time.mk 63850154820000000000 0) "/work" "assistant_message: hi there"
              ["/r/a.jsonl"%string; "/r/b.jsonl"%string]) "/r/b.jsonl" _ _).
  - vm_compute. reflexivity.
  - vm_compute. reflexivity.
  - reflexivity.
  - left.
  - cbn. right. left.
Defined.

Lemma Load_shows_latest_fragment_witness :
  exists p f frag,
    VisitFile p f
      ∈ walk (Demo.worldOf [("/r/a.jsonl"%string, Demo.fragmentA);
                           ("/r/b.jsonl"%string, Demo.fragmentB)]) "/r"
    /\ Path.Ext p = ".jsonl"%string
    /\ Sessions.parseSessionFile Demo.noText Rfc3339.timeParse p f = inr frag
    /\ ID frag = "S1"%string
    /\ UpdatedAt frag = Time.mk 63850154820000000000 0
    /\ LastAction frag = "assistant_message: hi there"%string.
Proof.
  refine (proj1 (Load_shows_latest_fragment Demo.noText Rfc3339.timeParse
           (Demo.worldOf [("/r/a.jsonl"%string, Demo.fragmentA);
                          ("/r/b.jsonl"%string, Demo.fragmentB)]) "/r" "/r"
           [mkSession "S1" (Time.mk 63850154400000000000 0)
              (Time.mk 63850154820000000000 0) "/work" "assistant_message: hi there"
              ["/r/a.jsonl"%string; "/r/b.jsonl"%string]] []
           (mkSession "S1" (Time.mk 63850154400000000000 0)
              (Time.mk 63850154820000000000 0) "/work" "assistant_message: hi there"
              ["/r/a.jsonl"%string; "/r/b.jsonl"%string]) _ _ _ _)).
  - vm_compute. reflexivity.
  - vm_compute. reflexivity.
  - reflexivity.
  - left.
Defined.

End AggregatorMore.

(* ===================================================================== *)
(** * More about deletion                                                 *)
(* ===================================================================== *)

Module DeleteMore.
Import Sessions.

(** [os.Remove] takes one path out of the tree, or fails and leaves the
    tree. *)
Lemma Remove_inr (name : string) (fs fs' : Fs.fsys) :
  Fs.Remove name fs = inr fs' ->
  fs' = delete (Path.Clean name) fs
  /\ exists n, fs !! Path.Clean name = Some n
               /\ match n with
                  | Fs.File => True
                  | Fs.Directory _ => Fs.hasEntries fs (Path.Clean name) = false
                  end.
Proof.
  unfold Fs.Remove. destruct (Fs.belowFile fs (Path.Clean name)); [discriminate|].
  destruct (fs !! Path.Clean name) as [n|] eqn:E; [|discriminate].
  destruct (Fs.readOnlyParent fs (Path.Clean name)); [discriminate|].
  destruct n as [|w].
  - intros [= <-]. split; [reflexivity|]. now exists Fs.File.
  - destruct (Fs.hasEntries fs (Path.Clean name)) eqn:Eh; [discriminate|].
    intros [= <-]. split; [reflexivity|]. now exists (Fs.Directory w).
Qed.

Lemma Remove_ENOENT (name : string) (fs : Fs.fsys) :
  Fs.Remove name fs = inl Fs.ENOENT -> fs !! Path.Clean name = None.
Proof.
  unfold Fs.Remove. destruct (Fs.belowFile fs (Path.Clean name)); [discriminate|].
  destruct (fs !! Path.Clean name) as [n|]; [|reflexivity].
  destruct (Fs.readOnlyParent fs (Path.Clean name)); [discriminate|].
  destruct n; [discriminate|].
  destruct (Fs.hasEntries fs (Path.Clean name)); discriminate.
Qed.

Lemma Remove_subseteq (name : string) (fs fs' : Fs.fsys) :
  Fs.Remove name fs = inr fs' -> fs' ⊆ fs.
Proof. intros H. apply Remove_inr in H as [-> _]. apply delete_subseteq. Qed.

Lemma cleanupLoop_subseteq (isRooted : bool) (rcomps : list string) (stop : string) :
  forall fs, cleanupLoop isRooted rcomps stop fs ⊆ fs.
Proof.
  induction rcomps as [|c parent IH]; intros fs; cbn [cleanupLoop]; [reflexivity|].
  match goal with |- (if ?c then _ else _) ⊆ _ => destruct c end; [reflexivity|].
  match goal with |- match ?r with _ => _ end ⊆ _ => destruct r as [e|fs'] eqn:Er end;
    [reflexivity|].
  match goal with |- (if ?c then _ else _) ⊆ _ => destruct c end.
  - eapply Remove_subseteq; eauto.
  - etrans; [apply IH | eapply Remove_subseteq; eauto].
Qed.

Lemma cleanupParentDirectories_subseteq (start stop : string) (fs : Fs.fsys) :
  cleanupParentDirectories start stop fs ⊆ fs.
Proof. apply cleanupLoop_subseteq. Qed.

(** One round of the loop of [DeleteFiles]. *)
Definition removeOne (sessionsRoot : string) (acc : Fs.fsys * list error)
    (path : string) : Fs.fsys * list error :=
  let '(fs, combined) := acc in
  match Fs.Remove path fs with
  | inl Fs.ENOENT =>
      (cleanupParentDirectories (Path.Dir path) sessionsRoot fs, combined)
  | inl e => (fs, combined ++ [ErrRemove path e])
  | inr fs' =>
      (cleanupParentDirectories (Path.Dir path) sessionsRoot fs', combined)
  end.

Lemma DeleteFiles_fold (sess : Session) (sessionsRoot : string) (fs : Fs.fsys) :
  DeleteFiles sess sessionsRoot fs
  = fold_left (removeOne (if negb (String.eqb sessionsRoot EmptyString)
                          then Path.Clean sessionsRoot else sessionsRoot))
              (FilePaths sess) (fs, []).
Proof. reflexivity. Qed.

Lemma removeOne_spec (root : string) (fs : Fs.fsys) (errs : list error) (path : string) :
  fst (removeOne root (fs, errs) path) ⊆ fs
  /\ ((snd (removeOne root (fs, errs) path) = errs
       /\ fst (removeOne root (fs, errs) path) !! Path.Clean path = None)
      \/ (exists c, c <> Fs.ENOENT
                    /\ snd (removeOne root (fs, errs) path)
                       = errs ++ [ErrRemove path c])).
Proof.
  cbn [removeOne]. destruct (Fs.Remove path fs) as [c|fs'] eqn:Er.
  - destruct c; cbn [fst snd].
    + split; [apply cleanupParentDirectories_subseteq|]. left.
      split; [reflexivity|]. apply Remove_ENOENT in Er.
      eapply lookup_weaken_None; [exact Er | apply cleanupParentDirectories_subseteq].
    + split; [reflexivity|]. right. exists Fs.ENOTDIR. split; [discriminate|reflexivity].
    + split; [reflexivity|]. right. exists Fs.ENOTEMPTY. split; [discriminate|reflexivity].
    + split; [reflexivity|]. right. exists Fs.EACCES. split; [discriminate|reflexivity].
  - cbn [fst snd]. split.
    + etrans; [apply cleanupParentDirectories_subseteq | eapply Remove_subseteq; eauto].
    + left. split; [reflexivity|]. apply Remove_inr in Er as [-> _].
      eapply lookup_weaken_None; [apply lookup_delete_eq
                                 | apply cleanupParentDirectories_subseteq].
Qed.

Lemma removeAll_spec (root : string) (paths : list string) :
  forall fs errs,
    fst (fold_left (removeOne root) paths (fs, errs)) ⊆ fs
    /\ (forall e, e ∈ snd (fold_left (removeOne root) paths (fs, errs)) ->
          e ∈ errs \/ exists path c, e = ErrRemove path c /\ path ∈ paths
                                      /\ c <> Fs.ENOENT)
    /\ (forall e, e ∈ errs -> e ∈ snd (fold_left (removeOne root) paths (fs, errs)))
    /\ (forall path, path ∈ paths ->
          fst (fold_left (removeOne root) paths (fs, errs)) !! Path.Clean path = None
          \/ exists c, ErrRemove path c
                         ∈ snd (fold_left (removeOne root) paths (fs, errs))).
Proof.
  induction paths as [|p paths IH]; intros fs errs; cbn [fold_left].
  - cbn [fst snd]. split; [reflexivity|]. split; [auto|]. split; [auto|].
    intros path H. inversion H.
  - destruct (removeOne_spec root fs errs p) as [Hsub Hcase].
    destruct (removeOne root (fs, errs) p) as [fs1 errs1] eqn:E1. cbn [fst snd] in *.
    destruct (IH fs1 errs1) as (I1 & I2 & I3 & I4).
    split; [etrans; eauto|]. split; [|split].
    + intros e He. destruct (I2 e He) as [H|(q & c & -> & Hq & Hc)].
      * destruct Hcase as [[-> _]|(c & Hc & ->)]; [now left|].
        apply elem_of_app in H as [H|H]; [now left|].
        apply list_elem_of_singleton in H as ->. right. exists p, c.
        split; [reflexivity|]. split; [left | exact Hc].
      * right. exists q, c. split; [reflexivity|]. split; [now right | exact Hc].
    + intros e He. apply I3. destruct Hcase as [[-> _]|(c & _ & ->)]; [exact He|].
      apply elem_of_app. now left.
    + intros path Hin. apply elem_of_cons in Hin as [->|Hin]; [|now apply I4].
      destruct Hcase as [[_ Hgone]|(c & _ & ->)].
      * left. eapply lookup_weaken_None; eauto.
      * right. exists c. apply I3, elem_of_app. right. left.
Qed.

(** X10. [DeleteFiles] only removes: what is left of the tree is part of
    the tree before. Every error it returns is the error of removing one of
    the paths of the session, and never that the path does not exist; and
    every path of the session is gone afterwards or has its error in the
    result. *)
Theorem DeleteFiles_removes_or_reports (sess : Session) (sessionsRoot : string)
    (fs : Fs.fsys) :
  fst (DeleteFiles sess sessionsRoot fs) ⊆ fs
  /\ (forall e, e ∈ snd (DeleteFiles sess sessionsRoot fs) ->
        exists path c, e = ErrRemove path c /\ path ∈ FilePaths sess
                       /\ c <> Fs.ENOENT)
  /\ (forall path, path ∈ FilePaths sess ->
        fst (DeleteFiles sess sessionsRoot fs) !! Path.Clean path = None
        \/ exists c, ErrRemove path c ∈ snd (DeleteFiles sess sessionsRoot fs)).
Proof.
  rewrite DeleteFiles_fold.
  destruct (removeAll_spec
              (if negb (String.eqb sessionsRoot EmptyString)
               then Path.Clean sessionsRoot else sessionsRoot)
              (FilePaths sess) fs []) as (H1 & H2 & _ & H4).
  split; [exact H1|]. split; [|exact H4].
  intros e He. destruct (H2 e He) as [H|H]; [inversion H | exact H].
Qed.

(** A path of the session that leads through the regular file
    [/r/a/f.jsonl] is reported, and nothing is removed. *)
Example path_below_a_file_is_reported :
  let sess := mkSession "S1" Time.zero Time.zero EmptyString EmptyString
                        ["/r/a/f.jsonl/x"%string] in
  Fs.Remove "/r/a/f.jsonl/x" Demo.loneTree = inl Fs.ENOTDIR
  /\ snd (DeleteFiles sess "/r" Demo.loneTree)
     = [ErrRemove "/r/a/f.jsonl/x" Fs.ENOTDIR]
  /\ fst (DeleteFiles sess "/r" Demo.loneTree) !! "/r/a/f.jsonl"%string
     = Some Fs.File
  /\ fst (DeleteFiles sess "/r" Demo.loneTree) !! "/r/a"%string
     = Some (Fs.Directory true).
Proof. cbv zeta. repeat split; vm_compute; reflexivity. Qed.

(** ** Directories with entries stay *)

(** Every entry of the tree lies in a directory of the tree. *)
Definition closedTree (fs : Fs.fsys) : Prop :=
  forall p n, fs !! p = Some n -> Path.Dir p <> p ->
              exists w, fs !! Path.Dir p = Some (Fs.Directory w).

(** The same, as a check of the entries one by one. *)
Definition closedTreeb (fs : Fs.fsys) : bool :=
  forallb (fun kv => String.eqb (Path.Dir (fst kv)) (fst kv)
                     || match fs !! Path.Dir (fst kv) with
                        | Some (Fs.Directory _) => true
                        | _ => false
                        end)
          (map_to_list fs).

Lemma closedTreeb_closedTree (fs : Fs.fsys) : closedTreeb fs = true -> closedTree fs.
Proof.
  unfold closedTreeb. rewrite forallb_forall. intros H p n Hp Hd.
  specialize (H (p, n)). cbn [fst] in H.
  destruct (String.eqb_spec (Path.Dir p) p) as [E|_]; [contradiction|].
  cbn [orb] in H.
  destruct (fs !! Path.Dir p) as [[|w]|].
  - discriminate H. now apply list_elem_of_In, elem_of_map_to_list.
  - now exists w.
  - discriminate H. now apply list_elem_of_In, elem_of_map_to_list.
Qed.

Lemma hasEntries_false (fs : Fs.fsys) (dir k : string) (n : Fs.node) :
  Fs.hasEntries fs dir = false -> fs !! k = Some n -> k <> dir -> Path.Dir k <> dir.
Proof.
  unfold Fs.hasEntries. intros Hf Hk Hne Hd.
  assert (Ht : existsb (fun kv => negb (String.eqb (fst kv) dir)
                                  && String.eqb (Path.Dir (fst kv)) dir)
                       (map_to_list fs) = true).
  { apply existsb_exists. exists (k, n). split.
    - now apply list_elem_of_In, elem_of_map_to_list.
    - cbn [fst]. rewrite Hd, String.eqb_refl, andb_true_r.
      destruct (String.eqb_spec k dir); [contradiction | reflexivity]. }
  congruence.
Qed.

Lemma Remove_closed (name : string) (fs fs' : Fs.fsys) :
  closedTree fs -> Fs.Remove name fs = inr fs' -> closedTree fs'.
Proof.
  intros Hc Hr. apply Remove_inr in Hr as (-> & n0 & Hn0 & Hempty).
  intros k n Hk Hd. apply lookup_delete_Some in Hk as [Hne Hk].
  destruct (Hc k n Hk Hd) as [w Hw]. exists w.
  apply lookup_delete_Some. split; [|exact Hw].
  intros E. rewrite <- E, Hn0 in Hw. injection Hw as ->.
  apply (hasEntries_false _ _ _ _ Hempty Hk); auto.
Qed.

Lemma cleanupLoop_closed (isRooted : bool) (rcomps : list string) (stop : string) :
  forall fs, closedTree fs -> closedTree (cleanupLoop isRooted rcomps stop fs).
Proof.
  induction rcomps as [|c parent IH]; intros fs Hc; cbn [cleanupLoop]; [exact Hc|].
  match goal with |- closedTree (if ?c then _ else _) => destruct c end; [exact Hc|].
  match goal with |- closedTree (match ?r with _ => _ end) =>
    destruct r as [e|fs'] eqn:Er end; [exact Hc|].
  pose proof (Remove_closed _ _ _ Hc Er) as Hc'.
  match goal with |- closedTree (if ?c then _ else _) => destruct c end; auto.
Qed.

Lemma removeOne_closed (root : string) (fs : Fs.fsys) (errs : list error)
    (path : string) :
  closedTree fs -> closedTree (fst (removeOne root (fs, errs) path)).
Proof.
  intros Hc. cbn [removeOne]. destruct (Fs.Remove path fs) as [c|fs'] eqn:Er.
  - destruct c; cbn [fst]; auto. now apply cleanupLoop_closed.
  - cbn [fst]. apply cleanupLoop_closed. eapply Remove_closed; eauto.
Qed.

(** X11. [DeleteFiles] leaves no entry without its directory: in a tree
    where every entry lies in a directory of the tree, no directory is
    removed while an entry of it stays. *)
Theorem DeleteFiles_keeps_tree_closed (sess : Session) (sessionsRoot : string)
    (fs : Fs.fsys) :
  closedTree fs -> closedTree (fst (DeleteFiles sess sessionsRoot fs)).
Proof.
  rewrite DeleteFiles_fold.
  generalize (if negb (String.eqb sessionsRoot EmptyString)
              then Path.Clean sessionsRoot else sessionsRoot) as root.
  intros root. generalize (@nil error) as errs. revert fs.
  induction (FilePaths sess) as [|p paths IH]; intros fs errs Hc; cbn [fold_left];
    [exact Hc|].
  pose proof (removeOne_closed root fs errs p Hc) as H1.
  destruct (removeOne root (fs, errs) p) as [fs1 errs1]. now apply IH.
Qed.

(** The tree [/r/a/f.jsonl] and the session of its file. *)
Lemma DeleteFiles_keeps_tree_closed_witness :
  closedTree (fst (DeleteFiles Demo.loneSession "/r" Demo.sharedTree)).
Proof.
  apply (DeleteFiles_keeps_tree_closed Demo.loneSession "/r" Demo.sharedTree).
  apply closedTreeb_closedTree. vm_compute. reflexivity.
Defined.

End DeleteMore.

(* ===================================================================== *)
(** * Cleaned paths                                                       *)
(* ===================================================================== *)

Module PathFacts.
Import Path.

(** No separator in the string. *)
Fixpoint sepFree (s : string) : bool :=
  match s with
  | EmptyString => true
  | String c r => negb (isSep c) && sepFree r
  end.

(** An element that [cleanStep] may leave on its stack. *)
Definition kept (e : string) : Prop :=
  e <> EmptyString /\ e <> "."%string /\ sepFree e = true.

(** The stacks of [cleanStep]: elements other than [..] on top of a run of
    [..], which is empty for a rooted path. *)
Definition okStack (r : bool) (stack : list string) : Prop :=
  exists top k, stack = top ++ repeat ".."%string k
    /\ Forall kept top /\ Forall (fun e => e <> ".."%string) top
    /\ (r = true -> k = 0%nat).

Lemma sepFree_app (a b : string) :
  sepFree (a +:+ b) = sepFree a && sepFree b.
Proof.
  induction a as [|c a IH]; cbn [String.append sepFree]; [reflexivity|].
  now rewrite IH, andb_assoc.
Qed.

Lemma splitSep_sepFree (s : string) : forall cur,
  sepFree cur = true -> Forall (fun e => sepFree e = true) (splitSep s cur).
Proof.
  induction s as [|c s IH]; intros cur Hc; cbn [splitSep].
  - now constructor.
  - destruct (isSep c) eqn:Ec.
    + constructor; [exact Hc | now apply IH].
    + apply IH. rewrite sepFree_app, Hc. cbn. now rewrite Ec.
Qed.

Lemma splitSep_app (c s : string) : forall cur,
  sepFree c = true -> splitSep (c +:+ s) cur = splitSep s (cur +:+ c).
Proof.
  induction c as [|a c IH]; intros cur Hc; cbn [String.append].
  - now rewrite StrFacts.append_nil_r.
  - cbn [sepFree] in Hc. apply andb_true_iff in Hc as [Ha Hc].
    cbn [splitSep]. apply negb_true_iff in Ha. rewrite Ha, (IH _ Hc).
    now rewrite StrFacts.append_assoc.
Qed.

Lemma splitSep_concat (cs : list string) : forall c cur,
  Forall (fun e => sepFree e = true) (c :: cs) ->
  splitSep (String.concat "/" (c :: cs)) cur = (cur +:+ c) :: cs.
Proof.
  induction cs as [|d cs IH]; intros c cur Hall; inversion Hall as [|? ? Hc Hrest]; subst.
  - cbn [String.concat]. rewrite <- (StrFacts.append_nil_r c) at 1.
    now rewrite splitSep_app.
  - change (String.concat "/" (c :: d :: cs))
      with (c +:+ String "/" (String.concat "/" (d :: cs))).
    rewrite splitSep_app by exact Hc. cbn [splitSep isSep Ascii.eqb].
    change (Ascii.eqb "/" "/") with true. cbn iota.
    now rewrite (IH d EmptyString Hrest).
Qed.

Lemma dots_kept : kept "..".
Proof. repeat split; discriminate. Qed.

Lemma okStack_kept (r : bool) (stack : list string) :
  okStack r stack -> Forall kept stack.
Proof.
  intros (top & k & -> & Ht & _ & _). apply Forall_app. split; [exact Ht|].
  apply Forall_forall. intros x Hx.
  apply (proj1 (list_elem_of_In _ _)), repeat_spec in Hx as ->.
  apply dots_kept.
Qed.

Lemma cleanStep_ok (r : bool) (stack : list string) (e : string) :
  sepFree e = true -> okStack r stack -> okStack r (cleanStep r stack e).
Proof.
  intros He Hok. unfold cleanStep.
  destruct (String.eqb_spec e EmptyString) as [E1|E1]; [exact Hok|].
  destruct (String.eqb_spec e ".") as [E2|E2]; [exact Hok|]. cbn [orb].
  destruct (String.eqb_spec e "..") as [E3|E3].
  - destruct Hok as (top & k & -> & Ht & Hd & Hr). destruct top as [|t top].
    + cbn [app]. destruct k as [|k]; cbn [repeat].
      * destruct r; [exists [], 0%nat | exists [], 1%nat]; subst e; repeat split;
          auto; discriminate.
      * cbn. exists [], (S (S k)). subst e. repeat split; auto.
        intros Hr'. now specialize (Hr Hr').
    + cbn [app]. inversion Ht; inversion Hd; subst.
      destruct (String.eqb_spec t ".."); [contradiction|].
      exists top, k. auto.
  - destruct Hok as (top & k & -> & Ht & Hd & Hr).
    exists (e :: top), k. split; [reflexivity|]. split; [|split; [|exact Hr]].
    + constructor; [repeat split; assumption | exact Ht].
    + constructor; assumption.
Qed.

Lemma fold_ok (r : bool) (es : list string) : forall stack,
  Forall (fun e => sepFree e = true) es -> okStack r stack ->
  okStack r (fold_left (cleanStep r) es stack).
Proof.
  induction es as [|e es IH]; intros stack Hall Hok; cbn [fold_left]; [exact Hok|].
  inversion Hall; subst. apply IH; [assumption|]. now apply cleanStep_ok.
Qed.

(** What [clean] returns. *)
Lemma clean_ok (p : string) :
  exists stack, okStack (startsWithSep p) stack
                /\ clean p = mkc (startsWithSep p) (rev stack).
Proof.
  exists (fold_left (cleanStep (startsWithSep p)) (splitSep p EmptyString) []).
  split; [|reflexivity].
  apply fold_ok; [now apply splitSep_sepFree|].
  exists [], 0%nat. repeat split; auto.
Qed.

Lemma push_kept (r : bool) (l : list string) : forall stack,
  Forall kept l -> Forall (fun e => e <> ".."%string) l ->
  fold_left (cleanStep r) l stack = rev l ++ stack.
Proof.
  induction l as [|a l IH]; intros stack Hk Hd; cbn [fold_left rev]; [reflexivity|].
  inversion Hk as [|? ? (K1 & K2 & _) Hk']; inversion Hd as [|? ? D1 Hd']; subst.
  rewrite IH by assumption. rewrite <- app_assoc. cbn [app]. f_equal.
  unfold cleanStep.
  destruct (String.eqb_spec a EmptyString); [contradiction|].
  destruct (String.eqb_spec a "."); [contradiction|].
  destruct (String.eqb_spec a ".."); [contradiction|]. reflexivity.
Qed.

Lemma push_dots (k : nat) : forall j,
  fold_left (cleanStep false) (repeat ".."%string k) (repeat ".."%string j)
  = repeat ".."%string (k + j).
Proof.
  induction k as [|k IH]; intros j; cbn [repeat fold_left]; [reflexivity|].
  replace (cleanStep false (repeat ".."%string j) "..")
    with (repeat ".."%string (S j)) by (destruct j; reflexivity).
  rewrite IH. f_equal. lia.
Qed.

Lemma rev_dots (k : nat) : rev (repeat ".."%string k) = repeat ".."%string k.
Proof.
  induction k as [|k IH]; [reflexivity|]. cbn [repeat rev]. rewrite IH.
  symmetry. apply repeat_cons.
Qed.

(** Cleaning the elements of a cleaned path gives them back. *)
Lemma fold_rev_ok (r : bool) (stack : list string) :
  okStack r stack -> fold_left (cleanStep r) (rev stack) [] = stack.
Proof.
  intros (top & k & -> & Ht & Hd & Hr).
  rewrite rev_app_distr, rev_dots, fold_left_app.
  assert (E : fold_left (cleanStep r) (repeat ".."%string k) []
              = repeat ".."%string k).
  { destruct r.
    - rewrite (Hr eq_refl). reflexivity.
    - change (@nil string) with (repeat ".."%string 0).
      rewrite (push_dots k 0). f_equal. lia. }
  rewrite E, push_kept.
  - now rewrite rev_involutive.
  - now apply Forall_rev.
  - now apply Forall_rev.
Qed.

Lemma startsWithSep_concat (c : string) (cs : list string) :
  kept c -> startsWithSep (String.concat "/" (c :: cs)) = false.
Proof.
  intros (Hne & _ & Hs). destruct c as [|a c]; [contradiction|].
  cbn [sepFree] in Hs. apply andb_true_iff in Hs as [Ha _].
  apply negb_true_iff in Ha. destruct cs; cbn; exact Ha.
Qed.

Lemma clean_render (r : bool) (stack : list string) :
  okStack r stack -> clean (render (mkc r (rev stack))) = mkc r (rev stack).
Proof.
  intros Hok. pose proof (fold_rev_ok r stack Hok) as Hf.
  assert (Hk : Forall kept (rev stack)) by (apply Forall_rev; eapply okStack_kept; eauto).
  assert (Hs : Forall (fun e => sepFree e = true) (rev stack)).
  { eapply Forall_impl; [exact Hk|]. now intros e (_ & _ & H). }
  destruct (rev stack) as [|c cs] eqn:Er.
  - assert (stack = []) as -> by (apply (f_equal (@rev string)) in Er;
                                   now rewrite rev_involutive in Er).
    destruct r; reflexivity.
  - unfold clean, render. cbn [rooted comps]. destruct r.
    + cbn [String.append startsWithSep splitSep].
      change (isSep "/") with true. cbn iota.
      rewrite splitSep_concat by exact Hs. cbn [String.append].
      change (fold_left (cleanStep true) (EmptyString :: c :: cs) [])
        with (fold_left (cleanStep true) (c :: cs) []).
      now rewrite Hf, Er.
    + rewrite startsWithSep_concat by (inversion Hk; assumption).
      rewrite splitSep_concat by exact Hs. cbn [String.append].
      now rewrite Hf, Er.
Qed.

(** Cleaning a cleaned path changes nothing. *)
Lemma clean_Clean (p : string) : clean (Clean p) = clean p.
Proof.
  unfold Clean. destruct (clean_ok p) as (stack & Hok & ->). now apply clean_render.
Qed.

Lemma Clean_idempotent (p : string) : Clean (Clean p) = Clean p.
Proof. unfold Clean at 1. now rewrite clean_Clean. Qed.

Lemma Clean_nonempty (p : string) : Clean p <> EmptyString.
Proof.
  unfold Clean. destruct (clean_ok p) as (stack & Hok & ->).
  pose proof (okStack_kept _ _ Hok) as Hk. apply Forall_rev in Hk.
  unfold render. cbn [rooted comps]. destruct (startsWithSep p); [discriminate|].
  destruct (rev stack) as [|c cs]; [discriminate|].
  inversion Hk as [|? ? (Hne & _) _]; subst.
  destruct c as [|a c]; [contradiction|]. destruct cs; discriminate.
Qed.

(** [Rel] reads its target through [clean]. *)
Lemma Rel_Clean_target (base target : string) :
  Rel base (Clean target) = Rel base target.
Proof. unfold Rel. now rewrite clean_Clean. Qed.

End PathFacts.

(* ===================================================================== *)
(** * The sessions root: resolving it, pruning below it                   *)
(* ===================================================================== *)

Module RootMore.
Import Str Sessions.

(** X12. The directory [ResolveDir] returns is a cleaned path and not the
    empty one, and resolving it again returns it unchanged. *)
Theorem ResolveDir_is_stable (w : world) (dir root : string) :
  ResolveDir w dir = inr root ->
  root <> EmptyString /\ Path.Clean root = root /\ ResolveDir w root = inr root.
Proof.
  intros H.
  assert (Hc : exists x, root = Path.Clean x).
  { unfold ResolveDir in H.
    destruct (String.eqb dir EmptyString); cbn [negb] in H.
    - destruct (home w) as [h|]; [|discriminate]. injection H as <-.
      unfold Path.Join2, defaultRelativeSessionsDir.
      destruct (String.eqb h EmptyString); cbn [String.eqb]; eauto.
    - injection H as <-. eauto. }
  destruct Hc as [x ->].
  pose proof (PathFacts.Clean_nonempty x) as Hne.
  split; [exact Hne|]. split; [apply PathFacts.Clean_idempotent|].
  unfold ResolveDir. destruct (String.eqb_spec (Path.Clean x) EmptyString);
    [contradiction|]. cbn [negb]. now rewrite PathFacts.Clean_idempotent.
Qed.

Lemma okStack_tail (r : bool) (c : string) (parent : list string) :
  PathFacts.okStack r (c :: parent) -> PathFacts.okStack r parent.
Proof.
  intros (top & k & E & Ht & Hd & Hr). destruct top as [|t top].
  - destruct k as [|k]; [discriminate|]. cbn in E. injection E as _ ->.
    exists [], k. repeat split; auto. intros Hr'. now specialize (Hr Hr').
  - cbn in E. injection E as _ ->. inversion Ht; inversion Hd; subst.
    exists top, k. auto.
Qed.

(** What the pruning loop removes is a directory at or above its start, and
    never one outside of [stop]. *)
Lemma cleanupLoop_removed (r : bool) (stop : string) (rcomps : list string) :
  forall (fs : Fs.fsys) (p : string),
    PathFacts.okStack r rcomps ->
    fs !! p <> None ->
    cleanupLoop r rcomps stop fs !! p = None ->
    exists pre suf,
      rev rcomps = pre ++ suf /\ pre <> []
      /\ p = Path.render (Path.mkc r pre)
      /\ (stop <> EmptyString ->
          exists rel, Path.Rel stop p = Some rel /\ HasPrefix rel ".." = false).
Proof.
  induction rcomps as [|c parent IH]; intros fs p Hok Hin Hout; cbn [cleanupLoop] in Hout;
    [contradiction|].
  set (dir := Path.render (Path.mkc r (rev (c :: parent)))) in *.
  assert (Hdir : Path.Clean dir = dir).
  { unfold Path.Clean, dir. now rewrite PathFacts.clean_render. }
  assert (Hhere : exists pre suf,
             rev (c :: parent) = pre ++ suf /\ pre <> []
             /\ dir = Path.render (Path.mkc r pre)
             /\ ((if negb (String.eqb stop EmptyString)
                  then match Path.Rel stop dir with
                       | None => true
                       | Some rel => HasPrefix rel ".."
                       end
                  else false) = false ->
                 stop <> EmptyString ->
                 exists rel, Path.Rel stop dir = Some rel
                             /\ HasPrefix rel ".." = false)).
  { exists (rev (c :: parent)), []. split; [now rewrite app_nil_r|]. split.
    - cbn [rev]. intros E. now apply app_eq_nil in E as [_ E].
    - split; [reflexivity|]. intros Ho Hs.
      destruct (String.eqb_spec stop EmptyString); [contradiction|]. cbn [negb] in Ho.
      destruct (Path.Rel stop dir) as [rel|]; [eauto | discriminate]. }
  destruct (if negb (String.eqb stop EmptyString)
            then match Path.Rel stop dir with
                 | None => true
                 | Some rel => HasPrefix rel ".."
                 end
            else false) eqn:Eo; [contradiction|].
  destruct (Fs.Remove dir fs) as [e|fs'] eqn:Er; [contradiction|].
  apply DeleteMore.Remove_inr in Er as [-> _]. rewrite Hdir in Hout.
  destruct (String.eqb_spec p dir) as [->|Hne].
  - destruct Hhere as (pre & suf & H1 & H2 & H3 & H4).
    exists pre, suf. repeat split; auto.
  - assert (Hin' : delete dir fs !! p <> None).
    { rewrite lookup_delete_ne by congruence. exact Hin. }
    destruct (String.eqb dir stop); [contradiction|].
    destruct (IH _ _ (okStack_tail _ _ _ Hok) Hin' Hout) as (pre & suf & H1 & H2 & H3 & H4).
    exists pre, (suf ++ [c]). cbn [rev]. rewrite H1, app_assoc. auto.
Qed.

Lemma cleanupParentDirectories_removed (start stop : string) (fs : Fs.fsys)
    (p : string) :
  fs !! p <> None ->
  cleanupParentDirectories start stop fs !! p = None ->
  exists pre suf rel,
    Path.comps (Path.clean start) = pre ++ suf /\ pre <> []
    /\ p = Path.render (Path.mkc (Path.rooted (Path.clean start)) pre)
    /\ Path.Rel (Path.Clean stop) p = Some rel /\ HasPrefix rel ".." = false.
Proof.
  unfold cleanupParentDirectories. intros Hin Hout.
  destruct (PathFacts.clean_ok start) as (stack & Hok & E). rewrite E in *.
  cbn [Path.rooted Path.comps] in *. rewrite rev_involutive in Hout.
  destruct (cleanupLoop_removed _ _ _ _ _ Hok Hin Hout) as (pre & suf & H1 & H2 & H3 & H4).
  destruct (H4 (PathFacts.Clean_nonempty stop)) as (rel & R1 & R2).
  exists pre, suf, rel. auto.
Qed.

(** X13. Whatever [DeleteFiles] removes is a path of the session, or a
    directory above one of them that lies in the sessions root: its path
    relative to the root does not start with two dots. *)
Theorem DeleteFiles_prunes_within_root (sess : Session) (sessionsRoot : string)
    (fs : Fs.fsys) (p : string) :
  fs !! p <> None ->
  fst (DeleteFiles sess sessionsRoot fs) !! p = None ->
  exists q, q ∈ FilePaths sess
    /\ (p = Path.Clean q
        \/ exists pre suf rel,
             Path.comps (Path.clean (Path.Dir q)) = pre ++ suf /\ pre <> []
             /\ p = Path.render (Path.mkc (Path.rooted (Path.clean (Path.Dir q))) pre)
             /\ Path.Rel (Path.Clean sessionsRoot) p = Some rel
             /\ HasPrefix rel ".." = false).
Proof.
  rewrite DeleteMore.DeleteFiles_fold.
  assert (Hroot : Path.Clean (if negb (String.eqb sessionsRoot EmptyString)
                              then Path.Clean sessionsRoot else sessionsRoot)
                  = Path.Clean sessionsRoot).
  { destruct (String.eqb sessionsRoot EmptyString); cbn [negb];
      [reflexivity | apply PathFacts.Clean_idempotent]. }
  revert Hroot.
  generalize (if negb (String.eqb sessionsRoot EmptyString)
              then Path.Clean sessionsRoot else sessionsRoot) as root.
  intros root Hroot. generalize (@nil error) as errs. revert fs.
  induction (FilePaths sess) as [|q paths IH]; intros fs errs Hin Hout;
    cbn [fold_left] in Hout; [contradiction|].
  destruct (DeleteMore.removeOne root (fs, errs) q) as [fs1 errs1] eqn:E1.
  destruct (fs1 !! p) as [n|] eqn:Ep.
  - destruct (IH fs1 errs1) as (q' & Hq' & H); [congruence | exact Hout|].
    exists q'. split; [now right | exact H].
  - exists q. split; [left|]. clear IH Hout.
    cbn [DeleteMore.removeOne] in E1.
    destruct (Fs.Remove q fs) as [c|fs'] eqn:Er.
    + destruct c; injection E1 as <- <-; try contradiction.
      right. rewrite <- Hroot.
      now apply cleanupParentDirectories_removed with (fs := fs).
    + injection E1 as <- <-. apply DeleteMore.Remove_inr in Er as [-> _].
      destruct (String.eqb_spec p (Path.Clean q)) as [->|Hne]; [now left|].
      right. rewrite <- Hroot.
      apply cleanupParentDirectories_removed with (fs := delete (Path.Clean q) fs);
        [|exact Ep].
      rewrite lookup_delete_ne by congruence. exact Hin.
Qed.

(** The home directory [/home/u] and no directory asked for. *)
Lemma ResolveDir_is_stable_witness :
  "/home/u/.codex/sessions"%string <> EmptyString
  /\ Path.Clean "/home/u/.codex/sessions" = "/home/u/.codex/sessions"%string
  /\ ResolveDir (Demo.worldOf []) "/home/u/.codex/sessions"
     = inr "/home/u/.codex/sessions"%string.
Proof.
  apply (ResolveDir_is_stable (Demo.worldOf []) EmptyString).
  vm_compute. reflexivity.
Defined.

(** The directory [/r/a] of the one file of the session goes with it. *)
Lemma DeleteFiles_prunes_within_root_witness :
  exists q, q ∈ FilePaths Demo.loneSession
    /\ ("/r/a"%string = Path.Clean q
        \/ exists pre suf rel,
             Path.comps (Path.clean (Path.Dir q)) = pre ++ suf /\ pre <> []
             /\ "/r/a"%string
                = Path.render (Path.mkc (Path.rooted (Path.clean (Path.Dir q))) pre)
             /\ Path.Rel (Path.Clean "/r") "/r/a" = Some rel
             /\ HasPrefix rel ".." = false).
Proof.
  apply (DeleteFiles_prunes_within_root Demo.loneSession "/r" Demo.sharedTree "/r/a").
  - vm_compute. discriminate.
  - vm_compute. reflexivity.
Defined.

End RootMore.

(* ===================================================================== *)
(** * The cells of the table                                              *)
(* ===================================================================== *)

Module CellFacts.
Import Str Cells.

Lemma length_sdrop (n : nat) (s : string) :
  String.length (sdrop n s) = (String.length s - n)%nat.
Proof.
  revert s. induction n as [|n IH]; intros [|c s]; cbn [sdrop String.length];
    try lia. apply IH.
Qed.

Lemma length_stake_min (n : nat) (s : string) :
  String.length (stake n s) = Nat.min n (String.length s).
Proof.
  revert s. induction n as [|n IH]; intros [|c s]; cbn [stake String.length];
    try reflexivity. now rewrite IH.
Qed.

(** X14. With a width of at least 1, [truncateText] returns a text of at
    least 1 and at most [max] bytes. *)
Theorem truncateText_fits (text : string) (max : Z) :
  1 <= max ->
  exists out, truncateText text max = Some out
              /\ 1 <= Z.of_nat (String.length out) <= max.
Proof.
  intros Hmax. unfold truncateText.
  destruct (String.eqb_spec (TrimSpace text) EmptyString) as [E|E].
  - exists "-"%string. split; [reflexivity|]. cbn. lia.
  - assert (Hlen : (1 <= String.length (TrimSpace text))%nat)
      by (destruct (TrimSpace text); [contradiction | cbn; lia]).
    destruct (Z.leb_spec (Z.of_nat (String.length (TrimSpace text))) max) as [H1|H1].
    + eexists. split; [reflexivity|]. lia.
    + destruct (Z.leb_spec max 3) as [H2|H2].
      * destruct (Z.ltb_spec max 0); [lia|].
        eexists. split; [reflexivity|]. rewrite length_stake_min. lia.
      * eexists. split; [reflexivity|].
        rewrite StrFacts.length_append, length_stake_min. cbn [String.length]. lia.
Qed.

(** X15. [abbreviatePath] with a width above 3 turns a longer path into
    three dots and the last [max - 1] bytes of the path: a text of
    [max + 2] bytes, two more than the width. With any width above 0 the
    result has at most [max + 2] bytes. *)
Theorem abbreviatePath_length (path : string) (max : Z) :
  0 < max ->
  Z.of_nat (String.length (abbreviatePath path max)) <= max + 2
  /\ (3 < max -> max < Z.of_nat (String.length path) ->
      abbreviatePath path max
      = "..." +:+ sdrop (String.length path - Z.to_nat (max - 1)) path
      /\ Z.of_nat (String.length (abbreviatePath path max)) = max + 2).
Proof.
  intros Hmax. unfold abbreviatePath.
  destruct (Z.leb_spec max 0); [lia|].
  destruct (Z.leb_spec (Z.of_nat (String.length path)) max) as [H1|H1].
  - split; lia.
  - cbn [String.length]. destruct (Z.leb_spec max (Z.of_nat 3)) as [H2|H2].
    + split; [|lia]. rewrite length_stake_min. lia.
    + replace (Z.to_nat (Z.of_nat (String.length path) - (max - 1)))
        with (String.length path - Z.to_nat (max - 1))%nat by lia.
      assert (Hl : Z.of_nat (String.length
                     ("..." +:+ sdrop (String.length path - Z.to_nat (max - 1)) path))
                   = max + 2).
      { rewrite StrFacts.length_append, length_sdrop. cbn [String.length]. lia. }
      split; [lia|]. intros _ _. split; [reflexivity | exact Hl].
Qed.

Lemma truncateText_fits_witness :
  exists out, truncateText "  hello world  " 8 = Some out
              /\ 1 <= Z.of_nat (String.length out) <= 8.
Proof. apply (truncateText_fits "  hello world  " 8). lia. Defined.

Lemma abbreviatePath_length_witness :
  Z.of_nat (String.length (abbreviatePath "/home/u/src/project" 8)) <= 8 + 2
  /\ (3 < 8 -> 8 < Z.of_nat (String.length "/home/u/src/project") ->
      abbreviatePath "/home/u/src/project" 8
      = "..." +:+ sdrop (String.length "/home/u/src/project" - Z.to_nat (8 - 1))
                        "/home/u/src/project"
      /\ Z.of_nat (String.length (abbreviatePath "/home/u/src/project" 8)) = 8 + 2).
Proof. apply (abbreviatePath_length "/home/u/src/project" 8). lia. Defined.

End CellFacts.

(* ===================================================================== *)
(** * Runes and their encoding                                            *)
(* ===================================================================== *)

Module Utf8Facts.
Import Utf8.

(** A Unicode scalar value: what a key event carries as its rune. *)
Definition validRune (r : Z) : Prop :=
  0 <= r <= 0x10FFFF /\ ~ (0xD800 <= r <= 0xDFFF).

Lemma ord_chr (z : Z) : 0 <= z < 256 -> ord (chr z) = z.
Proof.
  intros H. unfold ord, chr. rewrite N_ascii_embedding by lia. lia.
Qed.

Lemma decode_cons (a : ascii) (r1 : string) :
  decode (String a r1) =
  if ord a <? 0x80 then ord a :: decode r1 else
  match r1 with
  | EmptyString => RuneError :: decode r1
  | String b r2 =>
      if (0xC2 <=? ord a) && (ord a <=? 0xDF) && cont b
      then ((ord a - 0xC0) * 64 + (ord b - 0x80)) :: decode r2 else
      match r2 with
      | EmptyString => RuneError :: decode r1
      | String c r3 =>
          if (0xE0 <=? ord a) && (ord a <=? 0xEF) && second a b && cont c
          then ((ord a - 0xE0) * 4096 + (ord b - 0x80) * 64 + (ord c - 0x80))
               :: decode r3 else
          match r3 with
          | EmptyString => RuneError :: decode r1
          | String d r4 =>
              if (0xF0 <=? ord a) && (ord a <=? 0xF4) && second a b
                 && cont c && cont d
              then ((ord a - 0xF0) * 262144 + (ord b - 0x80) * 4096
                    + (ord c - 0x80) * 64 + (ord d - 0x80)) :: decode r4
              else RuneError :: decode r1
          end
      end
  end.
Proof. reflexivity. Qed.

(** Linear arithmetic with the quotients and remainders of the encoding. *)
Ltac zlia := Z.div_mod_to_equations; lia.

(** Decides the comparisons of the goal one by one. *)
Ltac compare_all :=
  repeat match goal with
         | |- context [Z.eqb ?x ?y] => destruct (Z.eqb_spec x y); try zlia
         | |- context [Z.ltb ?x ?y] => destruct (Z.ltb_spec x y); try zlia
         | |- context [Z.leb ?x ?y] => destruct (Z.leb_spec x y); try zlia
         end.

Lemma decode_one (z : Z) (rest : string) :
  0 <= z < 0x80 -> decode (String (chr z) rest) = z :: decode rest.
Proof.
  intros H. rewrite decode_cons, ord_chr by lia.
  destruct (Z.ltb_spec z 0x80); [reflexivity | lia].
Qed.

Lemma decode_two (r : Z) (rest : string) :
  0x80 <= r < 0x800 ->
  decode (String (chr (0xC0 + r / 64)) (String (chr (0x80 + r mod 64)) rest))
  = r :: decode rest.
Proof.
  intros H. rewrite decode_cons. unfold cont.
  rewrite !ord_chr by zlia. compare_all. cbn [andb]. f_equal. zlia.
Qed.

Lemma decode_three (r : Z) (rest : string) :
  0x800 <= r < 0x10000 -> ~ (0xD800 <= r <= 0xDFFF) ->
  decode (String (chr (0xE0 + r / 4096))
            (String (chr (0x80 + (r / 64) mod 64))
               (String (chr (0x80 + r mod 64)) rest)))
  = r :: decode rest.
Proof.
  intros H Hs. rewrite decode_cons. unfold cont, second.
  rewrite !ord_chr by zlia. compare_all; cbn [andb]; f_equal; zlia.
Qed.

Lemma decode_four (r : Z) (rest : string) :
  0x10000 <= r <= 0x10FFFF ->
  decode (String (chr (0xF0 + r / 262144))
            (String (chr (0x80 + (r / 4096) mod 64))
               (String (chr (0x80 + (r / 64) mod 64))
                  (String (chr (0x80 + r mod 64)) rest))))
  = r :: decode rest.
Proof.
  intros H. rewrite decode_cons. unfold cont, second.
  rewrite !ord_chr by zlia. compare_all; cbn [andb]; f_equal; zlia.
Qed.

(** The bytes of a rune, followed by more bytes, read back as the rune
    followed by the runes of these bytes. *)
Lemma decode_encodeRune (r : Z) (rest : string) :
  validRune r -> decode (encodeRune r +:+ rest) = r :: decode rest.
Proof.
  intros [Hr Hs]. unfold encodeRune.
  destruct (Z.ltb_spec r 0); [lia|]. destruct (Z.ltb_spec 0x10FFFF r); [lia|].
  cbn [orb].
  assert (E : (0xD800 <=? r) && (r <=? 0xDFFF) = false).
  { destruct (Z.leb_spec 0xD800 r); destruct (Z.leb_spec r 0xDFFF); try reflexivity. lia. }
  rewrite E.
  destruct (Z.ltb_spec r 0x80); [apply decode_one; lia|].
  destruct (Z.ltb_spec r 0x800); [apply decode_two; lia|].
  destruct (Z.ltb_spec r 0x10000); [apply decode_three; [lia | exact Hs]|].
  apply decode_four. lia.
Qed.

Lemma encodeRune_nonempty (r : Z) : encodeRune r <> EmptyString.
Proof.
  unfold encodeRune.
  repeat match goal with |- context [if ?c then _ else _] => destruct c end;
    discriminate.
Qed.

Lemma encode_snoc (rs : list Z) (r : Z) :
  encode (rs ++ [r]) = encode rs +:+ encodeRune r.
Proof.
  induction rs as [|x rs IH]; cbn [app encode fold_right].
  - now rewrite StrFacts.append_nil_r.
  - change (fold_right (fun r acc => encodeRune r +:+ acc) EmptyString (rs ++ [r]))
      with (encode (rs ++ [r])).
    change (fold_right (fun r acc => encodeRune r +:+ acc) EmptyString rs)
      with (encode rs).
    now rewrite IH, StrFacts.append_assoc.
Qed.

Lemma decode_encode_app (rs : list Z) (rest : string) :
  Forall validRune rs -> decode (encode rs +:+ rest) = rs ++ decode rest.
Proof.
  induction 1 as [|x rs Hx _ IH]; [reflexivity|].
  cbn [encode fold_right app].
  change (fold_right (fun r acc => encodeRune r +:+ acc) EmptyString rs)
    with (encode rs).
  rewrite StrFacts.append_assoc, decode_encodeRune by exact Hx. now rewrite IH.
Qed.

End Utf8Facts.

(* ===================================================================== *)
(** * More about the keys of the list                                     *)
(* ===================================================================== *)

Module UiMore.
Import Str Sessions Ui.

(** What stays of a model when only its view changes. *)
Definition sameSession (m m' : model) : Prop :=
  entries m' = entries m /\ status m' = status m /\ pageSize m' = pageSize m
  /\ sessionsRoot m' = sessionsRoot m /\ resumeID m' = resumeID m.

Lemma sameSession_refl (m : model) : sameSession m m.
Proof. repeat split. Qed.

Lemma sameSession_trans (a b c : model) :
  sameSession a b -> sameSession b c -> sameSession a c.
Proof. unfold sameSession. intuition congruence. Qed.

Lemma refreshTable_same (m : model) : sameSession m (refreshTable m).
Proof.
  unfold refreshTable. destruct (filtered m); [apply sameSession_refl|].
  match goal with |- context [if ?c then _ else _] => destruct c end;
    repeat split.
Qed.

Lemma refreshTable_query (m : model) : query (refreshTable m) = query m.
Proof.
  unfold refreshTable. destruct (filtered m); [reflexivity|].
  match goal with |- context [if ?c then _ else _] => destruct c end; reflexivity.
Qed.

Lemma refreshTable_filtered (m : model) : filtered (refreshTable m) = filtered m.
Proof.
  unfold refreshTable. destruct (filtered m) eqn:E; [exact E|].
  match goal with |- context [if ?c then _ else _] => destruct c end;
    cbn; now rewrite ?E.
Qed.

Lemma moveSelectionBy_same (delta : Z) (m : model) :
  sameSession m (moveSelectionBy delta m).
Proof.
  unfold moveSelectionBy. destruct (filtered m); repeat split.
Qed.

Section Model.

Variable fuzzyMatchFold : string -> string -> bool.
Variable LevenshteinDistance : string -> string -> Z.
Variable ToLower : string -> string.
Variable errorText : list error -> string.

#[local] Abbreviation rank := (rank fuzzyMatchFold LevenshteinDistance).
#[local] Abbreviation applyFilter := (applyFilter fuzzyMatchFold LevenshteinDistance).
#[local] Abbreviation deleteSelected :=
  (deleteSelected fuzzyMatchFold LevenshteinDistance errorText).
#[local] Abbreviation handleEvent :=
  (handleEvent fuzzyMatchFold LevenshteinDistance errorText).

Lemma applyFilter_same (m : model) : sameSession m (applyFilter m).
Proof. unfold Ui.applyFilter. destruct (entries m) eqn:E; repeat split; cbn; now rewrite ?E. Qed.

Lemma refiltered_same (q : string) (m : model) :
  sameSession m (refreshTable (applyFilter (setQuery q m))).
Proof.
  eapply sameSession_trans; [|apply refreshTable_same].
  eapply sameSession_trans; [|apply applyFilter_same]. repeat split.
Qed.

(** X16. What a key can do. Only the delete key changes the tree of files,
    the rows or the status line; no key changes the sessions root. The
    application stops on the confirm key over a list that is not empty, with
    the identifier of the row under the cursor as the session to resume, and
    on the interrupt key or the escape key with an empty query, with no
    session to resume; every other key leaves it running, with the session to
    resume as it was. *)
Theorem handleEvent_frame (k : key) (m : model) (fs : Fs.fsys)
    (m' : model) (fs' : Fs.fsys) (sig : signal) :
  handleEvent k m fs = Some (m', fs', sig) ->
  sessionsRoot m' = sessionsRoot m
  /\ (k <> KeyDelete -> fs' = fs /\ entries m' = entries m /\ status m' = status m)
  /\ (sig = Running -> resumeID m' = resumeID m)
  /\ (sig = Stopped ->
      (k = KeyEnter
       /\ exists idx r, index (filtered m) (selected m) = Some idx
                        /\ entries m !! idx = Some r
                        /\ resumeID m' = ID (rowSession r))
      \/ ((k = KeyCtrlC \/ (k = KeyEsc /\ query m = EmptyString))
          /\ resumeID m' = EmptyString)).
Proof.
  unfold Ui.handleEvent. destruct k as [r| | | | | | | |].
  - destruct (Utf8.IsControl r); intros [= <- <- <-].
    + repeat split; discriminate.
    + destruct (refiltered_same (query m +:+ Utf8.encodeRune r) m)
        as (H1 & H2 & H3 & H4 & H5).
      repeat split; auto; discriminate.
  - destruct (negb (String.eqb (query m) EmptyString)); intros [= <- <- <-].
    + destruct (refiltered_same (dropLastRune (query m)) m) as (H1 & H2 & H3 & H4 & H5).
      repeat split; auto; discriminate.
    + repeat split; discriminate.
  - destruct (String.eqb_spec (query m) EmptyString) as [Eq|Eq]; cbn [negb];
      intros [= <- <- <-].
    + split; [reflexivity|]. split; [auto|]. split; [discriminate|].
      intros _. right. split; [right; auto | reflexivity].
    + destruct (refiltered_same EmptyString m) as (H1 & H2 & H3 & H4 & H5).
      repeat split; auto; discriminate.
  - destruct (filtered m) as [|i f] eqn:Ef.
    + intros [= <- <- <-]. repeat split; discriminate.
    + destruct (index (i :: f) (selected m)) as [idx|] eqn:Ei; [|discriminate].
      destruct (entries m !! idx) as [r|] eqn:Er; [|discriminate].
      intros [= <- <- <-]. split; [reflexivity|]. split; [auto|].
      split; [discriminate|]. intros _. left. split; [reflexivity|].
      exists idx, r. auto.
  - destruct (deleteSelected m fs) as [[m1 fs1]|] eqn:Ed; [|discriminate].
    intros [= <- <- <-].
    assert (Hd : sessionsRoot m1 = sessionsRoot m /\ resumeID m1 = resumeID m).
    { unfold Ui.deleteSelected in Ed. destruct (filtered m) as [|i f].
      - injection Ed as <- <-. auto.
      - destruct (index (i :: f) (selected m)) as [idx|]; [|discriminate].
        destruct (entries m !! idx) as [r|]; [|discriminate].
        destruct (DeleteFiles (rowSession r) (sessionsRoot m) fs) as [fs2 [|e err]];
          injection Ed as <- <-; [|auto].
        match goal with
        | |- context [Ui.applyFilter _ _ ?x] =>
            destruct (applyFilter_same x) as (_ & _ & _ & H4 & H5)
        end. rewrite H4, H5. auto. }
    destruct (refreshTable_same m1) as (_ & _ & _ & H4 & H5).
    destruct Hd as [D1 D2].
    split; [congruence|]. split; [congruence|]. split; [congruence | discriminate].
  - intros [= <- <- <-].
    destruct (moveSelectionBy_same (pageSize m) m) as (H1 & H2 & H3 & H4 & H5).
    repeat split; auto; discriminate.
  - intros [= <- <- <-].
    destruct (moveSelectionBy_same (wrap (- pageSize m)) m) as (H1 & H2 & H3 & H4 & H5).
    repeat split; auto; discriminate.
  - intros [= <- <- <-]. split; [reflexivity|]. split; [auto|].
    split; [discriminate|]. intros _. right. split; [left; reflexivity | reflexivity].
  - intros [= <- <- <-]. repeat split; discriminate.
Qed.

(** X17. The list drops a row only when the files of its session are gone:
    after [deleteSelected] the tree is part of the tree before, and either the
    rows are the rows before, or the row under the cursor was removed and no
    path of its session is left in the tree. *)
Theorem row_dropped_only_when_files_gone (m : model) (fs : Fs.fsys)
    (m' : model) (fs' : Fs.fsys) :
  deleteSelected m fs = Some (m', fs') ->
  fs' ⊆ fs
  /\ (entries m' = entries m
      \/ exists idx r,
           index (filtered m) (selected m) = Some idx
           /\ entries m !! idx = Some r
           /\ entries m' = removeAt idx (entries m)
           /\ forall path, path ∈ FilePaths (rowSession r) ->
                           fs' !! Path.Clean path = None).
Proof.
  unfold Ui.deleteSelected. destruct (filtered m) as [|i f].
  - intros [= <- <-]. split; [reflexivity | now left].
  - destruct (index (i :: f) (selected m)) as [idx|] eqn:Ei; [|discriminate].
    destruct (entries m !! idx) as [r|] eqn:Er; [|discriminate].
    pose proof (DeleteMore.removeAll_spec
                  (if negb (String.eqb (sessionsRoot m) EmptyString)
                   then Path.Clean (sessionsRoot m) else sessionsRoot m)
                  (FilePaths (rowSession r)) fs []) as (H1 & H2 & _ & H4).
    rewrite <- DeleteMore.DeleteFiles_fold in H1, H2, H4.
    destruct (DeleteFiles (rowSession r) (sessionsRoot m) fs) as [fs2 [|e err]];
      cbn [fst snd] in H1, H2, H4; intros [= <- <-].
    + split; [exact H1|]. right. exists idx, r.
      split; [reflexivity|]. split; [exact Er|]. split.
      * match goal with
        | |- context [Ui.applyFilter _ _ ?x] =>
            destruct (applyFilter_same x) as (E1 & _)
        end. rewrite E1. reflexivity.
      * intros path Hp. destruct (H4 path Hp) as [Hgone|[c Hc]]; [exact Hgone|].
        inversion Hc.
    + split; [exact H1 | now left].
Qed.

(** X18. The backspace key takes back a typed rune: after the key of a
    rune that is no control character and then the backspace key, the query
    is the query before, the rows are the same, the tree of files is
    untouched, and the view is the one of this query. *)
Theorem backspace_undoes_rune (m : model) (fs : Fs.fsys) (rs : list Z) (r : Z) :
  query m = Utf8.encode rs ->
  Forall Utf8Facts.validRune rs ->
  Utf8Facts.validRune r ->
  Utf8.IsControl r = false ->
  exists m1 m2,
    handleEvent (KeyRune r) m fs = Some (m1, fs, Running)
    /\ query m1 = query m +:+ Utf8.encodeRune r
    /\ handleEvent KeyBackspace m1 fs = Some (m2, fs, Running)
    /\ query m2 = query m
    /\ entries m2 = entries m
    /\ filtered m2 = rank (query m) (entries m).
Proof.
  intros Hq Hrs Hr Hc.
  assert (Hdrop : dropLastRune (query m +:+ Utf8.encodeRune r) = query m).
  { unfold dropLastRune. rewrite Hq, <- Utf8Facts.encode_snoc.
    destruct (String.eqb_spec (Utf8.encode (rs ++ [r])) EmptyString) as [E|_].
    - rewrite Utf8Facts.encode_snoc in E. exfalso.
      destruct (Utf8.encode rs); [|discriminate].
      exact (Utf8Facts.encodeRune_nonempty r E).
    - rewrite <- (StrFacts.append_nil_r (Utf8.encode (rs ++ [r]))).
      rewrite Utf8Facts.decode_encode_app
        by (apply Forall_app; split; [exact Hrs | now constructor]).
      cbn [Utf8.decode]. rewrite app_nil_r, removelast_last.
      rewrite length_app. cbn [length].
      destruct rs as [|x rs]; [reflexivity|].
      destruct (Nat.leb_spec (length (x :: rs) + 1) 1); [cbn [length] in *; lia|].
      reflexivity. }
  pose (m1 := refreshTable (applyFilter (setQuery (query m +:+ Utf8.encodeRune r) m))).
  pose (m2 := refreshTable (applyFilter (setQuery (dropLastRune (query m1)) m1))).
  assert (Hq1 : query m1 = query m +:+ Utf8.encodeRune r).
  { unfold m1. rewrite refreshTable_query.
    now destruct (UiFacts.applyFilter_fields fuzzyMatchFold LevenshteinDistance
                    (setQuery (query m +:+ Utf8.encodeRune r) m)) as (_ & _ & -> & _). }
  assert (He1 : entries m1 = entries m)
    by (destruct (refiltered_same (query m +:+ Utf8.encodeRune r) m) as (E & _); exact E).
  exists m1, m2. split; [unfold Ui.handleEvent; now rewrite Hc|].
  split; [exact Hq1|]. split.
  - unfold Ui.handleEvent. rewrite Hq1.
    destruct (String.eqb_spec (query m +:+ Utf8.encodeRune r) EmptyString) as [E|_].
    + exfalso. destruct (query m); [|discriminate].
      exact (Utf8Facts.encodeRune_nonempty r E).
    + cbn [negb]. unfold m2. now rewrite Hq1.
  - destruct (UiFacts.applyFilter_fields fuzzyMatchFold LevenshteinDistance
                (setQuery (dropLastRune (query m1)) m1)) as (F1 & F2 & F3 & _).
    unfold m2. rewrite refreshTable_query, refreshTable_filtered.
    destruct (refreshTable_same (applyFilter (setQuery (dropLastRune (query m1)) m1)))
      as (E & _).
    rewrite E, F1, F2, F3. cbn [query entries setQuery].
    rewrite Hq1, Hdrop, He1. auto.
Qed.

(** X19. The escape key, pressed twice, always ends the program with no
    session to resume: the first press ends it when the query is empty, and
    clears the query otherwise, so that the second press ends it. The tree of
    files is not touched. *)
Theorem escape_twice_stops (m : model) (fs : Fs.fsys) :
  exists m1 sig1,
    handleEvent KeyEsc m fs = Some (m1, fs, sig1)
    /\ ((sig1 = Stopped /\ query m = EmptyString /\ resumeID m1 = EmptyString)
        \/ (sig1 = Running /\ query m <> EmptyString /\ query m1 = EmptyString
            /\ entries m1 = entries m
            /\ exists m2, handleEvent KeyEsc m1 fs = Some (m2, fs, Stopped)
                          /\ resumeID m2 = EmptyString)).
Proof.
  unfold Ui.handleEvent.
  destruct (String.eqb_spec (query m) EmptyString) as [Eq|Eq]; cbn [negb].
  - eexists _, _. split; [reflexivity|]. left. auto.
  - eexists _, _. split; [reflexivity|]. right.
    assert (Hq : query (refreshTable (applyFilter (setQuery EmptyString m)))
                 = EmptyString).
    { rewrite refreshTable_query.
      now destruct (UiFacts.applyFilter_fields fuzzyMatchFold LevenshteinDistance
                      (setQuery EmptyString m)) as (_ & _ & -> & _). }
    split; [reflexivity|]. split; [exact Eq|]. split; [exact Hq|]. split.
    + now destruct (refiltered_same EmptyString m) as (E & _).
    + rewrite Hq. cbn [String.eqb negb]. eexists. split; reflexivity.
Qed.

End Model.

(** The confirm key on the first of the two rows of [twoRowModel]. *)
Lemma handleEvent_frame_witness :
  sessionsRoot Demo.twoRowModel = sessionsRoot Demo.twoRowModel
  /\ (KeyEnter <> KeyDelete ->
      Demo.twoRowTree = Demo.twoRowTree
      /\ entries (setResumeID "S1" Demo.twoRowModel) = entries Demo.twoRowModel
      /\ status (setResumeID "S1" Demo.twoRowModel) = status Demo.twoRowModel)
  /\ (Stopped = Running ->
      resumeID (setResumeID "S1" Demo.twoRowModel) = resumeID Demo.twoRowModel)
  /\ (Stopped = Stopped ->
      (KeyEnter = KeyEnter
       /\ exists idx r,
            index (filtered Demo.twoRowModel) (selected Demo.twoRowModel) = Some idx
            /\ entries Demo.twoRowModel !! idx = Some r
            /\ resumeID (setResumeID "S1" Demo.twoRowModel) = ID (rowSession r))
      \/ ((KeyEnter = KeyCtrlC
           \/ (KeyEnter = KeyEsc /\ query Demo.twoRowModel = EmptyString))
          /\ resumeID (setResumeID "S1" Demo.twoRowModel) = EmptyString)).
Proof.
  apply (handleEvent_frame Fuzzy.MatchFold Fuzzy.LevenshteinDistance Fuzzy.errorText
           KeyEnter Demo.twoRowModel Demo.twoRowTree
           (setResumeID "S1" Demo.twoRowModel) Demo.twoRowTree Stopped).
  reflexivity.
Defined.

(** The delete key on the first of the two rows of [twoRowModel]. *)
Lemma row_dropped_witness :
  exists m' fs',
    Ui.deleteSelected Fuzzy.MatchFold Fuzzy.LevenshteinDistance Fuzzy.errorText
                      Demo.twoRowModel Demo.twoRowTree = Some (m', fs')
    /\ fs' ⊆ Demo.twoRowTree
    /\ (entries m' = entries Demo.twoRowModel
        \/ exists idx r,
             index (filtered Demo.twoRowModel) (selected Demo.twoRowModel) = Some idx
             /\ entries Demo.twoRowModel !! idx = Some r
             /\ entries m' = removeAt idx (entries Demo.twoRowModel)
             /\ forall path, path ∈ FilePaths (rowSession r) ->
                             fs' !! Path.Clean path = None).
Proof.
  destruct (Ui.deleteSelected Fuzzy.MatchFold Fuzzy.LevenshteinDistance Fuzzy.errorText
              Demo.twoRowModel Demo.twoRowTree) as [[m' fs']|] eqn:E.
  - exists m', fs'. split; [reflexivity|].
    exact (row_dropped_only_when_files_gone Fuzzy.MatchFold Fuzzy.LevenshteinDistance
             Fuzzy.errorText Demo.twoRowModel Demo.twoRowTree m' fs' E).
  - exfalso. revert E. vm_compute. discriminate.
Defined.

(** The letter [a] typed into the empty query of [twoRowModel], and taken
    back. *)
Lemma backspace_undoes_rune_witness :
  exists m1 m2,
    Ui.handleEvent Fuzzy.MatchFold Fuzzy.LevenshteinDistance Fuzzy.errorText
                   (KeyRune 97) Demo.twoRowModel Demo.twoRowTree
    = Some (m1, Demo.twoRowTree, Running)
    /\ query m1 = query Demo.twoRowModel +:+ Utf8.encodeRune 97
    /\ Ui.handleEvent Fuzzy.MatchFold Fuzzy.LevenshteinDistance Fuzzy.errorText
                      KeyBackspace m1 Demo.twoRowTree
       = Some (m2, Demo.twoRowTree, Running)
    /\ query m2 = query Demo.twoRowModel
    /\ entries m2 = entries Demo.twoRowModel
    /\ filtered m2 = Ui.rank Fuzzy.MatchFold Fuzzy.LevenshteinDistance
                             (query Demo.twoRowModel) (entries Demo.twoRowModel).
Proof.
  apply (backspace_undoes_rune Fuzzy.MatchFold Fuzzy.LevenshteinDistance Fuzzy.errorText
           Demo.twoRowModel Demo.twoRowTree [] 97).
  - reflexivity.
  - constructor.
  - unfold Utf8Facts.validRune. lia.
  - reflexivity.
Defined.

End UiMore.

(* ===================================================================== *)
(** * More about the descriptions                                         *)
(* ===================================================================== *)

Module DescriberMore.
Import Str Json Sessions.

Lemma append_nonempty (a b : string) (c : ascii) :
  a +:+ String c b <> EmptyString.
Proof. destruct a; discriminate. Qed.

Lemma prefix_append (a b : string) : String.prefix a (a +:+ b) = true.
Proof.
  induction a as [|c a IH]; cbn [String.append String.prefix];
    [now destruct b|].
  destruct (ascii_dec c c) as [_|N]; [exact IH | contradiction].
Qed.

(** X20. An event message has no description in two cases only: it has no
    message and no type, or it is a user, assistant or system message
    without a message and without a text. *)
Theorem describeEventMessage_empty_iff (raw : option json) (p : eventMsgPayload) :
  Unmarshal (intoStruct setEvent) zeroEvent raw = Some p ->
  (describeEventMessage raw = EmptyString <->
   eventMessage p = EmptyString
   /\ (eventType p = EmptyString
       \/ ((eventType p = "user_message"%string
            \/ eventType p = "assistant_message"%string
            \/ eventType p = "system_message"%string)
           /\ eventText p = EmptyString))).
Proof.
  intros Hu. unfold describeEventMessage. rewrite Hu.
  destruct p as [ty msg txt]. cbn [eventType eventMessage eventText].
  assert (Hfb : (if negb (String.eqb msg EmptyString)
                 then ty +:+ ": " +:+ compactSnippet msg else ty) = EmptyString
                <-> msg = EmptyString /\ ty = EmptyString).
  { destruct (String.eqb_spec msg EmptyString) as [->|Hm]; cbn [negb].
    - tauto.
    - split; [intros E; now apply append_nonempty in E | tauto]. }
  assert (Htext : forall t : string,
             (if String.eqb t EmptyString then EmptyString
              else ty +:+ ": " +:+ compactSnippet t) = EmptyString
             <-> t = EmptyString).
  { intros t. destruct (String.eqb_spec t EmptyString) as [->|Ht]; [tauto|].
    split; [intros E; now apply append_nonempty in E | contradiction]. }
  destruct (String.eqb_spec ty "user_message") as [->|N1];
    [|destruct (String.eqb_spec ty "assistant_message") as [->|N2];
      [|destruct (String.eqb_spec ty "system_message") as [->|N3]]];
    cbn [orb].
  1-3: rewrite Htext; destruct (String.eqb_spec msg EmptyString) as [->|Hm];
       [split; [intros ->; split; [reflexivity | right; auto]
               | intros (_ & [E|[_ E]]); [discriminate | exact E]]
       | split; [contradiction | intros (E & _); contradiction]].
  destruct (String.eqb_spec ty "tool_progress") as [->|N4].
  { destruct (String.eqb_spec msg EmptyString) as [->|Hm]; cbn [negb].
    - split; [discriminate|]. intros (_ & [E|[[E|[E|E]] _]]); discriminate.
    - split; [discriminate | intros (E & _); contradiction]. }
  destruct (String.eqb_spec ty "token_count") as [->|N5].
  { split; [discriminate|].
    intros (_ & [E|[[E|[E|E]] _]]); discriminate. }
  destruct (String.eqb_spec ty "command_output") as [->|N6].
  { destruct (String.eqb_spec msg EmptyString) as [->|Hm]; cbn [negb].
    - split; [discriminate|]. intros (_ & [E|[[E|[E|E]] _]]); discriminate.
    - split; [discriminate | intros (E & _); contradiction]. }
  rewrite Hfb. split.
  - intros [-> ->]. auto.
  - intros (-> & [->|[[E|[E|E]] _]]); auto; contradiction.
Qed.

(** X21. A function call and the output of a function call always have a
    description, and it starts with the word [call] and the name of the
    function. *)
Theorem function_calls_are_described (jsonText : string -> option json)
    (raw : option json) (p : responseItemPayload) :
  Unmarshal (intoStruct setItem) zeroItem raw = Some p ->
  itemType p = "function_call"%string \/ itemType p = "function_call_output"%string ->
  HasPrefix (describeResponseItem jsonText raw) ("call " +:+ itemName p) = true
  /\ describeResponseItem jsonText raw <> EmptyString.
Proof.
  intros Hu Hty.
  assert (Hpre : forall rest : string,
             HasPrefix ("call " +:+ itemName p +:+ rest) ("call " +:+ itemName p) = true).
  { intros rest. unfold HasPrefix.
    change ("call " +:+ itemName p +:+ rest)
      with (("call " +:+ itemName p) +:+ rest).
    apply prefix_append. }
  assert (Hne : forall s : string,
             HasPrefix s ("call " +:+ itemName p) = true -> s <> EmptyString).
  { intros s H ->. discriminate H. }
  assert (Hgoal : HasPrefix (describeResponseItem jsonText raw) ("call " +:+ itemName p)
                  = true); [|split; [exact Hgoal | exact (Hne _ Hgoal)]].
  unfold describeResponseItem. rewrite Hu. destruct Hty as [Hty|Hty]; rewrite Hty.
  - cbn [String.eqb Ascii.eqb Bool.eqb]. cbv beta iota.
    destruct (negb (String.eqb (describeFunctionArguments jsonText (itemName p)
                                  (itemArguments p)) EmptyString)).
    + rewrite StrFacts.append_assoc. apply Hpre.
    + rewrite <- (StrFacts.append_nil_r ("call " +:+ itemName p)) at 1.
      rewrite StrFacts.append_assoc. apply Hpre.
  - cbn [String.eqb Ascii.eqb Bool.eqb]. cbv beta iota.
    unfold describeFunctionOutput.
    repeat match goal with
           | |- context [if ?c then _ else _] => destruct c
           | |- context [match ?c with _ => _ end] => destruct c
           end; apply Hpre.
Qed.

Lemma describeEventMessage_empty_witness :
  describeEventMessage
    (Some (JObj [("type"%string, JStr "user_message");
                 ("text"%string, JStr "hello")])) = EmptyString <->
  EmptyString = EmptyString
  /\ ("user_message"%string = EmptyString
      \/ (("user_message"%string = "user_message"%string
           \/ "user_message"%string = "assistant_message"%string
           \/ "user_message"%string = "system_message"%string)
          /\ "hello"%string = EmptyString)).
Proof.
  apply (describeEventMessage_empty_iff
           (Some (JObj [("type"%string, JStr "user_message");
                        ("text"%string, JStr "hello")]))
           (mkEvent "user_message" EmptyString "hello")).
  reflexivity.
Defined.

Lemma function_calls_are_described_witness :
  HasPrefix (describeResponseItem Demo.noText
               (Some (JObj [("type"%string, JStr "function_call");
                            ("name"%string, JStr "shell")])))
            ("call " +:+ "shell") = true
  /\ describeResponseItem Demo.noText
       (Some (JObj [("type"%string, JStr "function_call");
                    ("name"%string, JStr "shell")])) <> EmptyString.
Proof.
  apply (function_calls_are_described Demo.noText
           (Some (JObj [("type"%string, JStr "function_call");
                        ("name"%string, JStr "shell")]))
           (mkItem "function_call" EmptyString [] "shell" EmptyString EmptyString []
                   None EmptyString)).
  - reflexivity.
  - left. reflexivity.
Defined.

End DescriberMore.
